(** * CLIK plan datasets: the product sampler of [src/data/dataset.py]

    A shallow embedding of [_PlanBaseDataset] (construction, image
    verification, [sample_prods]) and of the [__getitem__]/[__len__] methods
    of its subclasses, followed by the properties of the sampling policy.

    Modelling conventions.
    - A pandas [DataFrame] is the list of its rows, in positional order; a row
      carries its index label and its cells.  The column named by
      [self.target] is the field [score]; the transient column ["weight"] is
      the optional field [weight] ([None]: the column is absent).
    - Numbers of the target column are rationals.  The weight
      [score + uniform * 1e-8] is rounded as binary64 rounds it ([b64]:
      products and sums to the nearest number of 53 significant bits, ties to
      even, nothing finer than 2^-1074), so that noise can vanish into a
      large score; the difference [max - weight] of the negative weights
      is rounded likewise.  Comparisons are exact.  The normalisation
      [weights / weights.sum()] of a weighted draw is not represented;
      theorems that promise a result keep to scores of [moderate] size, for
      which that sum stays finite and no positive weight becomes a zero
      probability.
    - DataFrames that the program holds by reference live in a heap of
      objects; [plan["weight"] = ...] writes into the object it is given.
    - Random draws read an explicit stream of raw generator outputs kept in
      the world.  The model is possibilistic: it fixes which results a draw
      can produce, not how likely each one is.
    - The text preprocessor and the image transforms are callables handed to
      the constructor and are not run: an item of the model holds what
      [__getitem__] hands to them, the raw text and, for each image, the path
      it was read from. *)

From Stdlib Require Import ZArith NArith QArith Qminmax Qpower Qround Lqa Lia Bool.
From Stdlib Require Import Permutation Sorted.
From Stdlib Require Import Ascii String DecimalString DecimalZ.
From stdpp Require Import base option list sorting gmap strings.

Local Open Scope Z_scope.
Local Open Scope nat_scope.

(** ** Rows and frames *)

Record Row := mkRow {
  label : Z;                        (* index label of the row *)
  id : Z;
  plan_id : Z;
  prod_id : Z;
  score : Q;                        (* the cell of column [self.target] *)
  attrs : list (string * string);   (* text columns: plan_attrs and prod_attrs *)
  weight : option Q                 (* the cell of column "weight", if any *)
}.

Abbreviation DataFrame := (list Row).

Definition set_label (l : Z) (r : Row) : Row :=
  mkRow l (id r) (plan_id r) (prod_id r) (score r) (attrs r) (weight r).

Definition set_weight (w : option Q) (r : Row) : Row :=
  mkRow (label r) (id r) (plan_id r) (prod_id r) (score r) (attrs r) w.

(** The cells of a row, its index label left out. *)
Definition cells (r : Row) : Row := set_label 0%Z r.

(** ** Exceptions, results and the world *)

Inductive exn :=
| ValueError
| KeyError
| AssertionError
| NotImplementedError
| TypeError
| AttributeError
| RuntimeError
| Cv2Error      (* cv2.cvtColor on the None that cv2.imread returns *)
| Dangling.     (* not a Python exception: a reference that denotes no object *)

Inductive Res (A : Type) :=
| Ok (a : A)
| Raise (e : exn).
Arguments Ok {A} a.
Arguments Raise {A} e.

(** warnings.warn of [verify_meta_data]: the two counts of its message. *)
Record Warning := mkWarning { num_rows_origin : nat; num_rows_dropped : nat }.

Abbreviation loc := nat.

Record World := mkWorld {
  heap : list DataFrame;     (* DataFrame objects, by reference *)
  rng : list N;              (* raw outputs of the global numpy generator *)
  files : list string;       (* paths of the regular files on disk *)
  warned : list Warning      (* warnings issued so far, oldest first *)
}.

Definition with_heap (h : list DataFrame) (w : World) : World :=
  mkWorld h (rng w) (files w) (warned w).
Definition with_rng (g : list N) (w : World) : World :=
  mkWorld (heap w) g (files w) (warned w).
Definition with_warned (l : list Warning) (w : World) : World :=
  mkWorld (heap w) (rng w) (files w) l.

(** Computations: they may raise, and what they did to the world before
    raising stays done. *)
Definition M (A : Type) : Type := World -> Res A * World.

#[global] Instance M_ret : MRet M := fun A a w => (Ok a, w).
#[global] Instance M_bind : MBind M := fun A B f m w =>
  match m w with
  | (Ok a, w') => f a w'
  | (Raise e, w') => (Raise e, w')
  end.

Definition raise {A} (e : exn) : M A := fun w => (Raise e, w).

Definition load (l : loc) : M DataFrame := fun w =>
  match heap w !! l with
  | Some df => (Ok df, w)
  | None => (Raise Dangling, w)
  end.

Definition store (l : loc) (df : DataFrame) : M unit := fun w =>
  (Ok tt, with_heap (<[l := df]> (heap w)) w).

Definition alloc (df : DataFrame) : M loc := fun w =>
  (Ok (length (heap w)), with_heap (heap w ++ [df]) w).

Definition warn (x : Warning) : M unit := fun w =>
  (Ok tt, with_warned (warned w ++ [x]) w).

(** One raw output of the generator; an exhausted stream yields 0. *)
Definition next_rand : M N := fun w =>
  (Ok (hd 0%N (rng w)), with_rng (tl (rng w)) w).

(** ** numpy *)

(** random_sample: a 53-bit integer over 2^53, a value of [0, 1). *)
Definition unit_interval (r : N) : Q :=
  Z.of_N (r mod 2 ^ 53) # (2 ^ 53).

(** np.random.uniform(size=k) *)
Fixpoint uniform (k : nat) : M (list Q) :=
  match k with
  | O => mret []
  | S k' => r ← next_rand; us ← uniform k'; mret (unit_interval r :: us)
  end.

(** np.random.binomial(1, p): one Bernoulli trial. *)
Definition binomial1 (p : Q) : M bool :=
  r ← next_rand; mret (negb (Qle_bool p (unit_interval r))).

(** Generator.choice without replacement, seen from its support: [k] draws,
    each among the candidates not drawn yet. *)
Fixpoint choice {A} (k : nat) (cands : list A) : M (list A) :=
  match k with
  | O => mret []
  | S k' =>
      r ← next_rand;
      let i := N.to_nat (r mod N.of_nat (length cands)) in
      match cands !! i with
      | Some x => xs ← choice k' (delete i cands); mret (x :: xs)
      | None => mret []      (* no candidate left; the size checks exclude it *)
      end
  end.

(** ** pandas *)

Definition Qltb (x y : Q) : bool := negb (Qle_bool y x).

Definition Qsum (l : list Q) : Q := foldr Qplus 0%Q l.

(** Series.max(); [None] stands for the NaN of an empty column. *)
Definition col_max (l : list Q) : option Q :=
  match l with
  | [] => None
  | x :: l' => Some (foldr Qmax x l')
  end.

(** df["weight"]: KeyError when the column is absent. *)
Definition column_weight (df : DataFrame) : M (list Q) :=
  match mapM weight df with
  | Some ws => mret ws
  | None => raise KeyError
  end.

(** df["weight"] = ws, positionally. *)
Definition assign_weight (ws : list Q) (df : DataFrame) : DataFrame :=
  zip_with (fun r w => set_weight (Some w) r) df ws.

(** df.drop("weight", axis=1) *)
Definition drop_weight (df : DataFrame) : M DataFrame :=
  if forallb (fun r => bool_decide (is_Some (weight r))) df
  then mret (set_weight None <$> df)
  else raise KeyError.

(** df.drop(l, axis=0): every row labelled [l] goes; KeyError if there is none. *)
Definition drop_label (l : Z) (df : DataFrame) : M DataFrame :=
  if existsb (fun r => Z.eqb (label r) l) df
  then mret (List.filter (fun r => negb (Z.eqb (label r) l)) df)
  else raise KeyError.

(** df.drop(ls, axis=0) for a list of labels. *)
Definition drop_labels (ls : list Z) (df : DataFrame) : M DataFrame :=
  if forallb (fun l => existsb (fun r => Z.eqb (label r) l) df) ls
  then mret (List.filter (fun r => negb (existsb (Z.eqb (label r)) ls)) df)
  else raise KeyError.

(** reset_index(drop=True) / ignore_index=True: labels 0, 1, 2, ... *)
Definition reset_index (df : DataFrame) : DataFrame :=
  imap (fun i r => set_label (Z.of_nat i) r) df.

(** Stable ascending sort on keys. *)
Fixpoint insert_sorted {A} (x : Q * A) (l : list (Q * A)) : list (Q * A) :=
  match l with
  | [] => [x]
  | y :: l' => if Qle_bool (fst x) (fst y) then x :: l
               else y :: insert_sorted x l'
  end.

Definition argsort {A} (l : list (Q * A)) : list (Q * A) :=
  foldr insert_sorted [] l.

(** nargsort(ascending=False): reverse, sort ascending, reverse.  numpy's
    default sort is not stable on long inputs, so the order of equal keys
    is not to be relied upon; the theorems below use sortedness and the
    permutation only. *)
Definition nargsort_desc {A} (l : list (Q * A)) : list (Q * A) :=
  reverse (argsort (reverse l)).

(** df.sort_values(by=self.target, ascending=False, ignore_index=True) *)
Definition sort_values_target (df : DataFrame) : DataFrame :=
  reset_index (snd <$> nargsort_desc ((fun r => (score r, r)) <$> df)).

(** df.sort_values(by="weight", ascending=False, ignore_index=True) *)
Definition sort_values_weight (df : DataFrame) : M DataFrame :=
  ws ← column_weight df;
  mret (reset_index (snd <$> nargsort_desc (zip ws df))).

(** df[df[col] == df[col].max()] for a column given by its values. *)
Definition rows_at_max (vals : list Q) (df : DataFrame) : DataFrame :=
  match col_max vals with
  | Some m => snd <$> List.filter (fun p => Qeq_bool (fst p) m) (zip vals df)
  | None => []
  end.

(** The rows that a weighted draw can take: those of positive weight. *)
Definition candidates (ws : list Q) (df : DataFrame) : DataFrame :=
  snd <$> List.filter (fun p => Qltb 0 (fst p)) (zip ws df).

(** DataFrame.sample(n, weights, replace=False).  pandas rejects negative
    weights and weights that sum to zero; numpy rejects a sample larger than
    the population and one larger than the number of non-zero weights.
    Rows of weight zero are never drawn.  The weights are compared as they
    are; their normalisation by the binary64 sum is not computed (see
    [moderate] for the weights on which that changes nothing). *)
Definition sample (n : Z) (weights : option (list Q)) (df : DataFrame)
  : M DataFrame :=
  match weights with
  | Some ws =>
      if negb (length ws =? length df) then raise ValueError
      else if existsb (fun x => Qltb x 0) ws then raise ValueError
      else if Qeq_bool (Qsum ws) 0 then raise ValueError
      else if (n <? 0)%Z then raise ValueError
      else if (Z.of_nat (length df) <? n)%Z then raise ValueError
      else if (Z.of_nat (length (candidates ws df)) <? n)%Z then raise ValueError
      else choice (Z.to_nat n) (candidates ws df)
  | None =>
      if (n <? 0)%Z then raise ValueError
      else if (Z.of_nat (length df) <? n)%Z then raise ValueError
      else choice (Z.to_nat n) df
  end.

(** What [sample_prods] hands back. *)
Inductive pyval :=
| PNone
| PSeries (r : Row)
| PFrame (df : DataFrame).

(** DataFrame.squeeze(): a one-row frame becomes that row.  The cells of a
    row of the model keep their types; pandas turns the cells of a row that
    is all numbers (a table without text column, with a float target) into
    floats, which the model does not represent. *)
Definition squeeze (df : DataFrame) : pyval :=
  match df with
  | [r] => PSeries r
  | _ => PFrame df
  end.

(** ** The dataset object *)

Inductive Variant :=
| SemanticMatchingDataset (p_txt_aug : Q)
| PreferenceDiscrimDataset (discrim_size : Z)
| PDAblation2Dataset (discrim_size : Z)
| SemanticMatchingEvalDataset
| PreferenceDiscrimEvalDataset (discrim_size : Z).

Record Dataset := mkDataset {
  variant : Variant;
  meta : loc;                               (* self.meta *)
  meta_access_by_plan_id : gmap Z loc;      (* plan_id -> the group's frame *)
  unique_plan_ids : list Z;
  img_dir : string;
  sampling_method : string
}.

Definition with_meta (l : loc) (self : Dataset) : Dataset :=
  mkDataset (variant self) l (meta_access_by_plan_id self)
            (unique_plan_ids self) (img_dir self) (sampling_method self).

(** ** binary64 *)

Definition pow2 (e : Z) : Q := (2 ^ e)%Q.

(** floor (log2 x), for x > 0. *)
Definition binade (x : Q) : Z :=
  let l := (Z.log2 (Qnum x) - Z.log2 (Z.pos (Qden x)))%Z in
  if Qle_bool (pow2 l) x then l else (l - 1)%Z.

(** Round to the nearest integer, ties to even. *)
Definition rint (x : Q) : Z :=
  let f := Qfloor x in
  match (x - inject_Z f ?= 1 # 2)%Q with
  | Lt => f
  | Eq => if Z.even f then f else (f + 1)%Z
  | Gt => (f + 1)%Z
  end.

(** The exponent of the last place of x > 0: 53 significant bits, and
    nothing finer than 2^-1074 (the subnormal numbers). *)
Definition quantum (x : Q) : Z := Z.max (-1074) (binade x - 52).

Definition b64_abs (x : Q) : Q :=
  (inject_Z (rint (x / pow2 (quantum x))) * pow2 (quantum x))%Q.

(** The binary64 number nearest to [x].  A result of 2^1024 or more stands
    for inf; the sums of this program stay below it whenever the scores are
    binary64 numbers themselves. *)
Definition b64 (x : Q) : Q :=
  match (x ?= 0)%Q with
  | Eq => 0%Q
  | Gt => b64_abs x
  | Lt => (- b64_abs (- x))%Q
  end.

(** plan[self.target].values + np.random.uniform(size=len(plan)) * 1e-8:
    the literal 1e-8 is the binary64 number nearest to it, the product and
    the sum are rounded. *)
Definition epsilon : Q := 1 # 100000000.

Definition jitter (df : DataFrame) (noise : list Q) : list Q :=
  zip_with (fun r u => b64 (score r + b64 (u * b64 epsilon))) df noise.

(** plan["weight"] = ...: the write goes into the object [plan] refers to. *)
Definition write_weight (plan : loc) : M DataFrame :=
  df ← load plan;
  noise ← uniform (length df);
  let wdf := assign_weight (jitter df noise) df in
  _ ← store plan wdf;
  mret wdf.

(** plan.sample(n=k, weights="weight") followed by the selection of the rows
    at the maximum weight of the draw. *)
Definition draw_at_max (k : Z) (wdf : DataFrame) : M DataFrame :=
  ws ← column_weight wdf;
  drawn ← sample k (Some ws) wdf;
  dws ← column_weight drawn;
  mret (rows_at_max dws drawn).

(** plan_except_pos["weight"].max() - plan_except_pos["weight"] *)
Definition negative_weights (ws : list Q) : list Q :=
  match col_max ws with
  | Some m => (fun x => b64 (m - x)) <$> ws
  | None => []
  end.

(** pos_prod.index.item(): the label of a one-row frame. *)
Definition index_item (df : DataFrame) : M Z :=
  match df with
  | [r] => mret (label r)
  | _ => raise ValueError
  end.

Definition sample_prods (self : Dataset) (plan : loc) (n : Z) : M pyval :=
  if (n =? -1)%Z then
    df ← load plan;
    mret (PFrame (sort_values_target df))
  else if (n =? 1)%Z then
    if String.eqb (sampling_method self) "random" then
      df ← load plan;
      prod ← sample 1 None df;
      mret (squeeze prod)
    else if String.eqb (sampling_method self) "weighted" then
      wdf ← write_weight plan;
      prod ← draw_at_max 7 wdf;
      prod ← drop_weight prod;
      prod ← sample 1 None prod;
      mret (squeeze prod)
    else if String.eqb (sampling_method self) "sequential" then
      df ← load plan;
      prod ← sample 1 None (rows_at_max (score <$> df) df);
      mret (squeeze prod)
    else raise NotImplementedError
  else if (n >? 1)%Z then
    df ← load plan;
    if (Z.of_nat (length df) =? n)%Z then
      mret (PFrame (sort_values_target df))
    else if String.eqb (sampling_method self) "random" then
      prods ← sample n None df;
      (* self.target is a column of every frame of this model *)
      mret (PFrame (sort_values_target prods))
    else if String.eqb (sampling_method self) "weighted" then
      wdf ← write_weight plan;
      pos_prod ← draw_at_max 5 wdf;
      pos_prod ← sample 1 None pos_prod;
      l ← index_item pos_prod;
      plan_except_pos ← drop_label l wdf;
      ews ← column_weight plan_except_pos;
      neg_prods ← sample (n - 1) (Some (negative_weights ews)) plan_except_pos;
      prods ← sort_values_weight (pos_prod ++ neg_prods);
      prods ← drop_weight prods;
      mret (PFrame prods)
    else if String.eqb (sampling_method self) "sequential" then
      mret (PFrame (take (Z.to_nat n) (sort_values_target df)))
    else raise NotImplementedError
  else mret PNone.

(** ** Image files *)

Fixpoint ends_with_slash (s : string) : bool :=
  match s with
  | EmptyString => false
  | String c EmptyString => Ascii.eqb c "/"%char
  | String _ s' => ends_with_slash s'
  end.

(** os.path.join(a, b) on POSIX. *)
Definition path_join (a b : string) : string :=
  match b with
  | String c _ =>
      if Ascii.eqb c "/"%char then b
      else if String.eqb a "" then b
      else if ends_with_slash a then a +:+ b
      else a +:+ "/" +:+ b
  | EmptyString =>
      if String.eqb a "" then b
      else if ends_with_slash a then a
      else a +:+ "/"
  end.

(** f"{x}.jpg" *)
Definition jpg_name (x : Z) : string :=
  NilZero.string_of_int (Z.to_int x) +:+ ".jpg".

Definition img_path (dir : string) (x : Z) : string :=
  path_join dir (jpg_name x).

Definition isfile (fs : list string) (p : string) : bool :=
  bool_decide (p ∈ fs).

Definition get_files : M (list string) := fun w => (Ok (files w), w).

(** load_prod_img: the image stands for itself through its path; a missing
    file makes cv2.imread return None and cv2.cvtColor raise.  The path is
    the joined one: os.path.abspath needs the working directory, which is
    not part of the world, so the value of pri_path is not represented. *)
Definition load_prod_img (self : Dataset) (x : Z) : M string :=
  fs ← get_files;
  let p := img_path (img_dir self) x in
  if isfile fs p then mret p else raise Cv2Error.

(** ** Construction *)

Definition is_row_count (v : Variant) : bool :=
  match v with
  | SemanticMatchingDataset _ | SemanticMatchingEvalDataset => true
  | _ => false
  end.

(** __len__: len(self.meta) for the matching datasets,
    len(self.unique_plan_ids) for the discrimination ones. *)
Definition len (self : Dataset) : M nat :=
  if is_row_count (variant self)
  then m ← load (meta self); mret (length m)
  else mret (length (unique_plan_ids self)).

Definition verify_meta_data (self : Dataset) : M (bool * Dataset) :=
  m ← load (meta self);
  fs ← get_files;
  let cannot_found_samples :=
    List.filter (fun r => negb (isfile fs (img_path (img_dir self) (prod_id r)))) m in
  if 0 <? length cannot_found_samples then
    origin ← len self;
    let row_indices := label <$> cannot_found_samples in
    kept ← drop_labels row_indices m;
    l ← alloc (reset_index kept);
    let self' := with_meta l self in
    dropped ← len self';
    _ ← warn (mkWarning origin dropped);
    mret (false, self')
  else mret (true, self).

(** Series.unique(): the values in order of first appearance. *)
Definition unique (l : list Z) : list Z :=
  foldl (fun acc x => if existsb (Z.eqb x) acc then acc else acc ++ [x]) [] l.

(** dict(tuple(meta.groupby("plan_id"))): one new frame per key, the rows
    keep their labels and their order; keys come in ascending order. *)
Fixpoint alloc_groups (m : DataFrame) (keys : list Z) : M (gmap Z loc) :=
  match keys with
  | [] => mret ∅
  | k :: ks =>
      l ← alloc (List.filter (fun r => Z.eqb (plan_id r) k) m);
      g ← alloc_groups m ks;
      mret (<[k := l]> g)
  end.

Definition groupby_plan_id (m : DataFrame) : M (gmap Z loc) :=
  alloc_groups m (merge_sort Z.le (unique (plan_id <$> m))).

Definition recognised (method : string) : bool :=
  String.eqb method "weighted" || String.eqb method "random"
  || String.eqb method "sequential".

(** _PlanBaseDataset.__init__ as the subclasses call it, on a table that
    has every column the constructor selects (id, prod_id, plan_id, the
    target, the plan and product attributes), as every frame of this model
    has: the assertions on column names and the KeyError of the projection
    on a table that lacks one are out of the model's reach.  The projection
    on the necessary columns leaves out a "weight" column of the input. *)
Definition init (v : Variant) (meta0 : DataFrame) (dir : string)
    (method : string) : M Dataset :=
  if negb (recognised method) then raise AssertionError
  else
    lm ← alloc (set_weight None <$> meta0);
    m ← load lm;
    groups ← groupby_plan_id m;
    let self := mkDataset v lm groups (unique (plan_id <$> m)) dir method in
    '(_, self') ← verify_meta_data self;
    mret self'.

(** ** Item access *)

(** desc of the evaluation datasets. *)
Record Desc := mkDesc {
  desc_id : list Z;
  desc_plan_id : Z;
  desc_prod_id : list Z;
  desc_prod_score : list Q;
  desc_pri_path : list string;
  desc_plan_attrs : list (string * string)
}.

(** An item: the raw text handed to the text preprocessor (and whether it
    came from the product attributes), the images handed to the image
    transforms, and what the variant adds. *)
Record Item := mkItem {
  txt_raw : list (string * string);
  txt_from_prod : bool;
  pri : list string;
  item_scores : option (list Q);
  item_desc : option Desc
}.

(** for _, prod in prods.iterrows(): load_prod_img(prod["prod_id"]) *)
Fixpoint load_all (self : Dataset) (prods : DataFrame) : M (list string) :=
  match prods with
  | [] => mret []
  | r :: rs =>
      p ← load_prod_img self (prod_id r);
      ps ← load_all self rs;
      mret (p :: ps)
  end.

(** torch.stack refuses an empty list. *)
Definition stack (l : list string) : M (list string) :=
  match l with
  | [] => raise RuntimeError
  | _ => mret l
  end.

(** plan.head(1)[self.plan_attrs].squeeze().to_dict(), for two plan
    attributes or more.  (With exactly one, squeeze() yields a scalar, which
    has no to_dict: every item access of a discrimination dataset then raises
    AttributeError.  The model does not know how many of the text columns
    are plan attributes.) *)
Definition head_attrs (plan : DataFrame) : list (string * string) :=
  match plan with
  | [] => []
  | r :: _ => attrs r
  end.

(** The sampled product as a Series; None is not subscriptable. *)
Definition as_series (v : pyval) : M Row :=
  match v with
  | PSeries r => mret r
  | _ => raise TypeError
  end.

(** The sampled products as a frame; None and a Series have no iterrows. *)
Definition as_frame (v : pyval) : M DataFrame :=
  match v with
  | PFrame df => mret df
  | _ => raise AttributeError
  end.

Definition getitem (self : Dataset) (pid : Z) : M Item :=
  if negb (existsb (Z.eqb pid) (unique_plan_ids self)) then raise AssertionError
  else
    match meta_access_by_plan_id self !! pid with
    | None => raise KeyError
    | Some group =>
        match variant self with
        | SemanticMatchingDataset p =>
            (* the group itself is handed to sample_prods *)
            v ← sample_prods self group 1;
            prod ← as_series v;
            aug ← binomial1 p;
            img ← load_prod_img self (prod_id prod);
            mret (mkItem (attrs prod) aug [img] None None)
        | SemanticMatchingEvalDataset =>
            v ← sample_prods self group 1;
            prod ← as_series v;
            img ← load_prod_img self (prod_id prod);
            mret (mkItem (attrs prod) false [img] None
                    (Some (mkDesc [id prod] pid [prod_id prod] [score prod]
                             [img] (attrs prod))))
        | PreferenceDiscrimDataset k =>
            (* reset_index(drop=True) makes a new frame *)
            g ← load group;
            plan ← alloc (reset_index g);
            df ← load plan;
            v ← sample_prods self plan k;
            prods ← as_frame v;
            imgs ← load_all self prods;
            imgs ← stack imgs;
            mret (mkItem (head_attrs df) false imgs None None)
        | PDAblation2Dataset k =>
            g ← load group;
            plan ← alloc (reset_index g);
            df ← load plan;
            v ← sample_prods self plan k;
            prods ← as_frame v;
            imgs ← load_all self prods;
            imgs ← stack imgs;
            mret (mkItem (head_attrs df) false imgs (Some (score <$> prods)) None)
        | PreferenceDiscrimEvalDataset k =>
            g ← load group;
            plan ← alloc (reset_index g);
            df ← load plan;
            v ← sample_prods self plan k;
            prods ← as_frame v;
            imgs ← load_all self prods;
            imgs ← stack imgs;
            mret (mkItem (head_attrs df) false imgs None
                    (Some (mkDesc (id <$> prods) pid (prod_id <$> prods)
                             (score <$> prods) imgs (head_attrs df))))
        end
    end.

(** ** Running the model on small inputs *)

Definition row (l i pl pr : Z) (s : Q) : Row := mkRow l i pl pr s [] None.

Definition world0 (g : list N) (fs : list string) : World := mkWorld [] g fs [].

(** A dataset object whose only use is to carry the strategy. *)
Definition sampler (method : string) : Dataset :=
  mkDataset SemanticMatchingEvalDataset 0 ∅ [] "img" method.

(** [sample_prods] on a frame held at reference 0, with generator [g]. *)
Definition sample_on (method : string) (df : DataFrame) (n : Z) (g : list N)
  : Res pyval * World :=
  sample_prods (sampler method) 0 n (mkWorld [df] g [] []).

(** A plan of eight products with scores 1 to 8, and a plan of one. *)
Definition plan8 : DataFrame :=
  [row 0 100 1 10 1; row 1 101 1 11 2; row 2 102 1 12 3; row 3 103 1 13 4;
   row 4 104 1 14 5; row 5 105 1 15 6; row 6 106 1 16 7; row 7 107 1 17 8].

Definition plan1 : DataFrame := [row 0 100 1 10 1].

Definition plan3 : DataFrame := take 3 plan8.

(** The order of keyed entries, by key. *)
Definition key_le {A} : relation (Q * A) := fun a b => (fst a <= fst b)%Q.

(** A column of numbers in descending order. *)
Definition descending (l : list Q) : Prop :=
  StronglySorted (fun a b => (b <= a)%Q) l.

(** Two worlds that differ at most in how far the generator has run. *)
Definition only_rng (w w' : World) : Prop :=
  heap w' = heap w /\ files w' = files w /\ warned w' = warned w.

(** Two worlds that differ at most in the object at [plan] and in how far
    the generator has run. *)
Definition frame (plan : loc) (w w' : World) : Prop :=
  files w' = files w /\ warned w' = warned w
  /\ length (heap w') = length (heap w)
  /\ forall l, l <> plan -> heap w' !! l = heap w !! l.

(** Every object of [w] is still there, unchanged, in [w']. *)
Definition keeps_objects (w w' : World) : Prop :=
  forall l, l < length (heap w) -> heap w' !! l = heap w !! l.

(** A computation that relates the world it leaves to the world it found,
    whether it returns or raises. *)
Definition leaves {A} (P : relation World) (m : M A) : Prop :=
  forall w, P w (snd (m w)).

(** The datasets that sample fixed-size groups. *)
Definition is_discrim (v : Variant) : bool := negb (is_row_count v).

(** [xs] is drawn from [l] without replacement: distinct positions of [l]. *)
Definition drawn_from {A} (xs l : list A) : Prop :=
  exists rest, xs ++ rest ≡ₚ l.

(** The values np.random.uniform(size=k) reads off the stream [g]. *)
Definition noise_of (k : nat) (g : list N) : list Q :=
  (fun i => unit_interval (nth i g 0%N)) <$> seq 0 k.

(** The frame that [write_weight] leaves in the heap when the group is [df]
    and the generator stands at [g]. *)
Definition written (df : DataFrame) (g : list N) : DataFrame :=
  assign_weight (jitter df (noise_of (length df) g)) df.

(** ** The sampling policy in the words of its description *)

(** Noise in [0, 1e-8). *)
Definition in_noise_range (u : Q) : Prop := (0 <= u)%Q /\ (u < epsilon)%Q.

(** The noise of the rows of a group of [k] rows when the generator stands
    at [g]: for each row a fresh output of the uniform generator, times
    1e-8. *)
Definition noise_at (k : nat) (g : list N) : list Q :=
  (fun u => b64 (u * b64 epsilon)) <$> noise_of k g.

(** The group with the column weight = score + noise (the binary64 sum). *)
Definition noisy (df : DataFrame) (noise : list Q) : DataFrame :=
  assign_weight (zip_with (fun r u => b64 (score r + u)) df noise) df.

(** A binary64 number: rounding leaves it as it is. *)
Definition binary64 (x : Q) : Prop := (b64 x == x)%Q.

(** The numbers binary64 is made of: the multiples of 2^-1074. *)
Definition on_grid (x : Q) : Prop :=
  exists k : Z, (x == inject_Z k * pow2 (-1074))%Q.

(** A score of moderate size: a binary64 number that is zero, or positive
    and between 2^-300 and 2^300.  Over a group of such scores (a frame has
    fewer than 2^63 rows) the binary64 sum of the weights, and of the
    differences of weights, is finite, and every positive weight or
    difference is a positive share of it: the draws of pandas and numpy are
    then the ones of [sample]. *)
Definition moderate (x : Q) : Prop :=
  binary64 x
  /\ ((x == 0)%Q \/ ((pow2 (-300) <= x)%Q /\ (x <= pow2 300)%Q)).

(** The entry of a non-empty list that a fresh output of the generator
    selects: every position comes up for as many outputs as any other. *)
Definition picked {A} (g : list N) (l : list A) : option A :=
  l !! N.to_nat (hd 0%N g mod N.of_nat (length l)).

Definition weight_le (a b : Row) : Prop :=
  exists x y, weight a = Some x /\ weight b = Some y /\ (x <= y)%Q.

Definition weight_lt (a b : Row) : Prop :=
  exists x y, weight a = Some x /\ weight b = Some y /\ (x < y)%Q.

(** [r] is one of the rows of [drawn] tied for the maximum weight. *)
Definition at_max_of (r : Row) (drawn : DataFrame) : Prop :=
  r ∈ drawn /\ forall r', r' ∈ drawn -> weight_le r' r.

(** Two rows carry the same weight. *)
Definition same_weight (a b : Row) : bool :=
  match weight a, weight b with
  | Some x, Some y => Qeq_bool x y
  | _, _ => false
  end.

(** No two rows of the frame carry the same weight. *)
Fixpoint distinct_rows (df : DataFrame) : bool :=
  match df with
  | [] => true
  | r :: l => forallb (fun r' => negb (same_weight r r')) l && distinct_rows l
  end.

(** The row weighs less than [m]; the row weighs [m]. *)
Definition weighs_below (m : Q) (r : Row) : bool :=
  match weight r with
  | Some x => Qltb 0 (m - x)
  | None => false
  end.

Definition weighs (m : Q) (r : Row) : bool :=
  match weight r with
  | Some x => Qeq_bool x m
  | None => false
  end.

(** All rows of the frame carry the same weight. *)
Definition all_tied (df : DataFrame) : bool :=
  match df with
  | [] => true
  | r :: l => forallb (same_weight r) l
  end.

(** The first steps of the weighted branch for n > 1: the weights are
    written, five rows are drawn, one of those at the maximum is kept.  The
    result is the weighted group and the one-row frame of the positive. *)
Definition draw_positive (plan : loc) : M (DataFrame * DataFrame) :=
  wdf ← write_weight plan;
  pos_prod ← draw_at_max 5 wdf;
  pos_prod ← sample 1 None pos_prod;
  mret (wdf, pos_prod).

(** A plan of six products that all score 1. *)
Definition plan6_flat : DataFrame :=
  [row 0 100 1 10 1; row 1 101 1 11 1; row 2 102 1 12 1; row 3 103 1 13 1;
   row 4 104 1 14 1; row 5 105 1 15 1].

(** A state of the generator: eight outputs that make the noise of eight
    rows (0.5, 0.125, 0.875, ... times 1e-8), then the outputs the draws
    read. *)
Definition stream8 : list N :=
  [4503599627370496; 1125899906842624; 7881299347898368; 2251799813685248;
   6755399441055744; 3377699720527872; 5629499534213120; 8444249301319680;
   5; 3; 5; 8; 9; 7; 9; 3; 2; 3; 8; 4]%N.

(** A plan of six products that all score 10^9. *)
Definition plan6_heavy : DataFrame :=
  [row 0 100 1 10 1000000000; row 1 101 1 11 1000000000;
   row 2 102 1 12 1000000000; row 3 103 1 13 1000000000;
   row 4 104 1 14 1000000000; row 5 105 1 15 1000000000].

(** The files img/10.jpg ... img/17.jpg: an image for every product of the
    plan of eight. *)
Definition images8 : list string :=
  (fun r => img_path "img" (prod_id r)) <$> plan8.

(** A table of two products of one plan; the image of the better one,
    product 11, is not on disk. *)
Definition meta2 : DataFrame := take 2 plan8.

Definition files2 : list string := ["img/10.jpg"].

(** The result of a computation, and the world it leaves. *)
Definition result {A} (x : Res A * World) : Res A := fst x.
Definition world_after {A} (x : Res A * World) : World := snd x.

(** The object a successful construction returns. *)
Definition built (x : Res Dataset * World) : option Dataset :=
  match fst x with
  | Ok self => Some self
  | Raise _ => None
  end.

(** The frame the per-plan index holds for plan [pid], read in world [w]. *)
Definition indexed_group (self : Dataset) (pid : Z) (w : World)
  : option DataFrame :=
  l ← meta_access_by_plan_id self !! pid; heap w !! l.

(** Construction of a matching dataset over the table of two products. *)
Definition matching2 : Res Dataset * World :=
  init (SemanticMatchingDataset (3 # 10)) meta2 "img" "sequential"
       (world0 [] files2).

(** Construction of a discrimination dataset over three products of one
    plan, the image of product 11 missing. *)
Definition files3 : list string := ["img/10.jpg"; "img/12.jpg"].

Definition discrim3 : Res Dataset * World :=
  init (PreferenceDiscrimDataset 2) plan3 "img" "sequential" (world0 [] files3).

(** Construction of a weighted matching dataset over the plan of eight, all
    images on disk. *)
Definition matching8 : Res Dataset * World :=
  init (SemanticMatchingDataset (3 # 10)) plan8 "img" "weighted"
       (world0 [3; 1; 4; 1; 5; 9; 2; 6; 5; 3; 5; 8; 9; 7; 9]%N images8).

(** The rows a call hands back: none for None, one for a Series. *)
Definition rows_of (v : pyval) : DataFrame :=
  match v with
  | PNone => []
  | PSeries r => [r]
  | PFrame df => df
  end.

(** [r] is the row [r0] of the group, up to its index label and to the
    weight column, which [r] either lacks or has as [r0] has it. *)
Definition row_of_group (df : DataFrame) (r : Row) : Prop :=
  exists r0, r0 ∈ df
             /\ cells (set_weight None r) = cells (set_weight None r0)
             /\ (weight r = None \/ weight r = weight r0).

(** What kind of value a count yields: a Series for n = 1, a frame for
    n = -1 and n > 1, None otherwise. *)
Definition shape_as_asked (n : Z) (v : pyval) : Prop :=
  match v with
  | PSeries _ => n = 1%Z
  | PFrame _ => n = (-1)%Z \/ (1 < n)%Z
  | PNone => n <> (-1)%Z /\ (n < 1)%Z
  end.

(** os.path.isfile on the image of the row's product. *)
Definition has_image (fs : list string) (dir : string) (r : Row) : bool :=
  isfile fs (img_path dir (prod_id r)).

(** The rows of [m] whose image is missing, and the rows the verification
    pass keeps: those whose label is the label of no row without image. *)
Definition cannot_found (fs : list string) (dir : string) (m : DataFrame)
  : DataFrame :=
  List.filter (fun r => negb (has_image fs dir r)) m.

Definition kept_rows (fs : list string) (dir : string) (m : DataFrame)
  : DataFrame :=
  List.filter
    (fun r => negb (existsb (Z.eqb (label r)) (label <$> cannot_found fs dir m))) m.

(** How many rows a call that returns hands back: the whole group for
    n = -1, none for the counts no branch takes, otherwise as many as asked,
    which the group must have; the sequential strategy alone hands back a
    smaller group whole. *)
Definition size_as_asked (method : string) (df : DataFrame) (n : Z)
    (rows : DataFrame) : Prop :=
  if (n =? -1)%Z then length rows = length df
  else if (n <? 1)%Z then rows = []
  else (length rows = Z.to_nat n /\ (n <= Z.of_nat (length df))%Z)
       \/ (method = "sequential" /\ (Z.of_nat (length df) < n)%Z
           /\ length rows = length df).

(** A matching dataset and a discrimination dataset over the plan of eight,
    as construction leaves them: the table at reference 0, the group of
    plan 1 at reference 1, an image on disk for every product. *)
Definition catalogue8 (v : Variant) (method : string) : Dataset :=
  mkDataset v 0 {[1%Z := 1]} [1%Z] "img" method.

Definition shelf8 (g : list N) : World := mkWorld [plan8; plan8] g images8 [].


(** The image of a row's product under the dataset's directory. *)
Definition img_of (self : Dataset) (r : Row) : string :=
  img_path (img_dir self) (prod_id r).

(** The evaluation datasets, whose items carry a desc. *)
Definition is_eval (v : Variant) : bool :=
  match v with
  | SemanticMatchingEvalDataset => true
  | PreferenceDiscrimEvalDataset _ => true
  | _ => false
  end.

(** The first seven products of the plan of eight. *)
Definition plan7 : DataFrame := take 7 plan8.

(** np.random.binomial demands a probability: the text-augmentation
    probability of the matching dataset lies in [0, 1]. *)
Definition probability (v : Variant) : Prop :=
  match v with
  | SemanticMatchingDataset p => (0 <= p)%Q /\ (p <= 1)%Q
  | _ => True
  end.

(** The plan of eight with a text column, and the world that holds it as
    table and as group of plan 1. *)
Definition plan8_named : DataFrame :=
  (fun r => mkRow (label r) (id r) (plan_id r) (prod_id r) (score r)
              [("plan_name", "summer")] None) <$> plan8.

Definition shelf8_named (g : list N) : World :=
  mkWorld [plan8_named; plan8_named] g images8 [].

(** * Properties *)

(** ** Running computations *)

Lemma bind_run {A B} (m : M A) (k : A -> M B) (w : World) :
  (m ≫= k) w = match m w with
               | (Ok a, w') => k a w'
               | (Raise e, w') => (Raise e, w')
               end.
Proof. reflexivity. Qed.

Lemma ret_run {A} (a : A) (w : World) : (mret a : M A) w = (Ok a, w).
Proof. reflexivity. Qed.

Lemma load_run (l : loc) (df : DataFrame) (w : World) :
  heap w !! l = Some df -> load l w = (Ok df, w).
Proof. intros H. unfold load. now rewrite H. Qed.

Ltac run_load H := rewrite bind_run, (load_run _ _ _ H).

(** ** Sorting *)

Section sorting.
Context {A : Type}.
Implicit Types (x : Q * A) (l : list (Q * A)).

#[local] Instance key_le_trans : Transitive (@key_le A).
Proof. intros a b c; unfold key_le; apply Qle_trans. Qed.

Lemma insert_sorted_perm x l : insert_sorted x l ≡ₚ x :: l.
Proof.
  induction l as [|y l IH]; simpl; [done|].
  destruct (Qle_bool (fst x) (fst y)); [done|].
  rewrite IH. apply perm_swap.
Qed.

Lemma insert_sorted_sorted x l :
  StronglySorted (@key_le A) l -> StronglySorted (@key_le A) (insert_sorted x l).
Proof.
  induction l as [|y l IH]; simpl; intros Hl.
  - repeat constructor.
  - apply StronglySorted_cons in Hl as [Hy Hl].
    destruct (Qle_bool (fst x) (fst y)) eqn:E.
    + apply Qle_bool_iff in E. constructor.
      * by constructor.
      * constructor; [done|].
        eapply Forall_impl; [exact Hy|].
        intros z Hz. unfold key_le in *. by eapply Qle_trans.
    + constructor; [by apply IH|].
      rewrite insert_sorted_perm. constructor; [|done].
      unfold key_le. destruct (Qlt_le_dec (fst x) (fst y)) as [Hlt|Hle].
      * apply Qlt_le_weak in Hlt. apply Qle_bool_iff in Hlt. congruence.
      * done.
Qed.

Lemma argsort_perm l : argsort l ≡ₚ l.
Proof.
  induction l as [|x l IH]; simpl; [done|].
  unfold argsort in *. simpl. by rewrite insert_sorted_perm, IH.
Qed.

Lemma argsort_sorted l : StronglySorted (@key_le A) (argsort l).
Proof.
  induction l as [|x l IH]; simpl; [constructor|].
  by apply insert_sorted_sorted.
Qed.

Lemma nargsort_desc_perm l : nargsort_desc l ≡ₚ l.
Proof.
  unfold nargsort_desc.
  by rewrite reverse_Permutation, argsort_perm, reverse_Permutation.
Qed.

Lemma nargsort_desc_sorted l :
  StronglySorted (flip (@key_le A)) (nargsort_desc l).
Proof.
  unfold nargsort_desc.
  apply Sorted_StronglySorted.
  { intros a b c; unfold flip, key_le; intros; by eapply Qle_trans. }
  apply Sorted_reverse, StronglySorted_Sorted, argsort_sorted.
Qed.
End sorting.

Lemma score_set_label l r : score (set_label l r) = score r.
Proof. reflexivity. Qed.

Lemma cells_set_label l r : cells (set_label l r) = cells r.
Proof. reflexivity. Qed.

Lemma fmap_reset_index {B} (f : Row -> B) (df : DataFrame) :
  (forall l r, f (set_label l r) = f r) ->
  f <$> reset_index df = f <$> df.
Proof.
  intros Hf. unfold reset_index. rewrite fmap_imap.
  rewrite <- imap_const. apply imap_ext. intros i x _. simpl. apply Hf.
Qed.

Lemma length_reset_index (df : DataFrame) : length (reset_index df) = length df.
Proof. apply length_imap. Qed.

Lemma label_reset_index (df : DataFrame) :
  label <$> reset_index df = Z.of_nat <$> seq 0 (length df).
Proof.
  unfold reset_index. rewrite fmap_imap.
  rewrite (imap_ext _ (fun i _ => Z.of_nat i)) by done.
  by rewrite imap_seq_0.
Qed.

Lemma sort_values_target_cells (df : DataFrame) :
  cells <$> sort_values_target df ≡ₚ cells <$> df.
Proof.
  unfold sort_values_target.
  rewrite fmap_reset_index by apply cells_set_label.
  rewrite nargsort_desc_perm, <- !list_fmap_compose.
  reflexivity.
Qed.

Lemma sort_values_target_length (df : DataFrame) :
  length (sort_values_target df) = length df.
Proof.
  unfold sort_values_target.
  rewrite length_reset_index, length_fmap.
  rewrite (Permutation_length (nargsort_desc_perm _)).
  by rewrite length_fmap.
Qed.

Lemma scores_of_keyed (l : list (Q * Row)) :
  Forall (fun p => fst p = score (snd p)) l ->
  score <$> (snd <$> l) = fst <$> l.
Proof.
  induction 1 as [|p l Hp _ IH]; csimpl; [done|]. by rewrite IH, Hp.
Qed.

Lemma sort_values_target_descending (df : DataFrame) :
  descending (score <$> sort_values_target df).
Proof.
  unfold sort_values_target, descending.
  rewrite fmap_reset_index by apply score_set_label.
  rewrite scores_of_keyed.
  - eapply StronglySorted_fmap; [|apply nargsort_desc_sorted].
    intros x y H. exact H.
  - rewrite nargsort_desc_perm. apply Forall_fmap, Forall_true. done.
Qed.

(** ** The whole group: n = -1 *)

(** C5. With n = -1, whatever the strategy, [sample_prods] returns the rows
    of the group (their cells; the index is renumbered), sorted by the target
    column in descending order, as many as the group has, and it leaves the
    world as it found it. *)
Theorem sample_prods_whole_group (self : Dataset) (plan : loc)
    (df : DataFrame) (w : World) :
  heap w !! plan = Some df ->
  exists prods,
    sample_prods self plan (-1) w = (Ok (PFrame prods), w)
    /\ cells <$> prods ≡ₚ cells <$> df
    /\ descending (score <$> prods)
    /\ length prods = length df.
Proof.
  intros H. exists (sort_values_target df). split; [|split; [|split]].
  - unfold sample_prods. simpl. by run_load H.
  - apply sort_values_target_cells.
  - apply sort_values_target_descending.
  - apply sort_values_target_length.
Qed.

(** Witness of C5: the plan of eight, weighted strategy. *)
Lemma sample_prods_whole_group_witness :
  exists prods,
    sample_on "weighted" plan8 (-1) [] = (Ok (PFrame prods), mkWorld [plan8] [] [] [])
    /\ cells <$> prods ≡ₚ cells <$> plan8
    /\ descending (score <$> prods)
    /\ length prods = length plan8.
Proof.
  apply (sample_prods_whole_group (sampler "weighted") 0 plan8
           (mkWorld [plan8] [] [] [])).
  reflexivity.
Defined.

(** ** No branch taken: n = 0 and n <= -2 *)

(** C10. For a count that is neither -1 nor 1 nor greater than 1,
    [sample_prods] returns None, raises nothing, and touches nothing. *)
Theorem sample_prods_falls_through (self : Dataset) (plan : loc) (n : Z)
    (w : World) :
  n <> (-1)%Z -> n <> 1%Z -> ~ (n > 1)%Z ->
  sample_prods self plan n w = (Ok PNone, w).
Proof.
  intros H1 H2 H3. unfold sample_prods.
  destruct (Z.eqb_spec n (-1)); [done|].
  destruct (Z.eqb_spec n 1); [done|].
  destruct (Z.gtb_spec n 1); [lia|]. reflexivity.
Qed.

(** Witness of C10: n = 0. *)
Lemma sample_prods_falls_through_witness :
  sample_on "weighted" plan8 0 [] = (Ok PNone, mkWorld [plan8] [] [] []).
Proof.
  apply (sample_prods_falls_through (sampler "weighted") 0 0
           (mkWorld [plan8] [] [] [])); lia.
Defined.

(** ** Random draws *)

Lemma only_rng_refl w : only_rng w w.
Proof. by repeat split. Qed.

Lemma only_rng_trans w1 w2 w3 : only_rng w1 w2 -> only_rng w2 w3 -> only_rng w1 w3.
Proof. unfold only_rng. intros (?&?&?) (?&?&?). repeat split; congruence. Qed.

Lemma only_rng_with_rng g w : only_rng w (with_rng g w).
Proof. by repeat split. Qed.

#[local] Hint Resolve only_rng_refl only_rng_with_rng : core.

Lemma unit_interval_range (r : N) : (0 <= unit_interval r)%Q /\ (unit_interval r < 1)%Q.
Proof.
  unfold unit_interval, Qle, Qlt. cbn [Qnum Qden].
  pose proof (N.mod_upper_bound r (2 ^ 53) ltac:(done)) as H.
  apply N2Z.inj_lt in H.
  change (Z.of_N (2 ^ 53)) with (Z.pos (2 ^ 53)) in H.
  generalize dependent (Z.pos (2 ^ 53)). intros d.
  generalize (r mod 2 ^ 53)%N. intros m. lia.
Qed.

Lemma noise_of_S (k : nat) (g : list N) :
  noise_of (S k) g = unit_interval (hd 0%N g) :: noise_of k (tl g).
Proof.
  unfold noise_of. cbn [seq fmap list_fmap]. f_equal.
  - by destruct g.
  - rewrite <- fmap_S_seq, <- list_fmap_compose.
    apply list_fmap_ext. intros i x _. simpl. by destruct g, x.
Qed.

Lemma drop_S_tl {A} (k : nat) (g : list A) : drop (S k) g = drop k (tl g).
Proof. destruct g; simpl; [by rewrite drop_nil|done]. Qed.

Lemma uniform_run (k : nat) (w : World) :
  uniform k w = (Ok (noise_of k (rng w)), with_rng (drop k (rng w)) w).
Proof.
  revert w. induction k as [|k IH]; intros w.
  - destruct w; reflexivity.
  - cbn [uniform]. rewrite bind_run. unfold next_rand at 1. cbv beta iota.
    rewrite bind_run, IH. unfold mret, M_ret.
    by rewrite noise_of_S, drop_S_tl.
Qed.

Lemma length_noise_of k g : length (noise_of k g) = k.
Proof. unfold noise_of. by rewrite length_fmap, length_seq. Qed.

Lemma noise_of_range k g :
  Forall (fun u => (0 <= u)%Q /\ (u < 1)%Q) (noise_of k g).
Proof.
  unfold noise_of. apply Forall_fmap, Forall_true. intros i.
  apply unit_interval_range.
Qed.

(** [choice] hands back [k] candidates taken at distinct positions. *)
Lemma choice_run {A} (k : nat) (cands : list A) (w : World) :
  k <= length cands ->
  exists xs w',
    choice k cands w = (Ok xs, w') /\ only_rng w w'
    /\ length xs = k /\ drawn_from xs cands.
Proof.
  revert cands w. induction k as [|k IH]; intros cands w Hk.
  - exists [], w. repeat split; auto. by exists cands.
  - simpl. rewrite bind_run. unfold next_rand at 1.
    set (w1 := with_rng _ w).
    set (i := N.to_nat _).
    assert (Hi : i < length cands).
    { subst i. destruct cands as [|c cands]; [simpl in Hk; lia|].
      pose proof (N.mod_upper_bound (hd 0%N (rng w))
                    (N.of_nat (length (c :: cands)))) as Hm.
      simpl length in *. lia. }
    destruct (lookup_lt_is_Some_2 cands i Hi) as [x Hx].
    rewrite Hx.
    destruct (IH (delete i cands) w1) as (xs & w' & Hrun & Hw & Hlen & rest & Hrest).
    { rewrite length_delete by eauto. lia. }
    exists (x :: xs), w'. rewrite bind_run, Hrun.
    repeat split; try apply Hw; simpl; [by rewrite Hlen|].
    exists rest. simpl. rewrite Hrest. symmetry. by apply delete_Permutation.
Qed.

(** An unweighted draw of one row from a non-empty frame. *)
Lemma sample_one_run (df : DataFrame) (w : World) :
  df <> [] ->
  exists r w', sample 1 None df w = (Ok [r], w') /\ only_rng w w' /\ r ∈ df.
Proof.
  intros Hne. unfold sample. simpl.
  destruct (Z.ltb_spec (Z.of_nat (length df)) 1) as [Hlt|_].
  { destruct df; [done|simpl in Hlt; lia]. }
  destruct (choice_run 1 df w) as (xs & w' & Hrun & Hw & Hlen & rest & Hrest).
  { destruct df; [done|simpl; lia]. }
  destruct xs as [|r [|??]]; try done.
  exists r, w'. simpl. repeat split; try apply Hw; [done|].
  rewrite <- Hrest. set_solver.
Qed.

(** ** The rows at the maximum of a column *)

Lemma foldr_Qmax_ub (x : Q) (l : list Q) :
  (x <= foldr Qmax x l)%Q /\ Forall (fun y => (y <= foldr Qmax x l)%Q) l.
Proof.
  induction l as [|y l [IH1 IH2]]; simpl.
  - split; [apply Qle_refl|constructor].
  - split; [|constructor].
    + eapply Qle_trans; [exact IH1|apply Q.le_max_r].
    + apply Q.le_max_l.
    + eapply Forall_impl; [exact IH2|]. intros z Hz.
      eapply Qle_trans; [exact Hz|apply Q.le_max_r].
Qed.

Lemma foldr_Qmax_attained (x : Q) (l : list Q) :
  Exists (fun y => (y == foldr Qmax x l)%Q) (x :: l).
Proof.
  induction l as [|y l IH]; simpl.
  - left. reflexivity.
  - destruct (Q.max_spec y (foldr Qmax x l)) as [[_ E]|[_ E]].
    + inversion IH as [? ? H|? ? H]; subst.
      * left. by rewrite E.
      * right. right. eapply Exists_impl; [exact H|].
        intros z Hz. simpl in Hz. by rewrite E.
    + right. left. by rewrite E.
Qed.

Lemma col_max_ub (l : list Q) (m : Q) :
  col_max l = Some m -> Forall (fun y => (y <= m)%Q) l.
Proof.
  destruct l as [|x l]; [done|]. intros [= <-].
  destruct (foldr_Qmax_ub x l). by constructor.
Qed.

Lemma col_max_attained (l : list Q) (m : Q) :
  col_max l = Some m -> Exists (fun y => (y == m)%Q) l.
Proof.
  destruct l as [|x l]; [done|]. intros [= <-]. apply foldr_Qmax_attained.
Qed.

Lemma col_max_is_Some (l : list Q) : l <> [] -> is_Some (col_max l).
Proof. destruct l; [done|]. intros _. by eexists. Qed.

Lemma elem_of_zip_lookup {A B} (l : list A) (k : list B) (x : A) (y : B) :
  (x, y) ∈ zip l k <-> exists i, l !! i = Some x /\ k !! i = Some y.
Proof.
  rewrite elem_of_lookup_zip_with. split.
  - intros (i & x' & y' & [= -> ->] & ? & ?). eauto.
  - intros (i & ? & ?). exists i, x, y. eauto.
Qed.

Lemma elem_of_rows_at_max (vals : list Q) (df : DataFrame) (r : Row) :
  r ∈ rows_at_max vals df <->
  exists m v i, col_max vals = Some m /\ vals !! i = Some v
                /\ df !! i = Some r /\ (v == m)%Q.
Proof.
  unfold rows_at_max. destruct (col_max vals) as [m|]; split.
  - intros H. apply list_elem_of_fmap in H as ([v r'] & -> & H).
    apply list_elem_of_In, filter_In in H as [H E].
    apply list_elem_of_In, elem_of_zip_lookup in H as (i & ? & ?).
    apply Qeq_bool_iff in E. exists m, v, i. eauto.
  - intros (m' & v & i & [= <-] & Hv & Hr & E).
    apply list_elem_of_fmap. exists (v, r). split; [done|].
    apply list_elem_of_In, filter_In. split.
    + apply list_elem_of_In, elem_of_zip_lookup. eauto.
    + by apply Qeq_bool_iff.
  - intros H. by apply not_elem_of_nil in H.
  - intros (m' & v & i & ? & _). done.
Qed.

Lemma rows_at_max_nonempty (vals : list Q) (df : DataFrame) :
  length vals = length df -> df <> [] -> rows_at_max vals df <> [].
Proof.
  intros Hlen Hne.
  destruct (col_max_is_Some vals) as [m Hm].
  { destruct vals, df; simpl in *; congruence. }
  apply col_max_attained in Hm as Hex.
  apply Exists_exists in Hex as (v & Hv & E).
  apply list_elem_of_lookup in Hv as [i Hi].
  destruct (lookup_lt_is_Some_2 df i) as [r Hr].
  { rewrite <- Hlen. eapply lookup_lt_Some, Hi. }
  assert (r ∈ rows_at_max vals df) as Hin.
  { apply elem_of_rows_at_max. exists m, v, i. eauto. }
  intros E'. rewrite E' in Hin. by apply not_elem_of_nil in Hin.
Qed.

#[global] Instance Q_eq_dec : EqDecision Q.
Proof. solve_decision. Defined.

#[global] Instance Row_eq_dec : EqDecision Row.
Proof. solve_decision. Defined.

(** ** The branches of [sample_prods] *)

Lemma sample_prods_random_one (self : Dataset) (plan : loc) :
  sampling_method self = "random" ->
  sample_prods self plan 1 =
    (df ← load plan; prod ← sample 1 None df; mret (squeeze prod)).
Proof. intros H. unfold sample_prods. rewrite H. reflexivity. Qed.

Lemma sample_prods_weighted_one (self : Dataset) (plan : loc) :
  sampling_method self = "weighted" ->
  sample_prods self plan 1 =
    (wdf ← write_weight plan;
     prod ← draw_at_max 7 wdf;
     prod ← drop_weight prod;
     prod ← sample 1 None prod;
     mret (squeeze prod)).
Proof. intros H. unfold sample_prods. rewrite H. reflexivity. Qed.

Lemma sample_prods_sequential_one (self : Dataset) (plan : loc) :
  sampling_method self = "sequential" ->
  sample_prods self plan 1 =
    (df ← load plan;
     prod ← sample 1 None (rows_at_max (score <$> df) df);
     mret (squeeze prod)).
Proof. intros H. unfold sample_prods. rewrite H. reflexivity. Qed.

Lemma sample_prods_many (self : Dataset) (plan : loc) (n : Z) :
  (n > 1)%Z ->
  sample_prods self plan n =
    (df ← load plan;
     if (Z.of_nat (length df) =? n)%Z then
       mret (PFrame (sort_values_target df))
     else if String.eqb (sampling_method self) "random" then
       prods ← sample n None df;
       mret (PFrame (sort_values_target prods))
     else if String.eqb (sampling_method self) "weighted" then
       wdf ← write_weight plan;
       pos_prod ← draw_at_max 5 wdf;
       pos_prod ← sample 1 None pos_prod;
       l ← index_item pos_prod;
       plan_except_pos ← drop_label l wdf;
       ews ← column_weight plan_except_pos;
       neg_prods ← sample (n - 1) (Some (negative_weights ews)) plan_except_pos;
       prods ← sort_values_weight (pos_prod ++ neg_prods);
       prods ← drop_weight prods;
       mret (PFrame prods)
     else if String.eqb (sampling_method self) "sequential" then
       mret (PFrame (take (Z.to_nat n) (sort_values_target df)))
     else raise NotImplementedError).
Proof.
  intros H. unfold sample_prods.
  destruct (Z.eqb_spec n (-1)); [lia|].
  destruct (Z.eqb_spec n 1); [lia|].
  destruct (Z.gtb_spec n 1); [|lia]. reflexivity.
Qed.

(** ** Sequential sampling of one product *)

(** C6. Sequential sampling with n = 1 on a non-empty group returns a row of
    the group whose target value is the maximum of the group; when a single
    row attains the maximum, every call returns that row, whatever the
    generator yields.  The heap, the files and the warnings are untouched. *)
Theorem sequential_one_is_maximum (self : Dataset) (plan : loc)
    (df : DataFrame) (w : World) :
  sampling_method self = "sequential" ->
  heap w !! plan = Some df ->
  df <> [] ->
  exists r w',
    sample_prods self plan 1 w = (Ok (PSeries r), w')
    /\ only_rng w w'
    /\ r ∈ df
    /\ (forall r', r' ∈ df -> (score r' <= score r)%Q)
    /\ (forall r0, r0 ∈ df ->
          (forall r', r' ∈ df -> r' <> r0 -> (score r' < score r0)%Q) ->
          r = r0).
Proof.
  intros Hm Hplan Hne.
  destruct (sample_one_run (rows_at_max (score <$> df) df) w)
    as (r & w' & Hrun & Hw & Hr).
  { apply rows_at_max_nonempty; [by rewrite length_fmap|done]. }
  exists r, w'.
  apply elem_of_rows_at_max in Hr as (m & v & i & Hmax & Hv & Hi & E).
  rewrite list_lookup_fmap, Hi in Hv. injection Hv as <-.
  assert (Hin : r ∈ df) by (eapply list_elem_of_lookup_2, Hi).
  assert (Hub : forall r', r' ∈ df -> (score r' <= score r)%Q).
  { intros r' Hr'. rewrite E.
    apply col_max_ub in Hmax. rewrite Forall_forall in Hmax.
    apply Hmax, list_elem_of_fmap. eauto. }
  split; [|split; [done|split; [done|split; [done|]]]].
  - rewrite sample_prods_sequential_one by done.
    run_load Hplan. by rewrite bind_run, Hrun.
  - intros r0 Hr0 Huniq. destruct (decide (r = r0)) as [|Hneq]; [done|].
    exfalso. specialize (Huniq r Hin Hneq). specialize (Hub r0 Hr0).
    apply (Qlt_irrefl (score r)). by eapply Qlt_le_trans.
Qed.

(** Witness of C6: the plan of eight has a single row of score 8. *)
Lemma sequential_one_is_maximum_witness :
  exists r w',
    sample_on "sequential" plan8 1 [5%N] = (Ok (PSeries r), w')
    /\ only_rng (mkWorld [plan8] [5%N] [] []) w'
    /\ r ∈ plan8
    /\ (forall r', r' ∈ plan8 -> (score r' <= score r)%Q)
    /\ (forall r0, r0 ∈ plan8 ->
          (forall r', r' ∈ plan8 -> r' <> r0 -> (score r' < score r0)%Q) ->
          r = r0).
Proof.
  apply (sequential_one_is_maximum (sampler "sequential") 0 plan8
           (mkWorld [plan8] [5%N] [] [])).
  - reflexivity.
  - reflexivity.
  - discriminate.
Defined.

(** ** A count equal to the size of the group *)

(** C3, as the code has it.  When n > 1 equals the size of the group,
    [sample_prods] draws nothing, whatever the strategy: it returns the whole
    group sorted by target in descending order and leaves the world alone.
    With n = 1 on a group of one row there is no such shortcut; the random
    and the sequential strategies still return that row, after a draw among
    one candidate. *)
Theorem sample_prods_group_sized (self : Dataset) (plan : loc)
    (df : DataFrame) (n : Z) (w : World) :
  heap w !! plan = Some df ->
  Z.of_nat (length df) = n ->
  ((n > 1)%Z ->
     exists prods,
       sample_prods self plan n w = (Ok (PFrame prods), w)
       /\ cells <$> prods ≡ₚ cells <$> df
       /\ descending (score <$> prods))
  /\ (n = 1%Z ->
      sampling_method self = "random" \/ sampling_method self = "sequential" ->
      exists r w',
        df = [r]
        /\ sample_prods self plan n w = (Ok (PSeries r), w')
        /\ only_rng w w').
Proof.
  intros Hplan Hlen. split.
  - intros Hn. exists (sort_values_target df). split; [|split].
    + rewrite sample_prods_many by done. run_load Hplan.
      apply Z.eqb_eq in Hlen. by rewrite Hlen.
    + apply sort_values_target_cells.
    + apply sort_values_target_descending.
  - intros -> Hm.
    destruct df as [|r [|??]]; simpl in Hlen; try lia.
    destruct Hm as [Hm|Hm].
    + destruct (sample_one_run [r] w) as (r' & w' & Hrun & Hw & Hr); [done|].
      apply list_elem_of_singleton in Hr as ->.
      exists r, w'. split; [done|split; [|done]].
      rewrite sample_prods_random_one by done.
      run_load Hplan. by rewrite bind_run, Hrun.
    + destruct (sample_one_run (rows_at_max (score <$> [r]) [r]) w)
        as (r' & w' & Hrun & Hw & Hr).
      { by apply rows_at_max_nonempty. }
      apply elem_of_rows_at_max in Hr as (m & v & i & _ & _ & Hi & _).
      apply list_elem_of_lookup_2, list_elem_of_singleton in Hi as ->.
      exists r, w'. split; [done|split; [|done]].
      rewrite sample_prods_sequential_one by done.
      run_load Hplan. by rewrite bind_run, Hrun.
Qed.

(** Witness of C3 as amended: the plan of eight with n = 8. *)
Lemma sample_prods_group_sized_witness :
  exists prods,
    sample_on "weighted" plan8 8 [] = (Ok (PFrame prods), mkWorld [plan8] [] [] [])
    /\ cells <$> prods ≡ₚ cells <$> plan8
    /\ descending (score <$> prods).
Proof.
  destruct (sample_prods_group_sized (sampler "weighted") 0 plan8 8
              (mkWorld [plan8] [] [] [])) as [H _].
  - reflexivity.
  - reflexivity.
  - apply H. lia.
Defined.

(** C3 as stated fails: with the weighted strategy, n = 1 on a group of one
    row raises ValueError (seven rows are asked of a population of one). *)
Lemma weighted_one_of_one_raises :
  fst (sample_on "weighted" plan1 1 []) = Raise ValueError.
Proof. vm_compute. reflexivity. Qed.

(** ** Weighted draws *)

Lemma drawn_from_refl {A} (l : list A) : drawn_from l l.
Proof. exists []. by rewrite app_nil_r. Qed.

Lemma drawn_from_trans {A} (xs ys zs : list A) :
  drawn_from xs ys -> drawn_from ys zs -> drawn_from xs zs.
Proof.
  intros [r1 H1] [r2 H2]. exists (r1 ++ r2). by rewrite app_assoc, H1.
Qed.

Lemma drawn_from_elem_of {A} (xs l : list A) (x : A) :
  drawn_from xs l -> x ∈ xs -> x ∈ l.
Proof. intros [rest H] Hx. rewrite <- H. set_solver. Qed.

Lemma drawn_from_length {A} (xs l : list A) :
  drawn_from xs l -> length xs <= length l.
Proof. intros [rest H]. rewrite <- H, length_app. lia. Qed.

Lemma drawn_from_fmap {A B} (f : A -> B) (xs l : list A) :
  drawn_from xs l -> drawn_from (f <$> xs) (f <$> l).
Proof. intros [rest H]. exists (f <$> rest). by rewrite <- fmap_app, H. Qed.

Lemma drawn_from_NoDup {A} (xs l : list A) :
  drawn_from xs l -> NoDup l -> NoDup xs.
Proof.
  intros [rest H] Hl. rewrite <- H in Hl. by apply NoDup_app in Hl as [? _].
Qed.

Lemma drawn_from_filter {A} (f : A -> bool) (l : list A) :
  drawn_from (List.filter f l) l.
Proof.
  exists (List.filter (fun x => negb (f x)) l).
  induction l as [|x l IH]; simpl; [done|].
  destruct (f x); simpl.
  - by rewrite IH.
  - rewrite <- Permutation_middle. by rewrite IH.
Qed.

Lemma filter_fmap {A B} (f : B -> bool) (g : A -> B) (l : list A) :
  List.filter f (g <$> l) = g <$> List.filter (fun x => f (g x)) l.
Proof.
  induction l as [|x l IH]; csimpl; [done|].
  destruct (f (g x)); csimpl; by rewrite IH.
Qed.

Lemma Qsum_nonneg (l : list Q) :
  Forall (fun x => (0 <= x)%Q) l -> (0 <= Qsum l)%Q.
Proof.
  induction 1 as [|x l Hx _ IH]; simpl; [apply Qle_refl|].
  change 0%Q with (0 + 0)%Q. by apply Qplus_le_compat.
Qed.

Lemma Qsum_pos (l : list Q) :
  Forall (fun x => (0 <= x)%Q) l -> Exists (fun x => (0 < x)%Q) l ->
  (0 < Qsum l)%Q.
Proof.
  induction 1 as [|x l Hx Hl IH]; intros Hex; inversion Hex; subst; simpl.
  - apply Qsum_nonneg in Hl. lra.
  - specialize (IH ltac:(done)). lra.
Qed.

Lemma Qltb_lt (x y : Q) : Qltb x y = true <-> (x < y)%Q.
Proof.
  unfold Qltb. rewrite negb_true_iff, <- not_true_iff_false, Qle_bool_iff.
  split; [apply Qnot_le_lt|apply Qlt_not_le].
Qed.

Lemma candidates_drawn_from (ws : list Q) (df : DataFrame) :
  length ws = length df -> drawn_from (candidates ws df) df.
Proof.
  intros Hlen. unfold candidates.
  rewrite <- (snd_zip ws df) at 2 by lia.
  apply drawn_from_fmap, drawn_from_filter.
Qed.

Lemma elem_of_candidates (ws : list Q) (df : DataFrame) (r : Row) :
  r ∈ candidates ws df <->
  exists i v, ws !! i = Some v /\ df !! i = Some r /\ (0 < v)%Q.
Proof.
  unfold candidates. rewrite list_elem_of_fmap. split.
  - intros ([v r'] & -> & H).
    apply list_elem_of_In, filter_In in H as [H E].
    apply list_elem_of_In, elem_of_zip_lookup in H as (i & ? & ?).
    apply Qltb_lt in E. eauto 6.
  - intros (i & v & ? & ? & ?). exists (v, r). split; [done|].
    apply list_elem_of_In, filter_In. split.
    + apply list_elem_of_In, elem_of_zip_lookup. eauto.
    + by apply Qltb_lt.
Qed.

(** A weighted draw succeeds when no weight is negative and enough rows
    have a positive one. *)
Lemma sample_weighted_run (n : Z) (ws : list Q) (df : DataFrame) (w : World) :
  length ws = length df ->
  Forall (fun x => (0 <= x)%Q) ws ->
  (0 < n)%Z ->
  Z.to_nat n <= length (candidates ws df) ->
  exists xs w',
    sample n (Some ws) df w = (Ok xs, w') /\ only_rng w w'
    /\ length xs = Z.to_nat n /\ drawn_from xs (candidates ws df).
Proof.
  intros Hlen Hnn Hn Hc. unfold sample.
  rewrite Hlen, Nat.eqb_refl. cbn [negb].
  assert (existsb (fun x => Qltb x 0) ws = false) as ->.
  { apply not_true_iff_false. intros H.
    apply existsb_exists in H as (x & Hx & E).
    apply Qltb_lt in E. rewrite Forall_forall in Hnn.
    apply list_elem_of_In, Hnn in Hx. lra. }
  assert (Qeq_bool (Qsum ws) 0 = false) as ->.
  { apply not_true_iff_false. intros H. apply Qeq_bool_iff in H.
    assert (0 < Qsum ws)%Q; [|lra].
    apply Qsum_pos; [done|].
    destruct (candidates ws df) as [|r c] eqn:E; [simpl in Hc; lia|].
    assert (r ∈ candidates ws df) as Hr by (rewrite E; left).
    apply elem_of_candidates in Hr as (i & v & Hv & _ & Hpos).
    apply Exists_exists. exists v. split; [|done].
    eapply list_elem_of_lookup_2, Hv. }
  destruct (Z.ltb_spec n 0); [lia|].
  pose proof (drawn_from_length _ _ (candidates_drawn_from ws df Hlen)).
  destruct (Z.ltb_spec (Z.of_nat (length df)) n); [lia|].
  destruct (Z.ltb_spec (Z.of_nat (length (candidates ws df))) n); [lia|].
  by apply choice_run.
Qed.

(** ** The weight column *)

Lemma length_assign_weight (ws : list Q) (df : DataFrame) :
  length ws = length df -> length (assign_weight ws df) = length df.
Proof. intros H. unfold assign_weight. rewrite length_zip_with. lia. Qed.

Lemma mapM_weight_assign (ws : list Q) (df : DataFrame) :
  length ws = length df -> mapM weight (assign_weight ws df) = Some ws.
Proof.
  intros H. apply mapM_Some. unfold assign_weight.
  revert ws H. induction df as [|r df IH]; intros [|v ws] H;
    simpl in *; try done; constructor; auto.
Qed.

Lemma fmap_assign_weight {B} (f : Row -> B) (ws : list Q) (df : DataFrame) :
  (forall v r, f (set_weight v r) = f r) ->
  length ws = length df ->
  f <$> assign_weight ws df = f <$> df.
Proof.
  intros Hf. unfold assign_weight.
  revert ws. induction df as [|r df IH]; intros [|v ws] H;
    simpl in *; try done. csimpl. rewrite Hf. f_equal. apply IH. lia.
Qed.

Lemma candidates_assign_count (ws : list Q) (df : DataFrame) :
  Forall2 (fun r v => (0 <= v)%Q /\ ((0 < score r)%Q -> (0 < v)%Q)) df ws ->
  length (List.filter (fun r => Qltb 0 (score r)) df)
  <= length (candidates ws (assign_weight ws df)).
Proof.
  unfold candidates, assign_weight.
  induction 1 as [|r v df ws [_ Hrv] _ IH]; simpl; [done|].
  destruct (Qltb 0 (score r)) eqn:E.
  - apply Qltb_lt in E.
    assert (Qltb 0 v = true) as -> by (apply Qltb_lt; auto).
    csimpl. lia.
  - destruct (Qltb 0 v); csimpl; lia.
Qed.

(** ** Rounding to binary64 *)

Lemma pow2_pos (e : Z) : (0 < pow2 e)%Q.
Proof. apply Qpower_0_lt. reflexivity. Qed.

Lemma pow2_sub (a b : Z) : (pow2 (a - b) == pow2 a / pow2 b)%Q.
Proof. apply Qpower_minus. discriminate. Qed.

Lemma pow2_le (a b : Z) : (a <= b)%Z -> (pow2 a <= pow2 b)%Q.
Proof. intros. apply Qpower_le_compat_l; [assumption|]. discriminate. Qed.

Lemma pow2_Z (a : Z) : (0 <= a)%Z -> (pow2 a == inject_Z (2 ^ a))%Q.
Proof. intros. unfold pow2. rewrite Zpower_Qpower by assumption. reflexivity. Qed.

Lemma binade_spec (x : Q) :
  (0 < x)%Q -> (pow2 (binade x) <= x)%Q /\ (x < pow2 (binade x + 1))%Q.
Proof.
  intros Hx. unfold binade.
  destruct x as [n d]. simpl Qnum. simpl Qden.
  assert (Hn : (0 < n)%Z). { unfold Qlt in Hx. simpl in Hx. lia. }
  set (a := Z.log2 n). set (b := Z.log2 (Z.pos d)).
  destruct (Z.log2_spec n Hn) as [Ha1 Ha2]. fold a in Ha1, Ha2.
  destruct (Z.log2_spec (Z.pos d) eq_refl) as [Hb1 Hb2]. fold b in Hb1, Hb2.
  assert (Ha0 : (0 <= a)%Z) by apply Z.log2_nonneg.
  assert (Hb0 : (0 <= b)%Z) by apply Z.log2_nonneg.
  assert (HA : (0 < 2 ^ a)%Z) by (apply Z.pow_pos_nonneg; lia).
  assert (HB : (0 < 2 ^ b)%Z) by (apply Z.pow_pos_nonneg; lia).
  destruct (Qle_bool (pow2 (a - b)) (n # d)) eqn:E.
  - apply Qle_bool_iff in E. split; [assumption|].
    replace (a - b + 1)%Z with ((a + 1) - b)%Z by lia.
    rewrite pow2_sub, !pow2_Z by lia.
    apply Qlt_shift_div_l. { change 0%Q with (inject_Z 0). rewrite <- Zlt_Qlt. lia. }
    unfold Qlt, Qmult, inject_Z. simpl.
    rewrite Z.mul_1_r. replace (Z.succ a) with (a + 1)%Z in Ha2 by lia. nia.
  - assert (E' : ((n # d) < pow2 (a - b))%Q).
    { apply Qnot_le_lt. intros H. apply Qle_bool_iff in H. congruence. }
    split.
    + replace (a - b - 1)%Z with (a - (b + 1))%Z by lia.
      rewrite pow2_sub, !pow2_Z by lia.
      apply Qle_shift_div_r. { change 0%Q with (inject_Z 0). rewrite <- Zlt_Qlt. lia. }
      unfold Qle, Qmult, inject_Z. simpl.
      rewrite Z.mul_1_r. replace (Z.succ b) with (b + 1)%Z in Hb2 by lia. nia.
    + replace (a - b - 1 + 1)%Z with (a - b)%Z by lia. assumption.
Qed.

Lemma binade_mono (x y : Q) :
  (0 < x)%Q -> (x <= y)%Q -> (binade x <= binade y)%Z.
Proof.
  intros Hx Hxy.
  destruct (binade_spec x Hx) as [Hx1 _].
  destruct (binade_spec y) as [_ Hy2]; [lra|].
  destruct (Z.le_gt_cases (binade x) (binade y)) as [|Hlt]; [assumption|].
  exfalso. pose proof (pow2_le (binade y + 1) (binade x) ltac:(lia)). lra.
Qed.

Lemma rint_mono (x y : Q) : (x <= y)%Q -> (rint x <= rint y)%Z.
Proof.
  intros Hxy. unfold rint.
  pose proof (Qfloor_resp_le _ _ Hxy) as Hf.
  pose proof (Qfloor_le x) as Hx1. pose proof (Qlt_floor x) as Hx2.
  pose proof (Qfloor_le y) as Hy1. pose proof (Qlt_floor y) as Hy2.
  assert (Hcases : (Qfloor x < Qfloor y)%Z \/ Qfloor x = Qfloor y) by lia.
  assert (Hlo : forall z, (Qfloor z <= match (z - inject_Z (Qfloor z) ?= 1 # 2)%Q with
                           | Lt => Qfloor z
                           | Eq => if Z.even (Qfloor z) then Qfloor z else (Qfloor z + 1)%Z
                           | Gt => (Qfloor z + 1)%Z end <= Qfloor z + 1)%Z).
  { intros z. destruct (_ ?= _)%Q; [destruct (Z.even _)|..]; lia. }
  destruct Hcases as [Hlt|Heq].
  - pose proof (Hlo x). pose proof (Hlo y). lia.
  - rewrite <- Heq. rewrite <- Heq in Hy1, Hy2.
    destruct (Qcompare_spec (x - inject_Z (Qfloor x)) (1 # 2)) as [Ex|Ex|Ex];
    destruct (Qcompare_spec (y - inject_Z (Qfloor x)) (1 # 2)) as [Ey|Ey|Ey];
    try destruct (Z.even (Qfloor x)); try lia; exfalso; lra.
Qed.

Lemma rint_Z (k : Z) : rint (inject_Z k) = k.
Proof.
  unfold rint. rewrite Qfloor_Z.
  destruct (Qcompare_spec (inject_Z k - inject_Z k) (1 # 2)) as [E|E|E];
    [exfalso; lra|reflexivity|exfalso; lra].
Qed.

Lemma rint_nonneg (x : Q) : (0 <= x)%Q -> (0 <= rint x)%Z.
Proof. intros H. rewrite <- (rint_Z 0). by apply rint_mono. Qed.

Lemma quantum_mono (x y : Q) :
  (0 < x)%Q -> (x <= y)%Q -> (quantum x <= quantum y)%Z.
Proof. intros Hx Hxy. unfold quantum. pose proof (binade_mono x y Hx Hxy). lia. Qed.

Lemma b64_abs_mono (x y : Q) :
  (0 < x)%Q -> (x <= y)%Q -> (b64_abs x <= b64_abs y)%Q.
Proof.
  intros Hx Hxy. unfold b64_abs.
  pose proof (quantum_mono x y Hx Hxy) as Hq.
  pose proof (pow2_pos (quantum x)) as Hpx.
  pose proof (pow2_pos (quantum y)) as Hpy.
  destruct (Z.eq_dec (quantum x) (quantum y)) as [Heq|Hne].
  - rewrite <- Heq. apply Qmult_le_compat_r; [|lra].
    rewrite <- Zle_Qle. apply rint_mono.
    apply Qmult_le_compat_r; [assumption|]. apply Qlt_le_weak, Qinv_lt_0_compat, Hpx.
  - (* the binade of y is higher: its lower end separates the two *)
    assert (Hey : quantum y = (binade y - 52)%Z) by (unfold quantum in *; lia).
    assert (Hbx : (binade x + 1 <= binade y)%Z) by (unfold quantum in *; lia).
    destruct (binade_spec x Hx) as [_ Hx2].
    destruct (binade_spec y) as [Hy1 _]; [lra|].
    pose proof (pow2_le _ _ Hbx) as Hsep.
    set (B := pow2 (binade y)) in *.
    apply Qle_trans with B.
    + (* b64 x <= B *)
      set (k := (binade y - quantum x)%Z).
      assert (Hk : (0 <= k)%Z) by (unfold k, quantum in *; lia).
      assert (HB : (B == inject_Z (2 ^ k) * pow2 (quantum x))%Q).
      { rewrite <- pow2_Z by assumption. unfold k. rewrite pow2_sub. unfold B.
        generalize dependent (pow2 (quantum x)). generalize (pow2 (binade y)).
        intros b p Hp. field. lra. }
      rewrite HB. apply Qmult_le_compat_r; [|lra].
      rewrite <- Zle_Qle. rewrite <- (rint_Z (2 ^ k)). apply rint_mono.
      apply Qle_shift_div_r; [assumption|]. rewrite <- HB. lra.
    + (* B <= b64 y *)
      assert (HB : (B == inject_Z (2 ^ 52) * pow2 (quantum y))%Q).
      { rewrite <- pow2_Z by lia. rewrite Hey, pow2_sub. unfold B.
        pose proof (pow2_pos 52) as H52.
        generalize dependent (pow2 52). generalize (pow2 (binade y)).
        intros b p Hp. field. lra. }
      rewrite HB. apply Qmult_le_compat_r; [|lra].
      rewrite <- Zle_Qle. rewrite <- (rint_Z (2 ^ 52)) at 1. apply rint_mono.
      apply Qle_shift_div_l; [assumption|]. rewrite <- HB. assumption.
Qed.

Lemma b64_abs_nonneg (x : Q) : (0 <= x)%Q -> (0 <= b64_abs x)%Q.
Proof.
  intros Hx. unfold b64_abs. pose proof (pow2_pos (quantum x)) as Hp.
  apply Qmult_le_0_compat; [|lra].
  change 0%Q with (inject_Z 0). rewrite <- Zle_Qle. apply rint_nonneg.
  apply Qle_shift_div_l; [assumption|]. lra.
Qed.

(** Rounding is monotone (on the non-negative numbers). *)
Lemma b64_mono (x y : Q) : (0 <= x)%Q -> (x <= y)%Q -> (b64 x <= b64 y)%Q.
Proof.
  intros Hx Hxy. unfold b64.
  destruct (Qcompare_spec x 0) as [Ex|Ex|Ex]; [|exfalso; lra|];
  destruct (Qcompare_spec y 0) as [Ey|Ey|Ey]; try (exfalso; lra).
  - lra.
  - apply b64_abs_nonneg. lra.
  - by apply b64_abs_mono.
Qed.

Lemma b64_nonneg (x : Q) : (0 <= x)%Q -> (0 <= b64 x)%Q.
Proof. intros H. change 0%Q with (b64 0) at 1. apply b64_mono; [lra|assumption]. Qed.

Lemma b64_positive (x : Q) : (pow2 (-1074) <= x)%Q -> (0 < b64 x)%Q.
Proof.
  intros H. pose proof (pow2_pos (-1074)) as Hp.
  eapply Qlt_le_trans; [|apply (b64_mono (pow2 (-1074)) x); [lra|assumption]].
  by vm_compute.
Qed.

Lemma unit_interval_top (r : N) :
  (0 <= unit_interval r)%Q /\ (unit_interval r <= (2 ^ 53 - 1) # 2 ^ 53)%Q.
Proof.
  unfold unit_interval, Qle. simpl Qnum. simpl Qden.
  pose proof (N.mod_lt r (2 ^ 53)%N ltac:(discriminate)) as H.
  assert (H1 : (Z.of_N (r mod 2 ^ 53) < 2 ^ 53)%Z).
  { change (2 ^ 53)%Z with (Z.of_N (2 ^ 53)). lia. }
  pose proof (N2Z.is_nonneg (r mod 2 ^ 53)) as H0.
  revert H0 H1. generalize (Z.of_N (r mod 2 ^ 53)). intros z Hz0 Hz.
  change (Z.pos (2 ^ 53)) with 9007199254740992%Z.
  change (2 ^ 53 - 1)%Z with 9007199254740991%Z.
  change (2 ^ 53)%Z with 9007199254740992%Z in Hz. lia.
Qed.

(** The noise of one row, u * 1e-8 in binary64, is below the real 1e-8:
    the largest u is 1 - 2^-53. *)
Lemma noise_range (r : N) :
  (0 <= b64 (unit_interval r * b64 epsilon))%Q
  /\ (b64 (unit_interval r * b64 epsilon) < epsilon)%Q.
Proof.
  destruct (unit_interval_top r) as [H0 H1].
  assert (He : (0 < b64 epsilon)%Q) by (by vm_compute).
  split.
  - apply b64_nonneg. apply Qmult_le_0_compat; lra.
  - eapply Qle_lt_trans.
    + apply (b64_mono _ (((2 ^ 53 - 1) # 2 ^ 53) * b64 epsilon)).
      * apply Qmult_le_0_compat; lra.
      * apply Qmult_le_compat_r; lra.
    + by vm_compute.
Qed.

(** Two binary64 numbers differ by a multiple of 2^-1074, which rounding
    does not take to zero. *)
Lemma pow2_add (a b : Z) : (pow2 (a + b) == pow2 a * pow2 b)%Q.
Proof. apply Qpower_plus. discriminate. Qed.

Lemma b64_abs_on_grid (x : Q) : on_grid (b64_abs x).
Proof.
  unfold b64_abs.
  set (q := quantum x). set (n := rint _).
  assert (Hq : (0 <= q + 1074)%Z) by (unfold q, quantum; lia).
  exists (n * 2 ^ (q + 1074))%Z.
  rewrite inject_Z_mult, <- pow2_Z by assumption.
  rewrite <- Qmult_assoc, <- pow2_add.
  replace (q + 1074 + -1074)%Z with q by lia. reflexivity.
Qed.

Lemma b64_on_grid (x : Q) : on_grid (b64 x).
Proof.
  unfold b64. destruct (x ?= 0)%Q.
  - exists 0%Z. ring.
  - destruct (b64_abs_on_grid (- x)) as [k Hk]. exists (- k)%Z.
    rewrite Hk, inject_Z_opp. ring.
  - apply b64_abs_on_grid.
Qed.

Lemma grid_gap (x y : Q) :
  on_grid x -> on_grid y -> (x < y)%Q -> (pow2 (-1074) <= y - x)%Q.
Proof.
  intros [a Ha] [b Hb] Hlt. pose proof (pow2_pos (-1074)) as Ht.
  rewrite Ha, Hb in Hlt |- *.
  apply Qmult_lt_r in Hlt; [|assumption]. rewrite <- Zlt_Qlt in Hlt.
  assert (H1 : (inject_Z a + 1 <= inject_Z b)%Q).
  { change 1%Q with (inject_Z 1). rewrite <- inject_Z_plus, <- Zle_Qle. lia. }
  generalize dependent (pow2 (-1074)). intros t _ _ Ht.
  generalize dependent (inject_Z a). generalize dependent (inject_Z b).
  intros. nra.
Qed.

Lemma b64_zero (y : Q) : (y == 0)%Q -> (b64 y == 0)%Q.
Proof. intros H. unfold b64. apply Qeq_alt in H. rewrite H. reflexivity. Qed.

Lemma b64_diff_pos (x m : Q) :
  on_grid x -> on_grid m -> (x < m)%Q -> (0 < b64 (m - x))%Q.
Proof. intros Hx Hm Hlt. apply b64_positive. by apply grid_gap. Qed.

Lemma b64_pos_inv (y : Q) : (0 < b64 y)%Q -> (0 < y)%Q.
Proof.
  unfold b64. destruct (Qcompare_spec y 0) as [E|E|E]; intros H.
  - exfalso. lra.
  - exfalso. pose proof (b64_abs_nonneg (- y) ltac:(lra)). lra.
  - assumption.
Qed.

Lemma written_noisy (df : DataFrame) (g : list N) :
  written df g = noisy df (noise_at (length df) g).
Proof. unfold written, noisy, jitter, noise_at. by rewrite zip_with_fmap_r. Qed.

Lemma scaled_noise_range (k : nat) (g : list N) :
  Forall in_noise_range (noise_at k g).
Proof.
  unfold noise_at, noise_of. rewrite <- list_fmap_compose.
  apply Forall_fmap, Forall_forall. intros i _. apply noise_range.
Qed.

Lemma length_noise_at (k : nat) (g : list N) : length (noise_at k g) = k.
Proof. unfold noise_at. by rewrite length_fmap, length_noise_of. Qed.

(** Over scores of moderate size no weight is negative, and a positive
    score makes a positive weight. *)
Lemma jitter_sign (df : DataFrame) (noise : list Q) :
  length noise = length df ->
  Forall (fun u => (0 <= u)%Q) noise ->
  Forall (fun r => moderate (score r)) df ->
  Forall2 (fun r v => (0 <= v)%Q /\ ((0 < score r)%Q -> (0 < v)%Q)) df
          (zip_with (fun r u => b64 (score r + u)) df noise).
Proof.
  intros Hlen Hn. revert df Hlen.
  induction Hn as [|u noise Hu _ IH]; intros [|r df] Hlen Hmod;
    simpl in *; try done.
  apply Forall_cons in Hmod as [Hr Hmod].
  constructor; [|apply IH; [lia|done]].
  destruct Hr as [_ [Hz|[Hlo _]]].
  - split; [apply b64_nonneg; lra|intros; exfalso; lra].
  - pose proof (pow2_pos (-300)) as Hp.
    pose proof (pow2_le (-1074) (-300) ltac:(lia)) as Hq.
    split; [apply b64_nonneg; lra|intros _; apply b64_positive; lra].
Qed.

Lemma write_weight_run (plan : loc) (df : DataFrame) (w : World) :
  heap w !! plan = Some df ->
  write_weight plan w =
    (Ok (written df (rng w)),
     with_heap (<[plan := written df (rng w)]> (heap w))
               (with_rng (drop (length df) (rng w)) w)).
Proof.
  intros H. unfold write_weight. run_load H.
  rewrite bind_run, uniform_run. reflexivity.
Qed.

(** A draw of [k] rows by weight, then the rows of the draw at its maximum. *)
Lemma draw_at_max_run (k : Z) (ws : list Q) (wdf : DataFrame) (w : World) :
  mapM weight wdf = Some ws ->
  Forall (fun x => (0 <= x)%Q) ws ->
  (0 < k)%Z ->
  Z.to_nat k <= length (candidates ws wdf) ->
  exists drawn top w',
    draw_at_max k wdf w = (Ok top, w') /\ only_rng w w'
    /\ length drawn = Z.to_nat k /\ drawn_from drawn wdf
    /\ top <> [] /\ (forall r, r ∈ top -> at_max_of r drawn).
Proof.
  intros Hws Hnn Hk Hc.
  pose proof (length_mapM _ _ _ Hws) as Hlen.
  destruct (sample_weighted_run k ws wdf w) as (drawn & w' & Hrun & Hw & Hlend & Hd);
    [done..|].
  assert (Hdw : drawn_from drawn wdf).
  { eapply drawn_from_trans; [exact Hd|]. by apply candidates_drawn_from. }
  destruct (mapM weight drawn) as [dws|] eqn:Hdws; cycle 1.
  { exfalso. apply mapM_None in Hdws. apply Exists_exists in Hdws as (r & Hr & E).
    apply (drawn_from_elem_of _ _ _ Hdw) in Hr.
    assert (is_Some (mapM weight wdf)) as Hs by (by eexists).
    apply mapM_is_Some in Hs. rewrite Forall_forall in Hs.
    apply Hs in Hr. simpl in Hr. rewrite E in Hr. by destruct Hr. }
  exists drawn, (rows_at_max dws drawn), w'.
  pose proof (length_mapM _ _ _ Hdws) as Hlen'.
  split; [|split; [done|split; [done|split; [done|split]]]].
  - unfold draw_at_max, column_weight. rewrite Hws, bind_run.
    unfold mret at 1, M_ret. rewrite bind_run, Hrun.
    by rewrite Hdws.
  - apply rows_at_max_nonempty; [done|].
    destruct drawn; [simpl in Hlend; lia|done].
  - intros r Hr.
    apply elem_of_rows_at_max in Hr as (m & v & i & Hm & Hv & Hi & E).
    apply mapM_Some in Hdws.
    pose proof (Forall2_lookup_lr _ _ _ _ _ _ Hdws Hi Hv) as Hwr.
    split; [eapply list_elem_of_lookup_2, Hi|].
    intros r' Hr'. apply list_elem_of_lookup in Hr' as [j Hj].
    destruct (Forall2_lookup_l _ _ _ _ _ Hdws Hj) as (v' & Hv' & Hwr').
    exists v', v. split; [done|split; [done|]].
    apply col_max_ub in Hm. rewrite Forall_forall in Hm.
    rewrite E. apply Hm. eapply list_elem_of_lookup_2, Hv'.
Qed.

Lemma noisy_has_weight (df : DataFrame) (noise : list Q) :
  length noise = length df ->
  Forall (fun r => is_Some (weight r)) (noisy df noise).
Proof.
  intros Hlen.
  assert (is_Some (mapM weight (noisy df noise))) as H.
  { unfold noisy. rewrite mapM_weight_assign; [by eexists|].
    rewrite length_zip_with. lia. }
  by apply mapM_is_Some in H.
Qed.

Lemma drop_weight_run (df : DataFrame) (w : World) :
  Forall (fun r => is_Some (weight r)) df ->
  drop_weight df w = (Ok (set_weight None <$> df), w).
Proof.
  intros H. unfold drop_weight.
  assert (forallb (fun r => bool_decide (is_Some (weight r))) df = true) as ->;
    [|done].
  apply forallb_forall. intros r Hr. apply bool_decide_eq_true.
  rewrite Forall_forall in H. by apply H, list_elem_of_In.
Qed.

Lemma Forall_drawn_from {A} (P : A -> Prop) (xs l : list A) :
  drawn_from xs l -> Forall P l -> Forall P xs.
Proof.
  intros Hd Hl. rewrite Forall_forall in *. intros x Hx.
  eapply Hl, drawn_from_elem_of; eauto.
Qed.

(** ** Weighted sampling of one product *)

(** What [write_weight] leaves: the noise, the weights, and how they stand
    to the scores. *)
Lemma written_facts (df : DataFrame) (g : list N) :
  exists noise ws,
    written df g = noisy df noise
    /\ length noise = length df
    /\ Forall in_noise_range noise
    /\ mapM weight (noisy df noise) = Some ws
    /\ noisy df noise = assign_weight ws df
    /\ noise = noise_at (length df) g
    /\ Forall on_grid ws
    /\ (Forall (fun r => moderate (score r)) df ->
        Forall2 (fun r v => (0 <= v)%Q /\ ((0 < score r)%Q -> (0 < v)%Q)) df ws).
Proof.
  set (noise := noise_at (length df) g).
  assert (Hlen : length noise = length df) by apply length_noise_at.
  assert (Hrange : Forall in_noise_range noise) by apply scaled_noise_range.
  exists noise, (zip_with (fun r u => b64 (score r + u)) df noise).
  split; [apply written_noisy|split; [done|split; [done|split; [|split; [|split; [|split]]]]]].
  - apply mapM_weight_assign. rewrite length_zip_with. lia.
  - done.
  - done.
  - apply Forall_forall. intros v Hv.
    apply elem_of_lookup_zip_with in Hv as (i & r & u & -> & _ & _).
    apply b64_on_grid.
  - apply jitter_sign; [done|].
    eapply Forall_impl; [exact Hrange|]. by intros u [? _].
Qed.

Lemma weights_nonneg (df : DataFrame) (ws : list Q) :
  Forall2 (fun r v => (0 <= v)%Q /\ ((0 < score r)%Q -> (0 < v)%Q)) df ws ->
  Forall (fun x => (0 <= x)%Q) ws.
Proof.
  intros Hsign. apply Forall_forall. intros v Hv.
  apply list_elem_of_lookup in Hv as [i Hi].
  by destruct (Forall2_lookup_r _ _ _ _ _ Hsign Hi) as (r & Hr & Hle & _).
Qed.

(** No entry is out of the generator's reach. *)
Lemma picked_any {A} (l : list A) (x : A) :
  x ∈ l -> exists g, picked g l = Some x.
Proof.
  intros Hx. apply list_elem_of_lookup in Hx as [i Hi].
  pose proof (lookup_lt_Some _ _ _ Hi) as Hlt.
  exists [N.of_nat i]. unfold picked. cbn [hd].
  rewrite N.mod_small by lia. by rewrite Nat2N.id.
Qed.

(** The unweighted draw of one row: the row a fresh output of the
    generator selects. *)
Lemma sample_one_picks (l : DataFrame) (w : World) :
  l <> [] ->
  exists x, picked (rng w) l = Some x
            /\ sample 1 None l w = (Ok [x], with_rng (tl (rng w)) w).
Proof.
  intros Hne. unfold sample, picked. simpl.
  destruct (Z.ltb_spec (Z.of_nat (length l)) 1) as [Hlt|_].
  { destruct l; [done|simpl in Hlt; lia]. }
  change (Pos.to_nat 1) with 1. cbn [choice].
  rewrite bind_run. unfold next_rand at 1.
  set (i := N.to_nat _).
  assert (Hi : i < length l).
  { subst i. destruct l as [|c l]; [done|].
    pose proof (N.mod_upper_bound (hd 0%N (rng w))
                  (N.of_nat (length (c :: l)))) as Hm.
    simpl length in *. lia. }
  destruct (lookup_lt_is_Some_2 l i Hi) as [x Hx].
  exists x. split; [done|]. cbn [rng with_rng]. fold i. by rewrite Hx.
Qed.

(** The rows kept from a draw are exactly its rows tied for the maximum
    weight. *)
Lemma rows_at_max_iff (dws : list Q) (drawn : DataFrame) (x : Row) :
  Forall2 (fun r v => weight r = Some v) drawn dws ->
  x ∈ rows_at_max dws drawn <-> at_max_of x drawn.
Proof.
  intros Hf2. split.
  - intros Hx.
    apply elem_of_rows_at_max in Hx as (m & v & i & Hm & Hv & Hi & E).
    pose proof (Forall2_lookup_lr _ _ _ _ _ _ Hf2 Hi Hv) as Hwr.
    split; [eapply list_elem_of_lookup_2, Hi|].
    intros r' Hr'. apply list_elem_of_lookup in Hr' as [j Hj].
    destruct (Forall2_lookup_l _ _ _ _ _ Hf2 Hj) as (v' & Hv' & Hwr').
    exists v', v. split; [done|split; [done|]].
    apply col_max_ub in Hm. rewrite Forall_forall in Hm.
    rewrite E. apply Hm. eapply list_elem_of_lookup_2, Hv'.
  - intros [Hin Hub]. apply list_elem_of_lookup in Hin as [i Hi].
    destruct (Forall2_lookup_l _ _ _ _ _ Hf2 Hi) as (v & Hv & Hwx).
    destruct (col_max_is_Some dws) as [m Hm].
    { intros ->. by rewrite lookup_nil in Hv. }
    apply elem_of_rows_at_max. exists m, v, i.
    split; [done|split; [done|split; [done|]]].
    pose proof (col_max_ub _ _ Hm) as Hle. rewrite Forall_forall in Hle.
    specialize (Hle v (list_elem_of_lookup_2 _ _ _ Hv)).
    apply col_max_attained, Exists_exists in Hm as (v' & Hv' & E).
    apply list_elem_of_lookup in Hv' as [j Hj].
    destruct (Forall2_lookup_r _ _ _ _ _ Hf2 Hj) as (r' & Hr' & Hwr').
    destruct (Hub r' (list_elem_of_lookup_2 _ _ _ Hr')) as (a & b & Ha & Hb & Hab).
    assert (a = v') as -> by congruence. assert (b = v) as -> by congruence.
    lra.
Qed.

(** The draw of [k] rows by weight and the selection at its maximum, step
    by step. *)
Lemma draw_at_max_steps (k : Z) (ws : list Q) (wdf : DataFrame) (w : World) :
  mapM weight wdf = Some ws ->
  Forall (fun x => (0 <= x)%Q) ws ->
  (0 < k)%Z ->
  Z.to_nat k <= length (candidates ws wdf) ->
  exists drawn dws w',
    sample k (Some ws) wdf w = (Ok drawn, w') /\ only_rng w w'
    /\ length drawn = Z.to_nat k
    /\ drawn_from drawn (candidates ws wdf)
    /\ mapM weight drawn = Some dws
    /\ rows_at_max dws drawn <> []
    /\ (forall x, x ∈ rows_at_max dws drawn <-> at_max_of x drawn)
    /\ draw_at_max k wdf w = (Ok (rows_at_max dws drawn), w').
Proof.
  intros Hws Hnn Hk Hc.
  pose proof (length_mapM _ _ _ Hws) as Hlen.
  destruct (sample_weighted_run k ws wdf w) as (drawn & w' & Hrun & Hw & Hlend & Hd);
    [done..|].
  assert (Hdw : drawn_from drawn wdf).
  { eapply drawn_from_trans; [exact Hd|]. by apply candidates_drawn_from. }
  destruct (mapM weight drawn) as [dws|] eqn:Hdws; cycle 1.
  { exfalso. apply mapM_None in Hdws. apply Exists_exists in Hdws as (r & Hr & E).
    apply (drawn_from_elem_of _ _ _ Hdw) in Hr.
    assert (is_Some (mapM weight wdf)) as Hs by (by eexists).
    apply mapM_is_Some in Hs. rewrite Forall_forall in Hs.
    apply Hs in Hr. simpl in Hr. rewrite E in Hr. by destruct Hr. }
  exists drawn, dws, w'.
  pose proof (length_mapM _ _ _ Hdws) as Hlen'.
  split; [done|split; [done|split; [done|split; [done|split; [done|split; [|split]]]]]].
  - apply rows_at_max_nonempty; [done|].
    destruct drawn; [simpl in Hlend; lia|done].
  - intros x. apply rows_at_max_iff. by apply mapM_Some.
  - unfold draw_at_max, column_weight. rewrite Hws, bind_run.
    unfold mret at 1, M_ret. rewrite bind_run, Hrun.
    by rewrite Hdws.
Qed.

(** C1, as the code has it.  Take a group whose scores are of moderate
    size, at least seven of them positive.  Weighted sampling with n = 1
    forms the weights by adding to each score its own noise, a fresh output
    of the uniform generator times 1e-8 and so a value of [0, 1e-8), and
    writes them into the group; it draws seven rows by weight, at distinct
    positions among the rows of positive weight; it keeps the rows of the
    draw tied for the maximum weight of the draw, and returns the one of
    them that a fresh output of the generator selects, its weight column
    removed. *)
Theorem weighted_one_draw (self : Dataset) (plan : loc) (df : DataFrame)
    (w : World) :
  sampling_method self = "weighted" ->
  heap w !! plan = Some df ->
  Forall (fun r => moderate (score r)) df ->
  7 <= length (List.filter (fun r => Qltb 0 (score r)) df) ->
  exists noise ws drawn dws top r w1 w2 w',
    (* the weights *)
    noise = noise_at (length df) (rng w)
    /\ length noise = length df
    /\ Forall in_noise_range noise
    /\ write_weight plan w = (Ok (noisy df noise), w1)
    /\ heap w1 = <[plan := noisy df noise]> (heap w)
    /\ mapM weight (noisy df noise) = Some ws
    (* the draw of seven *)
    /\ sample 7 (Some ws) (noisy df noise) w1 = (Ok drawn, w2)
    /\ length drawn = 7
    /\ drawn_from drawn (candidates ws (noisy df noise))
    (* the rows of the draw at its maximum *)
    /\ mapM weight drawn = Some dws
    /\ top = rows_at_max dws drawn
    /\ (forall x, x ∈ top <-> at_max_of x drawn)
    (* the choice among them *)
    /\ picked (rng w2) top = Some r
    /\ (forall x, x ∈ top -> exists g, picked g top = Some x)
    /\ sample 1 None (set_weight None <$> top) w2 = (Ok [set_weight None r], w')
    (* the result *)
    /\ sample_prods self plan 1 w = (Ok (PSeries (set_weight None r)), w')
    /\ heap w' = <[plan := noisy df noise]> (heap w).
Proof.
  intros Hm Hplan Hmod Hpos.
  destruct (written_facts df (rng w))
    as (noise & ws & Hwr & Hlen & Hrange & Hws & Hasg & Hnoise & Hgrid & Hsign).
  specialize (Hsign Hmod).
  pose proof (write_weight_run plan df w Hplan) as Hwrite.
  rewrite Hwr in Hwrite.
  set (w1 := with_heap _ _) in Hwrite.
  destruct (draw_at_max_steps 7 ws (noisy df noise) w1)
    as (drawn & dws & w2 & Hsam & Hw2 & Hld & Hdf & Hdws & Htop & Hmax & Hdraw).
  - done.
  - by eapply weights_nonneg.
  - lia.
  - pose proof (candidates_assign_count ws df Hsign). rewrite Hasg. simpl. lia.
  - set (top := rows_at_max dws drawn) in *.
    assert (Hsome : Forall (fun r => is_Some (weight r)) top).
    { apply Forall_forall. intros r Hr. apply Hmax in Hr as [Hin _].
      pose proof (noisy_has_weight df noise Hlen) as Hall.
      rewrite Forall_forall in Hall.
      eapply Hall, drawn_from_elem_of; [|exact Hin].
      eapply drawn_from_trans; [exact Hdf|].
      apply candidates_drawn_from. by apply length_mapM in Hws. }
    destruct (sample_one_picks (set_weight None <$> top) w2)
      as (r' & Hpick & Hone).
    { by destruct top. }
    unfold picked in Hpick. rewrite length_fmap, list_lookup_fmap in Hpick.
    destruct (top !! _) as [r|] eqn:Hr; [|done]. injection Hpick as <-.
    exists noise, ws, drawn, dws, top, r, w1, w2, (with_rng (tl (rng w2)) w2).
    repeat match goal with |- _ /\ _ => split end; try done.
    + apply picked_any.
    + rewrite sample_prods_weighted_one by done.
      rewrite bind_run, Hwrite, bind_run, Hdraw.
      rewrite bind_run, (drop_weight_run _ _ Hsome).
      by rewrite bind_run, Hone.
    + cbn [heap with_rng]. destruct Hw2 as [-> _]. reflexivity.
Qed.

(** Witness of C1 as amended: the plan of eight, all scores positive. *)
Lemma weighted_one_draw_witness :
  exists noise ws drawn dws top r w1 w2 w',
    noise = noise_at (length plan8) stream8
    /\ length noise = length plan8
    /\ Forall in_noise_range noise
    /\ write_weight 0 (mkWorld [plan8] stream8 [] [])
       = (Ok (noisy plan8 noise), w1)
    /\ heap w1 = <[0 := noisy plan8 noise]> [plan8]
    /\ mapM weight (noisy plan8 noise) = Some ws
    /\ sample 7 (Some ws) (noisy plan8 noise) w1 = (Ok drawn, w2)
    /\ length drawn = 7
    /\ drawn_from drawn (candidates ws (noisy plan8 noise))
    /\ mapM weight drawn = Some dws
    /\ top = rows_at_max dws drawn
    /\ (forall x, x ∈ top <-> at_max_of x drawn)
    /\ picked (rng w2) top = Some r
    /\ (forall x, x ∈ top -> exists g, picked g top = Some x)
    /\ sample 1 None (set_weight None <$> top) w2 = (Ok [set_weight None r], w')
    /\ sample_on "weighted" plan8 1 stream8
       = (Ok (PSeries (set_weight None r)), w')
    /\ heap w' = <[0 := noisy plan8 noise]> [plan8].
Proof.
  apply (weighted_one_draw (sampler "weighted") 0 plan8
           (mkWorld [plan8] stream8 [] [])).
  - reflexivity.
  - reflexivity.
  - repeat (apply Forall_cons; split;
              [split; [by vm_compute|right; split; by vm_compute]|]).
    by apply Forall_nil.
  - vm_compute. lia.
Defined.

(** C1 as stated fails on small groups: a non-empty group of three rows
    cannot yield seven, and the call raises ValueError. *)
Lemma weighted_one_of_three_raises :
  fst (sample_on "weighted" plan3 1 [3; 1; 4; 1; 5; 9]%N) = Raise ValueError.
Proof. vm_compute. reflexivity. Qed.

(** ** Leaving the positive out, and the weights of the negatives *)

Lemma filter_all {A} (f : A -> bool) (l : list A) :
  (forall x, x ∈ l -> f x = true) -> List.filter f l = l.
Proof.
  induction l as [|x l IH]; intros H; simpl; [done|].
  rewrite (H x) by left. f_equal. apply IH. intros y Hy. apply H. by right.
Qed.

Lemma drop_label_perm (r : Row) (l : DataFrame) :
  NoDup (label <$> l) -> r ∈ l ->
  r :: List.filter (fun x => negb (Z.eqb (label x) (label r))) l ≡ₚ l.
Proof.
  induction l as [|x l IH]; intros Hnd Hr; [by apply not_elem_of_nil in Hr|].
  csimpl in Hnd. apply NoDup_cons in Hnd as [Hx Hnd]. simpl.
  destruct (Z.eqb_spec (label x) (label r)) as [E|E]; simpl.
  - assert (x = r) as ->.
    { apply elem_of_cons in Hr as [->|Hr]; [done|].
      exfalso. apply Hx. rewrite E. apply list_elem_of_fmap. eauto. }
    rewrite filter_all; [done|].
    intros y Hy. apply negb_true_iff, Z.eqb_neq. intros E'.
    apply Hx. rewrite <- E'. apply list_elem_of_fmap. eauto.
  - apply elem_of_cons in Hr as [->|Hr]; [done|].
    rewrite perm_swap. by rewrite IH.
Qed.

Lemma drop_label_run (r : Row) (l : DataFrame) (w : World) :
  r ∈ l ->
  drop_label (label r) l w =
    (Ok (List.filter (fun x => negb (Z.eqb (label x) (label r))) l), w).
Proof.
  intros Hr. unfold drop_label.
  assert (existsb (fun x => Z.eqb (label x) (label r)) l = true) as ->; [|done].
  apply existsb_exists. exists r. split; [by apply list_elem_of_In|].
  apply Z.eqb_refl.
Qed.

Lemma distinct_rows_filter (f : Row -> bool) (l : DataFrame) :
  distinct_rows l = true -> distinct_rows (List.filter f l) = true.
Proof.
  induction l as [|x l IH]; simpl; [done|].
  intros [H1 H2]%andb_true_iff. destruct (f x); simpl; [|by apply IH].
  apply andb_true_iff. split; [|by apply IH].
  apply forallb_forall. intros y Hy. apply filter_In in Hy as [Hy _].
  rewrite forallb_forall in H1. by apply H1.
Qed.

Lemma at_most_one_weighs (m : Q) (l : DataFrame) :
  distinct_rows l = true -> length (List.filter (weighs m) l) <= 1.
Proof.
  induction l as [|x l IH]; simpl; [lia|].
  intros [H1 H2]%andb_true_iff. specialize (IH H2).
  destruct (weighs m x) eqn:E; simpl; [|lia].
  assert (List.filter (weighs m) l = []) as ->; [|simpl; lia].
  destruct (List.filter (weighs m) l) as [|y k] eqn:Ek; [done|exfalso].
  assert (In y (List.filter (weighs m) l)) as Hy by (rewrite Ek; by left).
  apply filter_In in Hy as [Hy Ey].
  rewrite forallb_forall in H1. specialize (H1 y Hy).
  apply negb_true_iff in H1. unfold weighs, same_weight in *.
  destruct (weight x) as [a|], (weight y) as [b|]; try done.
  apply Qeq_bool_iff in E, Ey. apply not_true_iff_false in H1. apply H1.
  apply Qeq_bool_iff. by rewrite E, Ey.
Qed.

Lemma below_or_at (m : Q) (l : DataFrame) :
  Forall (fun r => exists x, weight r = Some x /\ (x <= m)%Q) l ->
  length (List.filter (weighs_below m) l) + length (List.filter (weighs m) l)
  = length l.
Proof.
  induction 1 as [|r l (x & Hx & Hle) _ IH]; simpl; [done|].
  unfold weighs_below at 1, weighs at 1. rewrite Hx.
  destruct (Qltb 0 (m - x)) eqn:E1, (Qeq_bool x m) eqn:E2; simpl; try lia.
  - apply Qltb_lt in E1. apply Qeq_bool_iff in E2. lra.
  - apply not_true_iff_false in E1, E2. exfalso.
    rewrite Qltb_lt in E1. rewrite Qeq_bool_iff in E2.
    destruct (Qlt_le_dec x m) as [Hlt|Hge].
    + apply E1. lra.
    + apply E2. by apply Qle_antisym.
Qed.

(** A difference of binary64 numbers is positive after rounding exactly
    when it is positive. *)
Lemma Qltb_b64_diff (x m : Q) :
  on_grid x -> on_grid m -> Qltb 0 (b64 (m - x)) = Qltb 0 (m - x).
Proof.
  intros Hx Hm. apply eq_true_iff_eq. rewrite !Qltb_lt. split.
  - apply b64_pos_inv.
  - intros H. apply b64_diff_pos; [done..|lra].
Qed.

Lemma negative_candidates (rem : DataFrame) (ews : list Q) (m : Q) :
  Forall2 (fun r x => weight r = Some x) rem ews ->
  Forall on_grid ews -> on_grid m ->
  candidates ((fun x => b64 (m - x)) <$> ews) rem = List.filter (weighs_below m) rem.
Proof.
  unfold candidates. intros Hf2 Hg Hm. revert Hg.
  induction Hf2 as [|r x rem ews Hx _ IH]; intros Hg; csimpl; [done|].
  apply Forall_cons in Hg as [Hgx Hg].
  unfold weighs_below at 1. rewrite Hx, (Qltb_b64_diff x m Hgx Hm).
  destruct (Qltb 0 (m - x)); csimpl; by rewrite IH.
Qed.

Lemma negative_weights_nonneg (ews : list Q) :
  Forall (fun x => (0 <= x)%Q) (negative_weights ews).
Proof.
  unfold negative_weights. destruct (col_max ews) as [m|] eqn:Hm; [|done].
  apply col_max_ub in Hm. apply Forall_fmap.
  eapply Forall_impl; [exact Hm|]. intros x Hx. unfold compose.
  cbv beta in Hx. apply b64_nonneg. lra.
Qed.

Lemma StronglySorted_with {A} (R : relation A) (P : A -> Prop) (l : list A) :
  StronglySorted R l -> Forall P l ->
  StronglySorted (fun a b => R a b /\ P a /\ P b) l.
Proof.
  induction 1 as [|x l Hl IH Hx]; intros HP; [constructor|].
  apply Forall_cons in HP as [Px HP]. constructor; [by apply IH|].
  rewrite Forall_forall in *. intros y Hy. auto.
Qed.

Lemma sort_values_weight_run (df : DataFrame) (w : World) :
  Forall (fun r => is_Some (weight r)) df ->
  exists sorted,
    sort_values_weight df w = (Ok (reset_index sorted), w)
    /\ sorted ≡ₚ df
    /\ StronglySorted (fun a b => weight_le b a) sorted.
Proof.
  intros Hall.
  destruct (mapM weight df) as [ws|] eqn:Hws; cycle 1.
  { assert (is_Some (mapM weight df)) as [? ?]; [|congruence].
    by apply mapM_is_Some. }
  pose proof (length_mapM _ _ _ Hws) as Hlen.
  apply mapM_Some in Hws as Hf2.
  exists (snd <$> nargsort_desc (zip ws df)). split; [|split].
  - unfold sort_values_weight, column_weight. by rewrite Hws.
  - rewrite nargsort_desc_perm. by rewrite snd_zip by lia.
  - set (P := fun p : Q * Row => weight (snd p) = Some (fst p)).
    assert (Forall P (nargsort_desc (zip ws df))) as HP.
    { rewrite nargsort_desc_perm. apply Forall_forall. intros [v r] Hin.
      apply elem_of_zip_lookup in Hin as (i & Hv & Hr).
      exact (Forall2_lookup_lr _ _ _ _ _ _ Hf2 Hr Hv). }
    eapply StronglySorted_fmap;
      [|exact (StronglySorted_with _ P _ (nargsort_desc_sorted _) HP)].
    intros a b (Hab & Ha & Hb). exists (fst b), (fst a). auto.
Qed.

Lemma Forall_weight_reset_index (df : DataFrame) :
  Forall (fun r => is_Some (weight r)) df ->
  Forall (fun r => is_Some (weight r)) (reset_index df).
Proof.
  intros H.
  apply (Forall_fmap (B:=option Q) weight (fun o => is_Some o)).
  rewrite fmap_reset_index by done.
  by apply (Forall_fmap (B:=option Q) weight (fun o => is_Some o)).
Qed.

(** ** Weighted sampling of several products *)

(** C2, as the code has it.  Take a group with unique index labels and
    scores of moderate size, at least five of them positive, and a count
    n > 1 below the size of the group; let the weights written into the
    group (score + noise) be pairwise distinct.  Then weighted sampling
    draws five rows by weight, keeps those of the draw tied for its maximum
    weight and takes as positive the one a fresh output of the generator
    selects; it draws n - 1 negatives by the weights
    max_remaining_weight - own_weight, at distinct positions among the other
    rows that weigh less than the heaviest of them; it returns the positive
    and the negatives sorted by weight in descending order, renumbered, the
    weight column removed.  The result has n rows, and no product id twice
    when the group has none twice. *)
Theorem weighted_many_draw (self : Dataset) (plan : loc) (df : DataFrame)
    (n : Z) (w : World) :
  sampling_method self = "weighted" ->
  heap w !! plan = Some df ->
  (1 < n)%Z ->
  (n < Z.of_nat (length df))%Z ->
  NoDup (label <$> df) ->
  Forall (fun r => moderate (score r)) df ->
  5 <= length (List.filter (fun r => Qltb 0 (score r)) df) ->
  distinct_rows (written df (rng w)) = true ->
  exists noise ws drawn dws top pos rem ews m negs sorted prods w1 w2 w3 w4,
    (* the weights *)
    noise = noise_at (length df) (rng w)
    /\ length noise = length df
    /\ Forall in_noise_range noise
    /\ write_weight plan w = (Ok (noisy df noise), w1)
    /\ heap w1 = <[plan := noisy df noise]> (heap w)
    /\ mapM weight (noisy df noise) = Some ws
    (* the positive: five rows drawn, those at the maximum kept, one chosen *)
    /\ sample 5 (Some ws) (noisy df noise) w1 = (Ok drawn, w2)
    /\ length drawn = 5
    /\ drawn_from drawn (candidates ws (noisy df noise))
    /\ mapM weight drawn = Some dws
    /\ top = rows_at_max dws drawn
    /\ (forall x, x ∈ top <-> at_max_of x drawn)
    /\ picked (rng w2) top = Some pos
    /\ (forall x, x ∈ top -> exists g, picked g top = Some x)
    /\ sample 1 None top w2 = (Ok [pos], w3)
    (* the rows that remain, and their weights *)
    /\ rem = List.filter (fun x => negb (Z.eqb (label x) (label pos)))
                         (noisy df noise)
    /\ pos :: rem ≡ₚ noisy df noise
    /\ mapM weight rem = Some ews
    /\ col_max ews = Some m
    /\ negative_weights ews = (fun x => b64 (m - x)) <$> ews
    (* the negatives *)
    /\ sample (n - 1) (Some (negative_weights ews)) rem w3 = (Ok negs, w4)
    /\ length negs = Z.to_nat (n - 1)
    /\ drawn_from negs (candidates (negative_weights ews) rem)
    /\ (forall r, r ∈ negs -> exists t, t ∈ rem /\ weight_lt r t)
    /\ drawn_from (pos :: negs) (noisy df noise)
    (* the result *)
    /\ sorted ≡ₚ pos :: negs
    /\ StronglySorted (fun a b => weight_le b a) sorted
    /\ prods = set_weight None <$> reset_index sorted
    /\ sample_prods self plan n w = (Ok (PFrame prods), w4)
    /\ heap w4 = <[plan := noisy df noise]> (heap w)
    /\ length prods = Z.to_nat n
    /\ (NoDup (prod_id <$> df) -> NoDup (prod_id <$> prods)).
Proof.
  intros Hm Hplan Hn1 Hn2 Hlab Hmod Hpos Hdist.
  destruct (written_facts df (rng w))
    as (noise & ws & Hwr & Hlen & Hrange & Hws & Hasg & Hnoise & Hgrid & Hsign).
  specialize (Hsign Hmod).
  rewrite Hwr in Hdist.
  set (wdf := noisy df noise) in *.
  pose proof (write_weight_run plan df w Hplan) as Hwrite.
  rewrite Hwr in Hwrite. fold wdf in Hwrite.
  set (w1 := with_heap _ _) in Hwrite.
  assert (Hall : Forall (fun r => is_Some (weight r)) wdf)
    by (by apply noisy_has_weight).
  assert (Hlwdf : length wdf = length df).
  { apply length_assign_weight. rewrite length_zip_with. lia. }
  assert (Hlabw : NoDup (label <$> wdf)).
  { unfold wdf, noisy. rewrite fmap_assign_weight; [done..|].
    rewrite length_zip_with. lia. }
  (* the positive *)
  destruct (draw_at_max_steps 5 ws wdf w1)
    as (drawn & dws & w2 & Hsam & Hw2 & Hld & Hdf & Hdws & Htop & Hmax & Hdraw).
  { done. }
  { by eapply weights_nonneg. }
  { lia. }
  { pose proof (candidates_assign_count ws df Hsign) as Hc.
    rewrite Hasg. simpl. lia. }
  set (top := rows_at_max dws drawn) in *.
  assert (Hdfw : drawn_from drawn wdf).
  { eapply drawn_from_trans; [exact Hdf|].
    apply candidates_drawn_from. by apply length_mapM in Hws. }
  destruct (sample_one_picks top w2 Htop) as (pos & Hpick & Hone).
  set (w3 := with_rng (tl (rng w2)) w2) in *.
  assert (Hpostop : pos ∈ top).
  { unfold picked in Hpick. eapply list_elem_of_lookup_2, Hpick. }
  pose proof (proj1 (Hmax pos) Hpostop) as Hposmax.
  assert (Hposw : pos ∈ wdf).
  { eapply drawn_from_elem_of; [exact Hdfw|]. by destruct Hposmax. }
  (* the other rows *)
  set (rem := List.filter (fun x => negb (Z.eqb (label x) (label pos))) wdf).
  pose proof (drop_label_perm pos wdf Hlabw Hposw) as Hperm. fold rem in Hperm.
  assert (Hlrem : S (length rem) = length df).
  { rewrite <- Hlwdf, <- Hperm. done. }
  assert (Hallrem : Forall (fun r => is_Some (weight r)) rem).
  { eapply Forall_drawn_from; [apply drawn_from_filter|done]. }
  destruct (mapM weight rem) as [ews|] eqn:Hews; cycle 1.
  { assert (is_Some (mapM weight rem)) as [? ?]; [|congruence].
    by apply mapM_is_Some. }
  pose proof (length_mapM _ _ _ Hews) as Hlews.
  apply mapM_Some in Hews as Hf2.
  destruct (col_max_is_Some ews) as [m Hmx].
  { destruct ews; [simpl in Hlews; lia|done]. }
  assert (Hnw : negative_weights ews = (fun x => b64 (m - x)) <$> ews).
  { unfold negative_weights. by rewrite Hmx. }
  assert (Hgews : Forall on_grid ews).
  { apply Forall_forall. intros x Hx.
    apply list_elem_of_lookup in Hx as [i Hi].
    destruct (Forall2_lookup_r _ _ _ _ _ Hf2 Hi) as (r & Hr & Hrx).
    apply list_elem_of_lookup_2, list_elem_of_In, filter_In in Hr as [Hr _].
    apply list_elem_of_In, list_elem_of_lookup in Hr as [j Hj].
    apply mapM_Some in Hws.
    destruct (Forall2_lookup_l _ _ _ _ _ Hws Hj) as (y & Hy & Hry).
    assert (x = y) as -> by congruence.
    rewrite Forall_forall in Hgrid. eapply Hgrid, list_elem_of_lookup_2, Hy. }
  assert (Hgm : on_grid m).
  { pose proof Hmx as Hat.
    apply col_max_attained, Exists_exists in Hat as (y & Hy & E).
    rewrite Forall_forall in Hgews. destruct (Hgews y Hy) as [k Hk].
    exists k. by rewrite <- E. }
  pose proof (col_max_ub _ _ Hmx) as Hub.
  assert (Hbelow : Forall (fun r => exists x, weight r = Some x /\ (x <= m)%Q) rem).
  { apply Forall_forall. intros r Hr.
    apply list_elem_of_lookup in Hr as [i Hi].
    destruct (Forall2_lookup_l _ _ _ _ _ Hf2 Hi) as (x & Hx & Hrx).
    exists x. split; [done|]. rewrite Forall_forall in Hub.
    eapply Hub, list_elem_of_lookup_2, Hx. }
  assert (Hcount : Z.to_nat (n - 1) <= length (candidates (negative_weights ews) rem)).
  { rewrite Hnw, (negative_candidates _ _ _ Hf2 Hgews Hgm).
    pose proof (below_or_at m rem Hbelow).
    pose proof (at_most_one_weighs m rem (distinct_rows_filter _ _ Hdist)).
    lia. }
  destruct (sample_weighted_run (n - 1) (negative_weights ews) rem w3)
    as (negs & w4 & Hneg & Hw4 & Hlneg & Hdneg).
  { rewrite Hnw, length_fmap. lia. }
  { apply negative_weights_nonneg. }
  { lia. }
  { done. }
  assert (Hdneg' : drawn_from negs (List.filter (weighs_below m) rem)).
  { by rewrite Hnw, (negative_candidates _ _ _ Hf2 Hgews Hgm) in Hdneg. }
  assert (Hnegrem : drawn_from negs rem).
  { eapply drawn_from_trans; [exact Hdneg'|apply drawn_from_filter]. }
  assert (Hpn : drawn_from (pos :: negs) wdf).
  { destruct Hnegrem as [rest Hrest]. exists rest.
    rewrite <- Hperm, <- Hrest. done. }
  (* sorting *)
  assert (Hallpn : Forall (fun r => is_Some (weight r)) (pos :: negs)).
  { eapply Forall_drawn_from; eauto. }
  destruct (sort_values_weight_run (pos :: negs) w4 Hallpn)
    as (sorted & Hsort & Hsperm & Hssorted).
  assert (Hallsorted : Forall (fun r => is_Some (weight r)) (reset_index sorted)).
  { apply Forall_weight_reset_index. by rewrite Hsperm. }
  exists noise, ws, drawn, dws, top, pos, rem, ews, m, negs, sorted,
    (set_weight None <$> reset_index sorted), w1, w2, w3, w4.
  repeat match goal with |- _ /\ _ => split end; try done.
  - apply picked_any.
  - intros r Hr.
    apply (drawn_from_elem_of _ _ _ Hdneg'), list_elem_of_In, filter_In in Hr
      as [Hr Hb].
    unfold weighs_below in Hb. destruct (weight r) as [x|] eqn:Hx; [|done].
    apply Qltb_lt in Hb.
    apply col_max_attained, Exists_exists in Hmx as (v & Hv & Ev).
    apply list_elem_of_lookup in Hv as [i Hi].
    destruct (Forall2_lookup_r _ _ _ _ _ Hf2 Hi) as (t & Ht & Htv).
    apply list_elem_of_lookup_2 in Ht.
    exists t. split; [done|].
    exists x, v. split; [done|split; [done|lra]].
  - rewrite sample_prods_many by lia. run_load Hplan.
    destruct (Z.eqb_spec (Z.of_nat (length df)) n); [lia|].
    rewrite Hm. cbn [String.eqb Ascii.eqb Bool.eqb].
    rewrite bind_run, Hwrite, bind_run, Hdraw, bind_run, Hone.
    rewrite bind_run. cbn [index_item]. unfold mret at 1, M_ret.
    rewrite bind_run, (drop_label_run pos wdf w3 Hposw). fold rem.
    rewrite bind_run. unfold column_weight. rewrite Hews.
    unfold mret at 1, M_ret.
    rewrite bind_run, Hneg, bind_run. cbn [app]. rewrite Hsort.
    by rewrite bind_run, (drop_weight_run _ _ Hallsorted).
  - destruct Hw4 as [-> _]. unfold w3. cbn [heap with_rng].
    destruct Hw2 as [-> _]. reflexivity.
  - rewrite length_fmap, length_reset_index, Hsperm. simpl. lia.
  - intros Hnd.
    rewrite <- list_fmap_compose.
    rewrite (list_fmap_ext (prod_id ∘ set_weight None) prod_id
               (reset_index sorted) (fun _ _ _ => eq_refl)).
    rewrite fmap_reset_index by done. rewrite Hsperm.
    eapply drawn_from_NoDup; [apply drawn_from_fmap, Hpn|].
    unfold wdf, noisy. rewrite fmap_assign_weight; [done..|].
    rewrite length_zip_with. lia.
Qed.

(** Witness of C2 as amended: three of the plan of eight. *)
Lemma weighted_many_draw_witness :
  exists noise ws drawn dws top pos rem ews m negs sorted prods w1 w2 w3 w4,
    noise = noise_at (length plan8) stream8
    /\ length noise = length plan8
    /\ Forall in_noise_range noise
    /\ write_weight 0 (mkWorld [plan8] stream8 [] [])
       = (Ok (noisy plan8 noise), w1)
    /\ heap w1 = <[0 := noisy plan8 noise]> [plan8]
    /\ mapM weight (noisy plan8 noise) = Some ws
    /\ sample 5 (Some ws) (noisy plan8 noise) w1 = (Ok drawn, w2)
    /\ length drawn = 5
    /\ drawn_from drawn (candidates ws (noisy plan8 noise))
    /\ mapM weight drawn = Some dws
    /\ top = rows_at_max dws drawn
    /\ (forall x, x ∈ top <-> at_max_of x drawn)
    /\ picked (rng w2) top = Some pos
    /\ (forall x, x ∈ top -> exists g, picked g top = Some x)
    /\ sample 1 None top w2 = (Ok [pos], w3)
    /\ rem = List.filter (fun x => negb (Z.eqb (label x) (label pos)))
                         (noisy plan8 noise)
    /\ pos :: rem ≡ₚ noisy plan8 noise
    /\ mapM weight rem = Some ews
    /\ col_max ews = Some m
    /\ negative_weights ews = (fun x => b64 (m - x)) <$> ews
    /\ sample (3 - 1) (Some (negative_weights ews)) rem w3 = (Ok negs, w4)
    /\ length negs = Z.to_nat (3 - 1)
    /\ drawn_from negs (candidates (negative_weights ews) rem)
    /\ (forall r, r ∈ negs -> exists t, t ∈ rem /\ weight_lt r t)
    /\ drawn_from (pos :: negs) (noisy plan8 noise)
    /\ sorted ≡ₚ pos :: negs
    /\ StronglySorted (fun a b => weight_le b a) sorted
    /\ prods = set_weight None <$> reset_index sorted
    /\ sample_on "weighted" plan8 3 stream8 = (Ok (PFrame prods), w4)
    /\ heap w4 = <[0 := noisy plan8 noise]> [plan8]
    /\ length prods = Z.to_nat 3
    /\ (NoDup (prod_id <$> plan8) -> NoDup (prod_id <$> prods)).
Proof.
  apply (weighted_many_draw (sampler "weighted") 0 plan8 3
           (mkWorld [plan8] stream8 [] [])).
  - reflexivity.
  - reflexivity.
  - lia.
  - simpl. lia.
  - apply (bool_decide_unpack _). vm_compute. exact I.
  - repeat (apply Forall_cons; split;
              [split; [by vm_compute|right; split; by vm_compute]|]).
    by apply Forall_nil.
  - vm_compute. lia.
  - vm_compute. reflexivity.
Defined.

(** C2 as stated fails on small groups: with n = 2 on a group of three rows
    the draw of five raises ValueError. *)
Lemma weighted_two_of_three_raises :
  fst (sample_on "weighted" plan3 2 [3; 1; 4; 1; 5; 9]%N) = Raise ValueError.
Proof. vm_compute. reflexivity. Qed.

(** ** Inversion of successful runs *)

Lemma bind_Ok_inv {A B} (m : M A) (k : A -> M B) (w w' : World) (b : B) :
  (m ≫= k) w = (Ok b, w') ->
  exists a w1, m w = (Ok a, w1) /\ k a w1 = (Ok b, w').
Proof.
  rewrite bind_run. destruct (m w) as [[a|e] w1]; [eauto|done].
Qed.

Lemma choice_elem_of {A} (k : nat) (cands xs : list A) (w w' : World) :
  choice k cands w = (Ok xs, w') -> forall x, x ∈ xs -> x ∈ cands.
Proof.
  revert cands xs w w'. induction k as [|k IH]; intros cands xs w w' H x Hx.
  - injection H as <- _. by apply not_elem_of_nil in Hx.
  - simpl in H. apply bind_Ok_inv in H as (r & w1 & _ & H).
    destruct (cands !! _) as [y|] eqn:Hy; cycle 1.
    { injection H as <- _. by apply not_elem_of_nil in Hx. }
    apply bind_Ok_inv in H as (ys & w2 & Hrec & H). injection H as <- _.
    apply elem_of_cons in Hx as [->|Hx].
    + eapply list_elem_of_lookup_2, Hy.
    + specialize (IH _ _ _ _ Hrec x Hx).
      by apply list_elem_of_delete_inv in IH.
Qed.

Lemma sample_elem_of (n : Z) (weights : option (list Q)) (df xs : DataFrame)
    (w w' : World) :
  sample n weights df w = (Ok xs, w') -> forall x, x ∈ xs -> x ∈ df.
Proof.
  unfold sample. intros H x Hx. destruct weights as [ws|].
  - repeat match type of H with
           | (if ?c then _ else _) _ = _ => destruct c eqn:?; [done|]
           end.
    apply negb_false_iff, Nat.eqb_eq in Heqb.
    eapply drawn_from_elem_of; [by apply candidates_drawn_from|].
    eapply choice_elem_of; eauto.
  - repeat match type of H with
           | (if ?c then _ else _) _ = _ => destruct c eqn:?; [done|]
           end.
    eapply choice_elem_of; eauto.
Qed.

Lemma draw_at_max_elem_of (k : Z) (wdf top : DataFrame) (w w' : World) :
  draw_at_max k wdf w = (Ok top, w') -> forall r, r ∈ top -> r ∈ wdf.
Proof.
  unfold draw_at_max. intros H r Hr.
  apply bind_Ok_inv in H as (ws & w1 & _ & H).
  apply bind_Ok_inv in H as (drawn & w2 & Hs & H).
  apply bind_Ok_inv in H as (dws & w3 & _ & H). injection H as <- _.
  apply elem_of_rows_at_max in Hr as (m & v & i & _ & _ & Hi & _).
  eapply sample_elem_of; [exact Hs|]. eapply list_elem_of_lookup_2, Hi.
Qed.

Lemma draw_positive_inv (plan : loc) (df wdf pos : DataFrame) (w w' : World) :
  heap w !! plan = Some df ->
  draw_positive plan w = (Ok (wdf, pos), w') ->
  wdf = written df (rng w) /\ (forall r, r ∈ pos -> r ∈ wdf).
Proof.
  intros Hplan H. unfold draw_positive in H.
  rewrite bind_run, (write_weight_run _ _ _ Hplan) in H.
  apply bind_Ok_inv in H as (top & w2 & Htop & H).
  apply bind_Ok_inv in H as (p & w3 & Hp & H). injection H as <- <- _.
  split; [done|]. intros r Hr.
  eapply draw_at_max_elem_of; [exact Htop|].
  eapply sample_elem_of; eauto.
Qed.

(** ** Negatives that all tie *)

Lemma Qsum_zero (l : list Q) :
  Forall (fun x => (x == 0)%Q) l -> (Qsum l == 0)%Q.
Proof.
  induction 1 as [|x l Hx _ IH]; simpl; [reflexivity|]. rewrite Hx, IH. lra.
Qed.

(** pandas refuses weights that sum to zero, whatever the size asked. *)
Lemma sample_zero_weights (n : Z) (ws : list Q) (df : DataFrame) (w : World) :
  length ws = length df ->
  Forall (fun x => (x == 0)%Q) ws ->
  sample n (Some ws) df w = (Raise ValueError, w).
Proof.
  intros Hlen Hz. unfold sample. rewrite Hlen, Nat.eqb_refl. cbn [negb].
  assert (existsb (fun x => Qltb x 0) ws = false) as ->.
  { apply not_true_iff_false. intros H.
    apply existsb_exists in H as (x & Hx & E). apply Qltb_lt in E.
    rewrite Forall_forall in Hz. apply list_elem_of_In, Hz in Hx. lra. }
  assert (Qeq_bool (Qsum ws) 0 = true) as ->; [|done].
  by apply Qeq_bool_iff, Qsum_zero.
Qed.

Lemma tied_negative_weights (rem : DataFrame) (ews : list Q) :
  Forall2 (fun r x => weight r = Some x) rem ews ->
  all_tied rem = true ->
  Forall (fun x => (x == 0)%Q) (negative_weights ews).
Proof.
  intros Hf2 Ht. destruct Hf2 as [|r0 x0 rem ews H0 Hf2]; [constructor|].
  assert (Hsame : Forall (fun x => (x0 == x)%Q) (x0 :: ews)).
  { constructor; [reflexivity|]. simpl in Ht. rewrite forallb_forall in Ht.
    apply Forall_forall. intros x Hx.
    apply list_elem_of_lookup in Hx as [i Hi].
    destruct (Forall2_lookup_r _ _ _ _ _ Hf2 Hi) as (r & Hr & Hrx).
    apply list_elem_of_lookup_2, list_elem_of_In, Ht in Hr.
    unfold same_weight in Hr. rewrite H0, Hrx in Hr.
    by apply Qeq_bool_iff. }
  unfold negative_weights.
  destruct (col_max (x0 :: ews)) as [m|] eqn:Hm; [|constructor].
  assert (Hmx : (m == x0)%Q).
  { apply col_max_attained, Exists_exists in Hm as (y & Hy & E).
    rewrite Forall_forall in Hsame. rewrite <- E. symmetry. by apply Hsame. }
  apply Forall_fmap. eapply Forall_impl; [exact Hsame|].
  intros x Hx. unfold compose. cbv beta in Hx. apply b64_zero. lra.
Qed.

(** C8. In weighted sampling with n > 1 and n different from the size of
    the group, once the positive is chosen, if the rows that remain all
    carry the same weight then the negative-sampling weights
    (max_remaining_weight - own_weight) are one zero for each remaining row.
    Nothing stands between that and the weighted draw: the draw is reached
    in the world the choice of the positive left, with weights that match
    the frame in number, none of them negative, and of total zero; pandas
    rejects that total with ValueError whatever the count asked, and
    [sample_prods] lets the exception through. *)
Theorem negatives_all_tied_raise (self : Dataset) (plan : loc)
    (df wdf : DataFrame) (pos : Row) (n : Z) (w w' : World) :
  sampling_method self = "weighted" ->
  (1 < n)%Z ->
  heap w !! plan = Some df ->
  Z.of_nat (length df) <> n ->
  draw_positive plan w = (Ok (wdf, [pos]), w') ->
  all_tied (List.filter (fun x => negb (Z.eqb (label x) (label pos))) wdf) = true ->
  exists rem ews,
    rem = List.filter (fun x => negb (Z.eqb (label x) (label pos))) wdf
    /\ drop_label (label pos) wdf w' = (Ok rem, w')
    /\ mapM weight rem = Some ews
    /\ length (negative_weights ews) = length rem
    /\ Forall (fun x => (x == 0)%Q) (negative_weights ews)
    /\ (Qsum (negative_weights ews) == 0)%Q
    /\ (forall k, sample k (Some (negative_weights ews)) rem w'
                  = (Raise ValueError, w'))
    /\ sample_prods self plan n w = (Raise ValueError, w').
Proof.
  intros Hm Hn Hplan Hlen Hpos Htied.
  destruct (draw_positive_inv _ _ _ _ _ _ Hplan Hpos) as [Hwdf Hin].
  specialize (Hin pos ltac:(left)).
  set (rem := List.filter _ wdf) in *.
  assert (Hall : Forall (fun r => is_Some (weight r)) rem).
  { eapply Forall_drawn_from; [apply drawn_from_filter|].
    destruct (written_facts df (rng w)) as (noise & ws & Hwr & Hl & _).
    rewrite Hwdf, Hwr. by apply noisy_has_weight. }
  destruct (mapM weight rem) as [ews|] eqn:Hews; cycle 1.
  { assert (is_Some (mapM weight rem)) as [? ?]; [|congruence].
    by apply mapM_is_Some. }
  pose proof (length_mapM _ _ _ Hews) as Hlews.
  apply mapM_Some in Hews as Hf2.
  pose proof (tied_negative_weights rem ews Hf2 Htied) as Hzero.
  assert (Hlnw : length (negative_weights ews) = length rem).
  { unfold negative_weights. destruct ews as [|x ews]; [done|].
    cbn [col_max]. by rewrite length_fmap. }
  assert (Hraise : forall k, sample k (Some (negative_weights ews)) rem w'
                             = (Raise ValueError, w')).
  { intros k. by apply sample_zero_weights. }
  exists rem, ews.
  split; [done|]. split; [by apply drop_label_run|].
  split; [done|]. split; [done|]. split; [done|].
  split; [by apply Qsum_zero|]. split; [done|].
  unfold draw_positive in Hpos.
  apply bind_Ok_inv in Hpos as (wdf' & w1 & Hwrite & Hpos).
  apply bind_Ok_inv in Hpos as (top & w2 & Hdraw & Hpos).
  apply bind_Ok_inv in Hpos as (p & w3 & Hone & Hpos).
  injection Hpos as -> -> ->.
  rewrite sample_prods_many by lia. run_load Hplan.
  destruct (Z.eqb_spec (Z.of_nat (length df)) n); [done|].
  rewrite Hm. cbn [String.eqb Ascii.eqb Bool.eqb].
  rewrite bind_run, Hwrite, bind_run, Hdraw, bind_run, Hone.
  rewrite bind_run. cbn [index_item]. unfold mret at 1, M_ret.
  rewrite bind_run, (drop_label_run pos wdf w' Hin). fold rem.
  rewrite bind_run. unfold column_weight. rewrite Hews.
  unfold mret at 1, M_ret.
  by rewrite bind_run, Hraise.
Qed.

(** Witness of C8: six products that all score 10^9, and a generator that
    gives each its own noise.  In binary64 a noise below 1e-8 vanishes into
    such a score, so all six weights are 10^9; whichever row is the
    positive, the five others tie. *)
Lemma negatives_all_tied_raise_witness :
  exists wdf pos w' rem ews,
    draw_positive 0 (mkWorld [plan6_heavy] stream8 [] [])
      = (Ok (wdf, [pos]), w')
    /\ rem = List.filter (fun x => negb (Z.eqb (label x) (label pos))) wdf
    /\ drop_label (label pos) wdf w' = (Ok rem, w')
    /\ mapM weight rem = Some ews
    /\ length (negative_weights ews) = length rem
    /\ Forall (fun x => (x == 0)%Q) (negative_weights ews)
    /\ (Qsum (negative_weights ews) == 0)%Q
    /\ (forall k, sample k (Some (negative_weights ews)) rem w'
                  = (Raise ValueError, w'))
    /\ sample_on "weighted" plan6_heavy 3 stream8
       = (Raise ValueError, w').
Proof.
  edestruct (negatives_all_tied_raise (sampler "weighted") 0 plan6_heavy)
    with (n := 3%Z)
         (w := mkWorld [plan6_heavy] stream8 [] [])
    as (rem & ews & Hrest).
  - reflexivity.
  - lia.
  - reflexivity.
  - simpl. lia.
  - vm_compute. reflexivity.
  - vm_compute. reflexivity.
  - eexists _, _, _, rem, ews. split; [vm_compute; reflexivity|]. exact Hrest.
Defined.

(** ** The per-plan index and the verification pass *)

(** C7 fails on the code.  The index is built before [verify_meta_data]
    runs and is not rebuilt: after construction over a table whose product
    11 has no image, self.meta has lost the row, the index of plan 1 still
    holds it, and item access on plan 1 reaches it and fails on the image. *)
Lemma index_keeps_row_without_image :
  exists self,
    built matching2 = Some self
    /\ heap (world_after matching2) !! meta self = Some [row 0 100 1 10 1]
    /\ indexed_group self 1 (world_after matching2) = Some meta2
    /\ (exists r, r ∈ meta2
                  /\ isfile (files (world_after matching2))
                            (img_path (img_dir self) (prod_id r)) = false)
    /\ result (getitem self 1 (world_after matching2)) = Raise Cv2Error.
Proof.
  eexists. split; [vm_compute; reflexivity|].
  split; [vm_compute; reflexivity|].
  split; [vm_compute; reflexivity|].
  split; [|vm_compute; reflexivity].
  exists (row 1 101 1 11 2). split; [|vm_compute; reflexivity].
  right. left.
Qed.

(** ** Writes into the index *)

(** C4 fails on the code.  A matching dataset hands the frame of the index
    itself to [sample_prods]; with the weighted strategy the weight column
    is written into it, and stays there after the call. *)
Lemma getitem_writes_weight_into_index :
  exists self item w' g,
    built matching8 = Some self
    /\ indexed_group self 1 (world_after matching8) = Some plan8
    /\ getitem self 1 (world_after matching8) = (Ok item, w')
    /\ indexed_group self 1 w' = Some g
    /\ g <> plan8
    /\ Forall (fun r => is_Some (weight r)) g.
Proof.
  eexists _, _, _, _. split; [vm_compute; reflexivity|].
  split; [vm_compute; reflexivity|].
  split; [vm_compute; reflexivity|].
  split; [vm_compute; reflexivity|].
  split; [discriminate|].
  repeat constructor; by eexists.
Qed.

(** ** The length after the verification pass *)

(** C9 as stated fails for a discrimination dataset: its length counts the
    plans recorded before the pass.  One of the three rows of the only plan
    has no image; the row leaves self.meta, the length is 1 before and after,
    and the warning reports 1 -> 1. *)
Lemma discrim_length_not_one_less :
  exists self,
    built discrim3 = Some self
    /\ length plan3 = 3
    /\ heap (world_after discrim3) !! meta self
       = Some [row 0 100 1 10 1; row 1 102 1 12 3]
    /\ result (len self (world_after discrim3)) = Ok 1
    /\ warned (world_after discrim3) = [mkWarning 1 1].
Proof.
  eexists. repeat split; vm_compute; reflexivity.
Qed.

Lemma alloc_groups_run (m : DataFrame) (keys : list Z) (w : World) :
  exists g extra,
    alloc_groups m keys w = (Ok g, with_heap (heap w ++ extra) w).
Proof.
  revert w. induction keys as [|k keys IH]; intros w.
  - exists ∅, []. simpl. unfold mret, M_ret. rewrite app_nil_r. by destruct w.
  - simpl. rewrite bind_run. unfold alloc at 1.
    destruct (IH (with_heap (heap w ++ [List.filter (fun r => Z.eqb (plan_id r) k) m]) w))
      as (g & extra & Hrun).
    rewrite bind_run, Hrun.
    eexists _, (_ :: extra). unfold mret, M_ret. simpl.
    by rewrite <- app_assoc.
Qed.

Lemma filter_none {A} (f : A -> bool) (l : list A) :
  Forall (fun x => f x = false) l -> List.filter f l = [].
Proof.
  induction 1 as [|x l Hx _ IH]; simpl; [done|]. by rewrite Hx.
Qed.

Lemma filter_only {A} (f : A -> bool) (l1 l2 : list A) (x : A) :
  Forall (fun y => f y = false) (l1 ++ l2) -> f x = true ->
  List.filter f (l1 ++ x :: l2) = [x].
Proof.
  intros [H1 H2]%Forall_app Hx. rewrite List.filter_app. simpl.
  by rewrite Hx, (filter_none _ _ H1), (filter_none _ _ H2).
Qed.

Lemma filter_all_but {A} (f : A -> bool) (l1 l2 : list A) (x : A) :
  Forall (fun y => f y = true) (l1 ++ l2) -> f x = false ->
  List.filter f (l1 ++ x :: l2) = l1 ++ l2.
Proof.
  intros [H1 H2]%Forall_app Hx. rewrite List.filter_app. simpl. rewrite Hx.
  rewrite !filter_all; [done|..]; intros y Hy; rewrite Forall_forall in *; auto.
Qed.

Lemma NoDup_label_middle (l1 l2 : DataFrame) (r : Row) :
  NoDup (label <$> (l1 ++ r :: l2)) ->
  Forall (fun x => label x <> label r) (l1 ++ l2).
Proof.
  rewrite fmap_app, fmap_cons. intros H.
  apply NoDup_app in H as (_ & H1 & H2). apply NoDup_cons in H2 as [H2 _].
  apply Forall_app. split; apply Forall_forall; intros x Hx E.
  - apply (H1 (label x)); [by apply list_elem_of_fmap_2|]. rewrite E. left.
  - apply H2. rewrite <- E. by apply list_elem_of_fmap_2.
Qed.

(** The verification pass of a matching dataset whose table has exactly one
    row without image. *)
Lemma verify_meta_data_run (self : Dataset) (l1 l2 : DataFrame) (r : Row)
    (w : World) :
  is_row_count (variant self) = true ->
  heap w !! meta self = Some (l1 ++ r :: l2) ->
  NoDup (label <$> (l1 ++ r :: l2)) ->
  isfile (files w) (img_path (img_dir self) (prod_id r)) = false ->
  Forall (fun x => isfile (files w) (img_path (img_dir self) (prod_id x)) = true)
         (l1 ++ l2) ->
  verify_meta_data self w =
    (Ok (false, with_meta (length (heap w)) self),
     with_warned
       (warned w ++ [mkWarning (length (l1 ++ r :: l2)) (length (l1 ++ l2))])
       (with_heap (heap w ++ [reset_index (l1 ++ l2)]) w)).
Proof.
  intros Hv Hmeta Hnd Hr Hrest. unfold verify_meta_data.
  run_load Hmeta. rewrite bind_run. cbn [get_files].
  rewrite (filter_only _ l1 l2 r); cycle 1.
  { eapply Forall_impl; [exact Hrest|]. intros x ->. done. }
  { by rewrite Hr. }
  cbn [length Nat.ltb Nat.leb].
  rewrite bind_run. unfold len at 1. rewrite Hv. run_load Hmeta.
  unfold mret at 1, M_ret. rewrite bind_run.
  unfold drop_labels. cbn [fmap list_fmap forallb].
  assert (existsb (fun x => Z.eqb (label x) (label r)) (l1 ++ r :: l2) = true) as ->.
  { apply existsb_exists. exists r. split; [|apply Z.eqb_refl].
    apply in_or_app. right. by left. }
  cbn [andb]. unfold mret at 1, M_ret.
  rewrite (filter_all_but _ l1 l2 r); cycle 1.
  { eapply Forall_impl; [exact (NoDup_label_middle _ _ _ Hnd)|].
    intros x Hx. simpl. rewrite orb_false_r.
    by apply negb_true_iff, Z.eqb_neq. }
  { simpl. by rewrite Z.eqb_refl. }
  rewrite bind_run. unfold alloc at 1. rewrite bind_run.
  unfold len at 1. cbn [variant with_meta]. rewrite Hv.
  rewrite bind_run. unfold load at 1. cbn [meta heap with_heap].
  rewrite list_lookup_middle by done.
  unfold mret at 1, M_ret. rewrite bind_run. unfold warn at 1.
  rewrite length_reset_index. reflexivity.
Qed.

(** C9, as the code has it.  For a matching dataset (SemanticMatchingDataset,
    SemanticMatchingEvalDataset: the length is the number of rows of
    self.meta) built from a table with unique index labels in which exactly
    one row has no image file, construction succeeds, the row is dropped
    from self.meta (which is renumbered), one warning is issued with the
    counts before and after, and the length of the dataset is the original
    length minus one. *)
Theorem init_drops_row_without_image (v : Variant) (meta0 l1 l2 : DataFrame)
    (r : Row) (dir method : string) (w : World) :
  is_row_count v = true ->
  recognised method = true ->
  meta0 = l1 ++ r :: l2 ->
  NoDup (label <$> meta0) ->
  isfile (files w) (img_path dir (prod_id r)) = false ->
  Forall (fun x => isfile (files w) (img_path dir (prod_id x)) = true) (l1 ++ l2) ->
  exists self w',
    init v meta0 dir method w = (Ok self, w')
    /\ heap w' !! meta self = Some (reset_index (set_weight None <$> (l1 ++ l2)))
    /\ warned w' = warned w ++ [mkWarning (length meta0) (length meta0 - 1)]
    /\ len self w' = (Ok (length meta0 - 1), w').
Proof.
  intros Hv Hrec -> Hnd Hr Hrest.
  set (m1 := set_weight None <$> l1). set (m2 := set_weight None <$> l2).
  set (r' := set_weight None r).
  assert (Hm : set_weight None <$> (l1 ++ r :: l2) = m1 ++ r' :: m2).
  { by rewrite fmap_app, fmap_cons. }
  unfold init. rewrite Hrec. cbn [negb].
  rewrite bind_run. unfold alloc at 1. rewrite Hm.
  set (w1 := with_heap _ w).
  assert (H1 : heap w1 !! length (heap w) = Some (m1 ++ r' :: m2)).
  { subst w1. simpl. by rewrite list_lookup_middle. }
  run_load H1. rewrite bind_run. unfold groupby_plan_id.
  destruct (alloc_groups_run (m1 ++ r' :: m2)
              (merge_sort Z.le (unique (plan_id <$> m1 ++ r' :: m2))) w1)
    as (g & extra & ->).
  set (self := mkDataset _ _ _ _ _ _).
  set (w2 := with_heap _ w1).
  assert (H2 : heap w2 !! meta self = Some (m1 ++ r' :: m2)).
  { subst w2 self w1. simpl. rewrite lookup_app_l.
    - by rewrite list_lookup_middle.
    - rewrite length_app. simpl. lia. }
  rewrite bind_run, (verify_meta_data_run self m1 m2 r' w2 Hv H2); cycle 1.
  { rewrite <- Hm, <- list_fmap_compose.
    by rewrite (list_fmap_ext (label ∘ set_weight None) label _ (fun _ _ _ => eq_refl)). }
  { done. }
  { subst m1 m2. rewrite <- fmap_app. apply Forall_fmap.
    eapply Forall_impl; [exact Hrest|]. done. }
  eexists _, _. split; [reflexivity|].
  assert (Hlen : length (m1 ++ m2) = length (l1 ++ r :: l2) - 1).
  { subst m1 m2. rewrite !length_app, !length_fmap. simpl. lia. }
  split; [|split].
  - simpl. rewrite list_lookup_middle by done.
    subst m1 m2. by rewrite fmap_app.
  - simpl. rewrite <- Hlen. do 3 f_equal.
    subst m1 m2 r'. rewrite !length_app. simpl. by rewrite !length_fmap.
  - unfold len.
    change (is_row_count (variant (with_meta _ self))) with (is_row_count v).
    rewrite Hv, bind_run. unfold load. cbn [meta with_meta heap with_warned with_heap].
    rewrite list_lookup_middle by done.
    unfold mret, M_ret. by rewrite length_reset_index, Hlen.
Qed.

(** Witness of C9 as amended: the table of two products, product 11 without
    image. *)
Lemma init_drops_row_without_image_witness :
  exists self w',
    matching2 = (Ok self, w')
    /\ heap w' !! meta self
       = Some (reset_index (set_weight None <$> ([row 0 100 1 10 1] ++ [])))
    /\ warned w' = [] ++ [mkWarning (length meta2) (length meta2 - 1)]
    /\ len self w' = (Ok (length meta2 - 1), w').
Proof.
  apply (init_drops_row_without_image (SemanticMatchingDataset (3 # 10)) meta2
           [row 0 100 1 10 1] [] (row 1 101 1 11 2) "img" "sequential"
           (world0 [] files2)).
  - reflexivity.
  - reflexivity.
  - reflexivity.
  - apply (bool_decide_unpack _). vm_compute. exact I.
  - vm_compute. reflexivity.
  - repeat constructor.
Defined.

(** ** What a call leaves behind *)

Section leaves.
Context (P : relation World) `{!Reflexive P, !Transitive P}.

Lemma leaves_ret {A} (a : A) : leaves P (mret a : M A).
Proof. intros w. simpl. reflexivity. Qed.

Lemma leaves_raise {A} (e : exn) : leaves P (raise e : M A).
Proof. intros w. simpl. reflexivity. Qed.

Lemma leaves_bind {A B} (m : M A) (k : A -> M B) :
  leaves P m -> (forall a, leaves P (k a)) -> leaves P (m ≫= k).
Proof.
  intros Hm Hk w. rewrite bind_run. specialize (Hm w).
  destruct (m w) as [[a|e] w1]; simpl in *; [|done].
  etransitivity; [exact Hm|apply Hk].
Qed.
End leaves.

Lemma leaves_weaken {A} (P Q : relation World) (m : M A) :
  (forall w w', P w w' -> Q w w') -> leaves P m -> leaves Q m.
Proof. intros H Hm w. apply H, Hm. Qed.

#[local] Instance only_rng_reflexive : Reflexive only_rng.
Proof. exact only_rng_refl. Qed.

#[local] Instance only_rng_transitive : Transitive only_rng.
Proof. exact only_rng_trans. Qed.

#[local] Instance frame_reflexive plan : Reflexive (frame plan).
Proof. by repeat split. Qed.

#[local] Instance frame_transitive plan : Transitive (frame plan).
Proof.
  intros w1 w2 w3 (?&?&?&H12) (?&?&?&H23).
  repeat split; try congruence. intros l Hl. rewrite H23, H12; done.
Qed.

Lemma only_rng_frame (plan : loc) (w w' : World) :
  only_rng w w' -> frame plan w w'.
Proof. intros (Hh&?&?). repeat split; try done; by rewrite Hh. Qed.

Lemma only_rng_leaves_frame {A} (plan : loc) (m : M A) :
  leaves only_rng m -> leaves (frame plan) m.
Proof. apply leaves_weaken, only_rng_frame. Qed.

Create HintDb leaves.

#[local] Hint Resolve only_rng_leaves_frame : leaves.

(** What is already known is used first; then branches and pattern matches
    are split and binds are taken apart. *)
Ltac leaves_step :=
  first
    [ assumption
    | solve [auto with leaves]
    | apply leaves_ret; tc_solve
    | apply leaves_raise; tc_solve
    | apply leaves_bind; [tc_solve | | intros ?]
    | match goal with
      | |- leaves _ (if ?c then _ else _) => destruct c
      | |- leaves _ (match ?x with _ => _ end) => destruct x
      end ].

Lemma load_leaves (l : loc) : leaves only_rng (load l).
Proof. intros w. unfold load. by destruct (heap w !! l). Qed.

Lemma next_rand_leaves : leaves only_rng next_rand.
Proof. intros w. apply only_rng_with_rng. Qed.

Lemma uniform_leaves (k : nat) : leaves only_rng (uniform k).
Proof.
  induction k as [|k IH]; cbn [uniform]; repeat leaves_step;
    auto using next_rand_leaves.
Qed.

Lemma choice_leaves {A} (k : nat) (cands : list A) :
  leaves only_rng (choice k cands).
Proof.
  revert cands. induction k as [|k IH]; intros cands; cbn [choice];
    repeat leaves_step; auto using next_rand_leaves.
Qed.

Lemma sample_leaves (n : Z) (ws : option (list Q)) (df : DataFrame) :
  leaves only_rng (sample n ws df).
Proof. unfold sample. repeat leaves_step; apply choice_leaves. Qed.

Lemma column_weight_leaves (df : DataFrame) : leaves only_rng (column_weight df).
Proof. unfold column_weight. repeat leaves_step. Qed.

Lemma drop_weight_leaves (df : DataFrame) : leaves only_rng (drop_weight df).
Proof. unfold drop_weight. repeat leaves_step. Qed.

Lemma drop_label_leaves (l : Z) (df : DataFrame) : leaves only_rng (drop_label l df).
Proof. unfold drop_label. repeat leaves_step. Qed.

Lemma index_item_leaves (df : DataFrame) : leaves only_rng (index_item df).
Proof. unfold index_item. repeat leaves_step. Qed.

Lemma sort_values_weight_leaves (df : DataFrame) :
  leaves only_rng (sort_values_weight df).
Proof.
  unfold sort_values_weight. repeat leaves_step. apply column_weight_leaves.
Qed.

Lemma draw_at_max_leaves (k : Z) (df : DataFrame) : leaves only_rng (draw_at_max k df).
Proof.
  unfold draw_at_max. repeat leaves_step;
    auto using column_weight_leaves, sample_leaves.
Qed.

Lemma store_leaves (plan : loc) (df : DataFrame) : leaves (frame plan) (store plan df).
Proof.
  intros w. simpl. repeat split; [apply length_insert|].
  intros l Hl. by apply list_lookup_insert_ne.
Qed.

Lemma write_weight_leaves (plan : loc) : leaves (frame plan) (write_weight plan).
Proof.
  unfold write_weight. repeat leaves_step;
    auto using store_leaves, only_rng_leaves_frame, load_leaves, uniform_leaves.
Qed.

#[local] Hint Resolve store_leaves write_weight_leaves : leaves.

#[local] Hint Resolve load_leaves sample_leaves column_weight_leaves
  drop_weight_leaves drop_label_leaves index_item_leaves
  sort_values_weight_leaves draw_at_max_leaves : leaves.

(** [sample_prods] writes nowhere but into the frame it is given; it leaves
    the files and the warnings alone, whether it returns or raises. *)
Theorem sample_prods_frame (self : Dataset) (plan : loc) (n : Z) :
  leaves (frame plan) (sample_prods self plan n).
Proof.
  unfold sample_prods. repeat leaves_step.
Qed.

(** Without the weighted strategy, [sample_prods] writes nothing at all. *)
Theorem sample_prods_reads_only (self : Dataset) (plan : loc) (n : Z) :
  sampling_method self <> "weighted" ->
  leaves only_rng (sample_prods self plan n).
Proof.
  intros Hm. unfold sample_prods.
  destruct (String.eqb_spec (sampling_method self) "weighted") as [|_]; [done|].
  repeat leaves_step; auto with leaves.
Qed.

Lemma load_prod_img_leaves (self : Dataset) (x : Z) :
  leaves only_rng (load_prod_img self x).
Proof. unfold load_prod_img. repeat leaves_step. intros w. by repeat split. Qed.

#[local] Hint Resolve load_prod_img_leaves : leaves.

Lemma load_all_leaves (self : Dataset) (prods : DataFrame) :
  leaves only_rng (load_all self prods).
Proof.
  induction prods as [|r prods IH]; cbn [load_all]; repeat leaves_step.
Qed.

Lemma stack_leaves (l : list string) : leaves only_rng (stack l).
Proof. unfold stack. repeat leaves_step. Qed.

Lemma as_series_leaves (v : pyval) : leaves only_rng (as_series v).
Proof. unfold as_series. repeat leaves_step. Qed.

Lemma as_frame_leaves (v : pyval) : leaves only_rng (as_frame v).
Proof. unfold as_frame. repeat leaves_step. Qed.

Lemma binomial1_leaves (p : Q) : leaves only_rng (binomial1 p).
Proof. unfold binomial1. repeat leaves_step. apply next_rand_leaves. Qed.

#[local] Hint Resolve load_all_leaves stack_leaves
  as_series_leaves as_frame_leaves binomial1_leaves : leaves.

#[local] Hint Resolve sample_prods_frame : leaves.

(** A computation that first copies the group and then works on the copy
    changes no object that was there before. *)
Lemma copy_then_keeps {A} (group : loc) (k : loc -> M A) (w : World) :
  (forall plan, leaves (frame plan) (k plan)) ->
  files (snd ((g ← load group; plan ← alloc (reset_index g); k plan) w)) = files w
  /\ warned (snd ((g ← load group; plan ← alloc (reset_index g); k plan) w))
     = warned w
  /\ keeps_objects w
       (snd ((g ← load group; plan ← alloc (reset_index g); k plan) w)).
Proof.
  intros Hk. rewrite bind_run. unfold load.
  destruct (heap w !! group) as [g|]; [|by repeat split].
  rewrite bind_run. unfold alloc.
  destruct (Hk (length (heap w)) (with_heap (heap w ++ [reset_index g]) w))
    as (Hf & Hw & _ & Hh).
  split; [done|split; [done|]]. intros l Hl.
  rewrite Hh by lia. simpl. by rewrite lookup_app_l.
Qed.

(** X20. Item access, seen from the heap.  A matching dataset can change no
    object but the frame the index holds for the plan asked; a
    discrimination dataset changes no object that existed before the call
    (it works on a frame of its own).  Neither touches the files or the
    warnings. *)
Theorem getitem_frame (self : Dataset) (pid : Z) (w : World) :
  files (snd (getitem self pid w)) = files w
  /\ warned (snd (getitem self pid w)) = warned w
  /\ (is_row_count (variant self) = true ->
      forall l, meta_access_by_plan_id self !! pid <> Some l ->
                heap (snd (getitem self pid w)) !! l = heap w !! l)
  /\ (is_discrim (variant self) = true ->
      keeps_objects w (snd (getitem self pid w))).
Proof.
  unfold getitem.
  destruct (negb _); [by repeat split|].
  destruct (meta_access_by_plan_id self !! pid) as [group|]; [|by repeat split].
  unfold is_discrim.
  destruct (variant self) as [p|k|k| |k]; cbn [is_row_count negb].
  1, 4:
    match goal with
    | |- context [snd (?m ?w0)] =>
        assert (leaves (frame group) m) as H by (repeat leaves_step);
        destruct (H w0) as (Hf & Hw & _ & Hh)
    end;
    (split; [done|split; [done|split; [|done]]]);
    intros _ l Hl; apply Hh; congruence.
  all:
    edestruct (@copy_then_keeps Item group) as (Hf & Hw & Hk); cycle 1;
    [split; [exact Hf|split; [exact Hw|split; [done|intros _; exact Hk]]]|];
    intros plan; repeat leaves_step.
Qed.

(** ** When the written weights are distinct *)

Lemma elem_of_noisy (df : DataFrame) (noise : list Q) (r' : Row) :
  Forall in_noise_range noise ->
  r' ∈ noisy df noise ->
  exists r u, r ∈ df /\ in_noise_range u
              /\ r' = set_weight (Some (b64 (score r + u))) r.
Proof.
  intros Hrange Hin. unfold noisy, assign_weight in Hin.
  apply elem_of_lookup_zip_with in Hin as (i & r & v & -> & Hr & Hv).
  apply lookup_zip_with_Some in Hv as (r0 & u & -> & Hr0 & Hu).
  assert (r0 = r) as -> by congruence.
  exists r, u. split; [eapply list_elem_of_lookup_2, Hr|split; [|done]].
  rewrite Forall_forall in Hrange. eapply Hrange, list_elem_of_lookup_2, Hu.
Qed.

(** ** Every outcome of a draw *)

(** A draw either raises ValueError, leaving the world alone, or hands back
    as many rows as asked, taken at distinct positions. *)
Lemma sample_cases (n : Z) (ws : option (list Q)) (df : DataFrame) (w : World) :
  sample n ws df w = (Raise ValueError, w)
  \/ exists xs w',
      sample n ws df w = (Ok xs, w') /\ only_rng w w'
      /\ length xs = Z.to_nat n /\ (0 <= n)%Z /\ drawn_from xs df.
Proof.
  unfold sample. destruct ws as [ws|].
  - destruct (negb (length ws =? length df)) eqn:Hlen; [by left|].
    apply negb_false_iff, Nat.eqb_eq in Hlen.
    destruct (existsb _ ws); [by left|].
    destruct (Qeq_bool _ _); [by left|].
    destruct (Z.ltb_spec n 0); [by left|].
    destruct (Z.ltb_spec (Z.of_nat (length df)) n); [by left|].
    destruct (Z.ltb_spec (Z.of_nat (length (candidates ws df))) n); [by left|].
    right. destruct (choice_run (Z.to_nat n) (candidates ws df) w)
      as (xs & w' & Hrun & Hw & Hl & Hd); [lia|].
    exists xs, w'. repeat split; try done; try apply Hw.
    eapply drawn_from_trans; [exact Hd|by apply candidates_drawn_from].
  - destruct (Z.ltb_spec n 0); [by left|].
    destruct (Z.ltb_spec (Z.of_nat (length df)) n); [by left|].
    right. destruct (choice_run (Z.to_nat n) df w)
      as (xs & w' & Hrun & Hw & Hl & Hd); [lia|].
    exists xs, w'. repeat split; try done; apply Hw.
Qed.

Lemma column_weight_run (df : DataFrame) (w : World) :
  Forall (fun r => is_Some (weight r)) df ->
  exists ws, column_weight df w = (Ok ws, w)
             /\ Forall2 (fun r x => weight r = Some x) df ws.
Proof.
  intros Hall. unfold column_weight.
  destruct (mapM weight df) as [ws|] eqn:Hws.
  - exists ws. split; [done|]. by apply mapM_Some.
  - assert (is_Some (mapM weight df)) as [? ?]; [|congruence].
    by apply mapM_is_Some.
Qed.

Lemma written_has_weight (df : DataFrame) (g : list N) :
  Forall (fun r => is_Some (weight r)) (written df g).
Proof.
  destruct (written_facts df g) as (noise & ws & -> & Hl & _).
  by apply noisy_has_weight.
Qed.

Lemma elem_of_written (df : DataFrame) (g : list N) (r : Row) :
  r ∈ written df g -> exists r0 x, r0 ∈ df /\ r = set_weight (Some x) r0.
Proof.
  destruct (written_facts df g) as (noise & ws & -> & Hl & Hrange & _).
  intros Hr. apply (elem_of_noisy _ _ _ Hrange) in Hr as (r0 & u & ? & _ & ->).
  eauto.
Qed.

Lemma length_written (df : DataFrame) (g : list N) :
  length (written df g) = length df.
Proof.
  unfold written. apply length_assign_weight.
  unfold jitter. rewrite length_zip_with, length_noise_of. lia.
Qed.

(** The draw of [k] > 0 rows by weight and the selection at the maximum:
    ValueError, or a non-empty selection among the rows of the frame. *)
Lemma draw_at_max_cases (k : Z) (wdf : DataFrame) (w : World) :
  Forall (fun r => is_Some (weight r)) wdf ->
  (0 < k)%Z ->
  draw_at_max k wdf w = (Raise ValueError, w)
  \/ exists top w',
      draw_at_max k wdf w = (Ok top, w') /\ only_rng w w'
      /\ top <> [] /\ (forall r, r ∈ top -> r ∈ wdf)
      /\ (k <= Z.of_nat (length wdf))%Z.
Proof.
  intros Hall Hk. unfold draw_at_max.
  destruct (column_weight_run wdf w Hall) as (ws & Hws & _).
  rewrite bind_run, Hws.
  destruct (sample_cases k (Some ws) wdf w)
    as [Hs|(drawn & w' & Hs & Hw & Hl & _ & Hd)];
    rewrite bind_run, Hs; [by left|right].
  assert (Forall (fun r => is_Some (weight r)) drawn) as Hdall
    by (eapply Forall_drawn_from; eauto).
  destruct (column_weight_run drawn w' Hdall) as (dws & Hdws & Hf2).
  rewrite bind_run, Hdws.
  exists (rows_at_max dws drawn), w'. split; [done|split; [done|split; [|split]]].
  - apply rows_at_max_nonempty; [by apply Forall2_length in Hf2|].
    destruct drawn; [simpl in Hl; lia|done].
  - intros r Hr. apply elem_of_rows_at_max in Hr as (m & v & i & _ & _ & Hi & _).
    eapply drawn_from_elem_of; [exact Hd|]. eapply list_elem_of_lookup_2, Hi.
  - apply drawn_from_length in Hd. lia.
Qed.

Lemma elem_of_reset_index (df : DataFrame) (r : Row) :
  r ∈ reset_index df -> exists r1, r1 ∈ df /\ cells r = cells r1 /\ weight r = weight r1.
Proof.
  unfold reset_index. intros H.
  apply elem_of_lookup_imap in H as (i & r1 & -> & Hi).
  exists r1. split; [eapply list_elem_of_lookup_2, Hi|done].
Qed.

Lemma elem_of_sort_values_target (df : DataFrame) (r : Row) :
  r ∈ sort_values_target df ->
  exists r1, r1 ∈ df /\ cells r = cells r1 /\ weight r = weight r1.
Proof.
  unfold sort_values_target. intros H.
  apply elem_of_reset_index in H as (r1 & H & ? & ?).
  exists r1. split; [|done].
  apply list_elem_of_fmap in H as ([v r2] & -> & H).
  rewrite nargsort_desc_perm in H.
  apply list_elem_of_fmap in H as (r3 & [= -> ->] & H). done.
Qed.

Lemma row_of_group_same (df : DataFrame) (r r1 : Row) :
  r1 ∈ df -> cells r = cells r1 -> weight r = weight r1 -> row_of_group df r.
Proof.
  intros H1 Hc Hw. exists r1. split; [done|split; [|by right]].
  destruct r, r1. unfold cells, set_label, set_weight in *. simpl in *.
  congruence.
Qed.

Lemma row_of_group_written (df : DataFrame) (g : list N) (r : Row) :
  r ∈ written df g -> row_of_group df (set_weight None r).
Proof.
  intros H. apply elem_of_written in H as (r0 & x & H0 & ->).
  exists r0. split; [done|split; [done|by left]].
Qed.

Lemma rows_of_squeeze (df : DataFrame) : rows_of (squeeze df) = df.
Proof. by destruct df as [|? [|??]]. Qed.

Lemma filter_shorter {A} (f : A -> bool) (l : list A) (x : A) :
  x ∈ l -> f x = false -> length (List.filter f l) < length l.
Proof.
  induction l as [|y l IH]; intros Hx Hf; [by apply not_elem_of_nil in Hx|].
  simpl. pose proof (drawn_from_length _ _ (drawn_from_filter f l)) as Hle.
  apply elem_of_cons in Hx as [->|Hx].
  - rewrite Hf. lia.
  - specialize (IH Hx Hf). destruct (f y); simpl; lia.
Qed.

Lemma cells_unweighted (r r1 : Row) :
  cells r = cells r1 ->
  cells (set_weight None (set_weight None r)) = cells (set_weight None r1).
Proof.
  destruct r, r1. unfold cells, set_label, set_weight. simpl. congruence.
Qed.

(** The weighted branch for n = 1, every outcome. *)
Lemma weighted_one_outcome (plan : loc) (df : DataFrame) (w : World) :
  heap w !! plan = Some df ->
  match (wdf ← write_weight plan;
         prod ← draw_at_max 7 wdf;
         prod ← drop_weight prod;
         prod ← sample 1 None prod;
         mret (squeeze prod)) w with
  | (Raise e, _) => e = ValueError
  | (Ok v, _) =>
      exists r, v = PSeries r /\ row_of_group df r /\ weight r = None
                /\ 7 <= length df
  end.
Proof.
  intros Hplan. rewrite bind_run, (write_weight_run _ _ _ Hplan).
  set (wdf := written df (rng w)). set (w1 := with_heap _ _).
  destruct (draw_at_max_cases 7 wdf w1 (written_has_weight _ _) ltac:(lia))
    as [Hd|(top & w2 & Hd & _ & Hne & Hsub & Hlen)];
    rewrite bind_run, Hd; [done|].
  assert (Forall (fun r => is_Some (weight r)) top) as Hall.
  { apply Forall_forall. intros r Hr. apply Hsub in Hr.
    pose proof (written_has_weight df (rng w)) as H.
    rewrite Forall_forall in H. by apply H. }
  rewrite bind_run, (drop_weight_run _ _ Hall).
  destruct (sample_one_run (set_weight None <$> top) w2)
    as (r' & w3 & Hone & _ & Hr'); [by destruct top|].
  rewrite bind_run, Hone. cbn [squeeze]. unfold mret, M_ret.
  apply list_elem_of_fmap in Hr' as (r1 & -> & Hr1).
  exists (set_weight None r1). split; [done|split; [|split; [done|]]].
  - by apply (row_of_group_written df (rng w)), Hsub.
  - unfold wdf in Hlen. rewrite length_written in Hlen. lia.
Qed.

(** The weighted branch for n > 1, every outcome. *)
Lemma weighted_many_outcome (plan : loc) (df : DataFrame) (n : Z) (w : World) :
  heap w !! plan = Some df ->
  (1 < n)%Z ->
  match (wdf ← write_weight plan;
         pos_prod ← draw_at_max 5 wdf;
         pos_prod ← sample 1 None pos_prod;
         l ← index_item pos_prod;
         plan_except_pos ← drop_label l wdf;
         ews ← column_weight plan_except_pos;
         neg_prods ← sample (n - 1) (Some (negative_weights ews)) plan_except_pos;
         prods ← sort_values_weight (pos_prod ++ neg_prods);
         prods ← drop_weight prods;
         mret (PFrame prods)) w with
  | (Raise e, _) => e = ValueError
  | (Ok v, _) =>
      exists prods, v = PFrame prods
                    /\ Forall (fun r => row_of_group df r /\ weight r = None) prods
                    /\ length prods = Z.to_nat n
                    /\ (n <= Z.of_nat (length df))%Z
                    /\ 5 <= length df
  end.
Proof.
  intros Hplan Hn. rewrite bind_run, (write_weight_run _ _ _ Hplan).
  set (wdf := written df (rng w)). set (w1 := with_heap _ _).
  pose proof (written_has_weight df (rng w)) as Hall. fold wdf in Hall.
  destruct (draw_at_max_cases 5 wdf w1 Hall ltac:(lia))
    as [Hd|(top & w2 & Hd & _ & Hne & Hsub & Hlen)];
    rewrite bind_run, Hd; [done|].
  destruct (sample_one_run top w2 Hne) as (pos & w3 & Hone & _ & Hpos).
  rewrite bind_run, Hone, bind_run. cbn [index_item]. unfold mret at 1, M_ret.
  apply Hsub in Hpos.
  rewrite bind_run, (drop_label_run pos wdf w3 Hpos).
  set (rem := List.filter _ wdf).
  assert (Hrem : drawn_from rem wdf) by apply drawn_from_filter.
  assert (Hallrem : Forall (fun r => is_Some (weight r)) rem)
    by (eapply Forall_drawn_from; eauto).
  destruct (column_weight_run rem w3 Hallrem) as (ews & Hews & _).
  rewrite bind_run, Hews.
  destruct (sample_cases (n - 1) (Some (negative_weights ews)) rem w3)
    as [Hs|(negs & w4 & Hs & _ & Hlneg & _ & Hdneg)];
    rewrite bind_run, Hs; [done|].
  assert (Hpn : forall r, r ∈ pos :: negs -> r ∈ wdf).
  { intros r [->|Hr]%elem_of_cons; [done|].
    eapply drawn_from_elem_of; [exact Hrem|].
    eapply drawn_from_elem_of; eauto. }
  assert (Hallpn : Forall (fun r => is_Some (weight r)) (pos :: negs)).
  { apply Forall_forall. intros r Hr. rewrite Forall_forall in Hall. auto. }
  destruct (sort_values_weight_run (pos :: negs) w4 Hallpn)
    as (sorted & Hsort & Hsperm & _).
  rewrite bind_run. cbn [app]. rewrite Hsort.
  assert (Hallsorted : Forall (fun r => is_Some (weight r)) (reset_index sorted)).
  { apply Forall_weight_reset_index. by rewrite Hsperm. }
  rewrite bind_run, (drop_weight_run _ _ Hallsorted). unfold mret, M_ret.
  assert (Hshort : length rem < length wdf).
  { apply (filter_shorter _ _ pos); [done|]. by rewrite Z.eqb_refl. }
  pose proof (drawn_from_length _ _ Hdneg) as Hnl.
  unfold wdf in Hshort, Hlen. rewrite length_written in Hshort, Hlen.
  eexists. split; [done|split; [|split; [|split]]].
  - apply Forall_forall. intros r Hr.
    apply list_elem_of_fmap in Hr as (r2 & -> & Hr2).
    apply elem_of_reset_index in Hr2 as (r1 & Hr1 & Hc & _).
    rewrite Hsperm in Hr1. apply Hpn, elem_of_written in Hr1 as (r0 & x & H0 & ->).
    split; [|done]. exists r0. split; [done|split; [|by left]].
    by rewrite (cells_unweighted _ _ Hc).
  - rewrite length_fmap, length_reset_index, Hsperm. simpl. lia.
  - lia.
  - lia.
Qed.

Lemma recognised_false (method : string) :
  method <> "random" -> method <> "weighted" -> method <> "sequential" ->
  recognised method = false.
Proof.
  intros H1 H2 H3. unfold recognised.
  destruct (String.eqb_spec method "weighted"); [done|].
  destruct (String.eqb_spec method "random"); [done|].
  by destruct (String.eqb_spec method "sequential").
Qed.

Lemma size_as_asked_exact (method : string) (df rows : DataFrame) (n : Z) :
  (1 <= n)%Z -> length rows = Z.to_nat n -> (n <= Z.of_nat (length df))%Z ->
  size_as_asked method df n rows.
Proof.
  intros Hn Hl Hle. unfold size_as_asked.
  destruct (Z.eqb_spec n (-1)); [lia|].
  destruct (Z.ltb_spec n 1); [lia|]. by left.
Qed.

Lemma Forall_row_of_group_sub (df xs : DataFrame) :
  (forall r, r ∈ xs -> exists r1, r1 ∈ df /\ cells r = cells r1
                                  /\ weight r = weight r1) ->
  Forall (row_of_group df) xs.
Proof.
  intros H. apply Forall_forall. intros r Hr.
  destruct (H r Hr) as (r1 & ? & ? & ?). by eapply row_of_group_same.
Qed.

(** Every outcome of [sample_prods] on a group [df]. *)
Lemma sample_prods_outcome (self : Dataset) (plan : loc) (df : DataFrame)
    (n : Z) (w : World) :
  heap w !! plan = Some df ->
  match sample_prods self plan n w with
  | (Raise e, _) =>
      e = ValueError
      \/ (e = NotImplementedError /\ recognised (sampling_method self) = false)
  | (Ok v, _) =>
      Forall (row_of_group df) (rows_of v)
      /\ size_as_asked (sampling_method self) df n (rows_of v)
      /\ (sampling_method self = "weighted" ->
          (n = 1%Z -> 7 <= length df)
          /\ ((1 < n)%Z -> Z.of_nat (length df) <> n -> 5 <= length df))
      /\ shape_as_asked n v
  end.
Proof.
  intros Hplan. unfold sample_prods.
  destruct (Z.eqb_spec n (-1)) as [->|Hn1].
  { run_load Hplan. unfold mret, M_ret. cbn [rows_of].
    split; [|split; [|split; [intros _; split; [done|lia]|by left]]].
    - apply Forall_row_of_group_sub, elem_of_sort_values_target.
    - unfold size_as_asked. simpl. apply sort_values_target_length. }
  destruct (Z.eqb_spec n 1) as [->|Hn2].
  { destruct (String.eqb_spec (sampling_method self) "random") as [Hm|Hm1].
    { run_load Hplan.
      destruct (sample_cases 1 None df w) as [Hs|(xs & w' & Hs & _ & Hl & _ & Hd)];
        rewrite bind_run, Hs; [by left|].
      unfold mret, M_ret. rewrite rows_of_squeeze.
      split; [|split; [|split; [rewrite Hm; done|by destruct xs as [|? [|??]]]]].
      - apply Forall_row_of_group_sub. intros r Hr. exists r.
        split; [eapply drawn_from_elem_of; eauto|done].
      - apply size_as_asked_exact; [lia|done|].
        apply drawn_from_length in Hd. lia. }
    destruct (String.eqb_spec (sampling_method self) "weighted") as [Hm|Hm2].
    { pose proof (weighted_one_outcome plan df w Hplan) as H.
      match type of H with
      | match ?t with _ => _ end => destruct t as [[v|e] w']
      end; [|by left].
      destruct H as (r & -> & Hr & _ & Hlen). cbn [rows_of].
      split; [by constructor|split; [|split; [intros _; split; [done|lia]|done]]].
      apply size_as_asked_exact; [lia|done|lia]. }
    destruct (String.eqb_spec (sampling_method self) "sequential") as [Hm|Hm3].
    { run_load Hplan.
      destruct (sample_cases 1 None (rows_at_max (score <$> df) df) w)
        as [Hs|(xs & w' & Hs & _ & Hl & _ & Hd)];
        rewrite bind_run, Hs; [by left|].
      unfold mret, M_ret. rewrite rows_of_squeeze.
      assert (Hsub : forall r, r ∈ xs -> r ∈ df).
      { intros r Hr. apply (drawn_from_elem_of _ _ _ Hd) in Hr.
        apply elem_of_rows_at_max in Hr as (m & v & i & _ & _ & Hi & _).
        eapply list_elem_of_lookup_2, Hi. }
      split; [|split; [|split; [rewrite Hm; done|by destruct xs as [|? [|??]]]]].
      - apply Forall_row_of_group_sub. intros r Hr. exists r. auto.
      - apply size_as_asked_exact; [lia|done|].
        destruct xs as [|x xs]; [simpl in Hl; lia|].
        specialize (Hsub x ltac:(left)). destruct df; [|simpl; lia].
        by apply not_elem_of_nil in Hsub. }
    right. split; [done|]. by apply recognised_false. }
  destruct (Z.gtb_spec n 1) as [Hn3|Hn3]; cycle 1.
  { unfold mret, M_ret. cbn [rows_of].
    split; [constructor|split; [|split; [intros _; split; lia|]]].
    - unfold size_as_asked. destruct (Z.eqb_spec n (-1)); [done|].
      destruct (Z.ltb_spec n 1); [done|lia].
    - simpl. lia. }
  run_load Hplan.
  destruct (Z.eqb_spec (Z.of_nat (length df)) n) as [Hlen|Hlen].
  { unfold mret, M_ret. cbn [rows_of].
    split; [|split; [|split; [intros _; split; [lia|done]|right; lia]]].
    - apply Forall_row_of_group_sub, elem_of_sort_values_target.
    - apply size_as_asked_exact; [lia| |lia].
      rewrite sort_values_target_length. lia. }
  destruct (String.eqb_spec (sampling_method self) "random") as [Hm|Hm1].
  { destruct (sample_cases n None df w) as [Hs|(xs & w' & Hs & _ & Hl & _ & Hd)];
      rewrite bind_run, Hs; [by left|].
    unfold mret, M_ret. cbn [rows_of].
    split; [|split; [|split; [rewrite Hm; done|right; lia]]].
    - apply Forall_row_of_group_sub. intros r Hr.
      apply elem_of_sort_values_target in Hr as (r1 & Hr1 & ? & ?).
      exists r1. split; [eapply drawn_from_elem_of; eauto|done].
    - apply size_as_asked_exact; [lia| |].
      + by rewrite sort_values_target_length.
      + apply drawn_from_length in Hd. lia. }
  destruct (String.eqb_spec (sampling_method self) "weighted") as [Hm|Hm2].
  { pose proof (weighted_many_outcome plan df n w Hplan ltac:(lia)) as H.
    match type of H with
    | match ?t with _ => _ end => destruct t as [[v|e] w']
    end; [|by left].
    destruct H as (prods & -> & Hall & Hl & Hle & H5). cbn [rows_of].
    split; [|split; [|split; [intros _; split; [lia|done]|right; lia]]].
    - eapply Forall_impl; [exact Hall|]. by intros r [? _].
    - apply size_as_asked_exact; [lia|done|done]. }
  destruct (String.eqb_spec (sampling_method self) "sequential") as [Hm|Hm3].
  { unfold mret, M_ret. cbn [rows_of].
    split; [|split; [|split; [rewrite Hm; done|right; lia]]].
    - apply Forall_row_of_group_sub. intros r Hr.
      apply elem_of_take in Hr as (i & Hi & _).
      apply list_elem_of_lookup_2, elem_of_sort_values_target in Hi. done.
    - unfold size_as_asked.
      destruct (Z.eqb_spec n (-1)); [lia|]. destruct (Z.ltb_spec n 1); [lia|].
      rewrite length_take, sort_values_target_length.
      destruct (Z.le_gt_cases n (Z.of_nat (length df))); [left|right];
        repeat split; try done; lia. }
  right. split; [done|]. by apply recognised_false.
Qed.

(** ** The sampler as a whole *)

(** X1. Whatever the count and the strategy, and whether it returns or
    raises, [sample_prods] changes no object but the frame it is given, adds
    and removes no object, and leaves the files and the warnings alone. *)
Theorem sample_prods_touches_only_plan (self : Dataset) (plan : loc) (n : Z)
    (w : World) :
  files (snd (sample_prods self plan n w)) = files w
  /\ warned (snd (sample_prods self plan n w)) = warned w
  /\ length (heap (snd (sample_prods self plan n w))) = length (heap w)
  /\ forall l, l <> plan ->
               heap (snd (sample_prods self plan n w)) !! l = heap w !! l.
Proof. exact (sample_prods_frame self plan n w). Qed.

(** X2. With a strategy other than "weighted", [sample_prods] writes
    nothing at all: the heap after the call is the heap before it. *)
Theorem sample_prods_writes_nothing (self : Dataset) (plan : loc) (n : Z)
    (w : World) :
  sampling_method self <> "weighted" ->
  heap (snd (sample_prods self plan n w)) = heap w.
Proof.
  intros Hm. by destruct (sample_prods_reads_only self plan n Hm w) as [? _].
Qed.

Lemma sample_prods_writes_nothing_witness :
  heap (snd (sample_on "random" plan8 3 [3; 1; 4]%N)) = [plan8].
Proof.
  apply (sample_prods_writes_nothing (sampler "random") 0 3
           (mkWorld [plan8] [3; 1; 4]%N [] [])).
  discriminate.
Defined.

(** X3. On a group that exists, with one of the three strategies the
    constructor accepts, the only exception [sample_prods] raises is
    ValueError: the weight column is always there when it is read, the label
    of the positive is always found, and NotImplementedError is out of
    reach. *)
Theorem sample_prods_raises_only_ValueError (self : Dataset) (plan : loc)
    (df : DataFrame) (n : Z) (w : World) :
  heap w !! plan = Some df ->
  recognised (sampling_method self) = true ->
  match fst (sample_prods self plan n w) with
  | Raise e => e = ValueError
  | Ok _ => True
  end.
Proof.
  intros Hplan Hrec.
  pose proof (sample_prods_outcome self plan df n w Hplan) as H.
  destruct (sample_prods self plan n w) as [[v|e'] w']; [done|]. simpl.
  destruct H as [H|[_ H]]; [done|congruence].
Qed.

Lemma sample_prods_raises_only_ValueError_witness :
  match fst (sample_on "weighted" plan6_flat 3 []) with
  | Raise e => e = ValueError
  | Ok _ => True
  end.
Proof.
  apply (sample_prods_raises_only_ValueError (sampler "weighted") 0 plan6_flat 3
           (mkWorld [plan6_flat] [] [] [])).
  - reflexivity.
  - reflexivity.
Defined.

(** X4. On a group without weight column, every row [sample_prods] returns
    is a row of the group (up to its index label), and none carries a weight
    column: the synthetic column never leaks into a result, whatever the
    count and the strategy. *)
Theorem sample_prods_returns_group_rows (self : Dataset) (plan : loc)
    (df : DataFrame) (n : Z) (w : World) (v : pyval) :
  heap w !! plan = Some df ->
  Forall (fun r => weight r = None) df ->
  fst (sample_prods self plan n w) = Ok v ->
  Forall (fun r => weight r = None
                   /\ exists r0, r0 ∈ df /\ cells r = cells r0) (rows_of v).
Proof.
  intros Hplan Hnone Hv.
  pose proof (sample_prods_outcome self plan df n w Hplan) as H.
  destruct (sample_prods self plan n w) as [[v'|e'] w']; [|done].
  simpl in Hv. injection Hv as ->. destruct H as (H & _).
  eapply Forall_impl; [exact H|].
  intros r (r0 & Hr0 & Hc & Hw).
  rewrite Forall_forall in Hnone. specialize (Hnone r0 Hr0).
  assert (weight r = None) as Hwr by (destruct Hw; congruence).
  split; [done|]. exists r0. split; [done|].
  destruct r, r0. unfold cells, set_label, set_weight in *. simpl in *.
  congruence.
Qed.

Lemma sample_prods_returns_group_rows_witness :
  exists v,
    fst (sample_on "weighted" plan8 3 [3; 1; 4; 1; 5; 9; 2; 6; 5; 3; 5; 8]%N) = Ok v
    /\ Forall (fun r => weight r = None
                        /\ exists r0, r0 ∈ plan8 /\ cells r = cells r0)
              (rows_of v).
Proof.
  eexists. split; [vm_compute; reflexivity|].
  apply (sample_prods_returns_group_rows (sampler "weighted") 0 plan8 3
           (mkWorld [plan8] [3; 1; 4; 1; 5; 9; 2; 6; 5; 3; 5; 8]%N [] [])).
  - reflexivity.
  - repeat constructor.
  - vm_compute. reflexivity.
Defined.

(** X5. With the random or the weighted strategy, a call with n >= 1 that
    returns hands back exactly n rows, and the group has at least n: these
    strategies never return a short result. *)
Theorem sample_prods_size (self : Dataset) (plan : loc) (df : DataFrame)
    (n : Z) (w : World) (v : pyval) :
  heap w !! plan = Some df ->
  (1 <= n)%Z ->
  sampling_method self <> "sequential" ->
  fst (sample_prods self plan n w) = Ok v ->
  length (rows_of v) = Z.to_nat n /\ (n <= Z.of_nat (length df))%Z.
Proof.
  intros Hplan Hn Hm Hv.
  pose proof (sample_prods_outcome self plan df n w Hplan) as H.
  destruct (sample_prods self plan n w) as [[v'|e'] w']; [|done].
  simpl in Hv. injection Hv as ->. destruct H as (_ & H & _).
  unfold size_as_asked in H.
  destruct (Z.eqb_spec n (-1)); [lia|]. destruct (Z.ltb_spec n 1); [lia|].
  destruct H as [H|[H _]]; [done|congruence].
Qed.

Lemma sample_prods_size_witness :
  exists v,
    fst (sample_on "random" plan8 3 [3; 1; 4]%N) = Ok v
    /\ length (rows_of v) = Z.to_nat 3 /\ (3 <= Z.of_nat (length plan8))%Z.
Proof.
  eexists. split; [vm_compute; reflexivity|].
  apply (sample_prods_size (sampler "random") 0 plan8 3
           (mkWorld [plan8] [3; 1; 4]%N [] [])).
  - reflexivity.
  - lia.
  - discriminate.
  - vm_compute. reflexivity.
Defined.

(** X6. The weighted strategy needs room for its draws.  With n = 1 it
    raises ValueError on every group of fewer than 7 rows; with n > 1 other
    than the size of the group it raises ValueError on every group of fewer
    than 5 rows. *)
Theorem weighted_small_group_raises (self : Dataset) (plan : loc)
    (df : DataFrame) (n : Z) (w : World) :
  sampling_method self = "weighted" ->
  heap w !! plan = Some df ->
  (n = 1%Z /\ length df < 7)
  \/ ((1 < n)%Z /\ Z.of_nat (length df) <> n /\ length df < 5) ->
  fst (sample_prods self plan n w) = Raise ValueError.
Proof.
  intros Hm Hplan Hsmall.
  pose proof (sample_prods_outcome self plan df n w Hplan) as H.
  destruct (sample_prods self plan n w) as [[v|e] w']; simpl.
  - destruct H as (_ & _ & H & _). destruct (H Hm) as [H1 H2].
    destruct Hsmall as [[-> ?]|(? & ? & ?)]; [specialize (H1 eq_refl)|
      specialize (H2 ltac:(done) ltac:(done))]; lia.
  - destruct H as [->|[_ H]]; [done|]. rewrite Hm in H. done.
Qed.

Lemma weighted_small_group_raises_witness :
  fst (sample_on "weighted" plan3 2 [7; 7; 7]%N) = Raise ValueError.
Proof.
  apply (weighted_small_group_raises (sampler "weighted") 0 plan3 2
           (mkWorld [plan3] [7; 7; 7]%N [] [])).
  - reflexivity.
  - reflexivity.
  - right. simpl. lia.
Defined.

(** X7. Asking for more products than the plan has (n > 1 above the size of
    the group): the random and the weighted strategies raise ValueError,
    the sequential strategy returns the whole group, sorted, without
    complaint. *)
Theorem more_than_available (self : Dataset) (plan : loc) (df : DataFrame)
    (n : Z) (w : World) :
  heap w !! plan = Some df ->
  (1 < n)%Z ->
  (Z.of_nat (length df) < n)%Z ->
  (sampling_method self = "random" \/ sampling_method self = "weighted" ->
   fst (sample_prods self plan n w) = Raise ValueError)
  /\ (sampling_method self = "sequential" ->
      sample_prods self plan n w = (Ok (PFrame (sort_values_target df)), w)).
Proof.
  intros Hplan Hn Hlen. split.
  - intros Hm.
    pose proof (sample_prods_outcome self plan df n w Hplan) as H.
    destruct (sample_prods self plan n w) as [[v|e] w']; simpl.
    + destruct H as (_ & H & _). unfold size_as_asked in H.
      destruct (Z.eqb_spec n (-1)); [lia|]. destruct (Z.ltb_spec n 1); [lia|].
      destruct H as [[_ H]|[H _]]; [lia|]. destruct Hm; congruence.
    + destruct H as [->|[_ H]]; [done|].
      unfold recognised in H. destruct Hm as [Hm|Hm]; rewrite Hm in H; done.
  - intros Hm. rewrite sample_prods_many by lia. run_load Hplan.
    destruct (Z.eqb_spec (Z.of_nat (length df)) n); [lia|].
    rewrite Hm. cbn [String.eqb Ascii.eqb Bool.eqb].
    rewrite take_ge; [done|]. rewrite sort_values_target_length. lia.
Qed.

Lemma more_than_available_witness :
  (sampling_method (sampler "sequential") = "random"
   \/ sampling_method (sampler "sequential") = "weighted" ->
   fst (sample_on "sequential" plan3 5 []) = Raise ValueError)
  /\ (sampling_method (sampler "sequential") = "sequential" ->
      sample_on "sequential" plan3 5 []
      = (Ok (PFrame (sort_values_target plan3)), mkWorld [plan3] [] [] [])).
Proof.
  apply (more_than_available (sampler "sequential") 0 plan3 5
           (mkWorld [plan3] [] [] [])).
  - reflexivity.
  - lia.
  - simpl. lia.
Defined.

(** X8. Sequential sampling with n > 1 returns the top of the ranking: the
    first n rows of the group sorted by target in descending order (all of
    them when the group has fewer), no returned row scoring below a row left
    out.  It draws nothing and writes nothing. *)
Theorem sequential_many_top (self : Dataset) (plan : loc) (df : DataFrame)
    (n : Z) (w : World) :
  sampling_method self = "sequential" ->
  heap w !! plan = Some df ->
  (1 < n)%Z ->
  exists prods rest,
    sample_prods self plan n w = (Ok (PFrame prods), w)
    /\ length prods = Nat.min (Z.to_nat n) (length df)
    /\ descending (score <$> prods)
    /\ cells <$> (prods ++ rest) ≡ₚ cells <$> df
    /\ (forall a b, a ∈ prods -> b ∈ rest -> (score b <= score a)%Q).
Proof.
  intros Hm Hplan Hn.
  set (sorted := sort_values_target df).
  exists (take (Z.to_nat n) sorted), (drop (Z.to_nat n) sorted).
  pose proof (sort_values_target_descending df) as Hdesc. fold sorted in Hdesc.
  rewrite <- (take_drop (Z.to_nat n) sorted), fmap_app in Hdesc.
  split; [|split; [|split; [|split]]].
  - rewrite sample_prods_many by lia. run_load Hplan. fold sorted.
    destruct (Z.eqb_spec (Z.of_nat (length df)) n) as [Hl|Hl].
    + rewrite take_ge; [done|]. unfold sorted.
      rewrite sort_values_target_length. lia.
    + rewrite Hm. reflexivity.
  - rewrite length_take. unfold sorted. by rewrite sort_values_target_length.
  - by apply StronglySorted_app_1_l in Hdesc.
  - rewrite take_drop. apply sort_values_target_cells.
  - intros a b Ha Hb.
    apply (StronglySorted_app_1_elem_of _ _ _ (score a) (score b) Hdesc);
      by apply list_elem_of_fmap_2.
Qed.

Lemma sequential_many_top_witness :
  exists prods rest,
    sample_on "sequential" plan8 3 [] = (Ok (PFrame prods), mkWorld [plan8] [] [] [])
    /\ length prods = Nat.min (Z.to_nat 3) (length plan8)
    /\ descending (score <$> prods)
    /\ cells <$> (prods ++ rest) ≡ₚ cells <$> plan8
    /\ (forall a b, a ∈ prods -> b ∈ rest -> (score b <= score a)%Q).
Proof.
  apply (sequential_many_top (sampler "sequential") 0 plan8 3
           (mkWorld [plan8] [] [] [])).
  - reflexivity.
  - reflexivity.
  - lia.
Defined.

Lemma drawn_from_perm {A} (xs ys l : list A) :
  xs ≡ₚ ys -> drawn_from ys l -> drawn_from xs l.
Proof. intros Hp [rest H]. exists rest. by rewrite Hp. Qed.

(** X9. Random sampling with 1 < n <= size of the group returns n rows of
    the group taken at distinct positions, sorted by target in descending
    order and renumbered; it writes nothing, and no product id comes twice
    when the group has none twice. *)
Theorem random_many_draw (self : Dataset) (plan : loc) (df : DataFrame)
    (n : Z) (w : World) :
  sampling_method self = "random" ->
  heap w !! plan = Some df ->
  (1 < n)%Z ->
  (n <= Z.of_nat (length df))%Z ->
  exists prods w',
    sample_prods self plan n w = (Ok (PFrame prods), w')
    /\ only_rng w w'
    /\ length prods = Z.to_nat n
    /\ descending (score <$> prods)
    /\ drawn_from (cells <$> prods) (cells <$> df)
    /\ (NoDup (prod_id <$> df) -> NoDup (prod_id <$> prods)).
Proof.
  intros Hm Hplan Hn Hle.
  assert (Hpid : forall l : DataFrame, prod_id <$> l = prod_id <$> (cells <$> l)).
  { intros l. by rewrite <- list_fmap_compose. }
  rewrite sample_prods_many by lia. run_load Hplan.
  destruct (Z.eqb_spec (Z.of_nat (length df)) n) as [Hl|Hl].
  - exists (sort_values_target df), w. unfold mret, M_ret.
    split; [done|split; [done|split; [|split; [|split]]]].
    + rewrite sort_values_target_length. lia.
    + apply sort_values_target_descending.
    + eapply drawn_from_perm; [apply sort_values_target_cells|].
      apply drawn_from_refl.
    + intros Hnd. rewrite Hpid, sort_values_target_cells, <- Hpid. done.
  - rewrite Hm. cbn [String.eqb Ascii.eqb Bool.eqb].
    destruct (sample_cases n None df w)
      as [Hs|(xs & w' & Hs & Hw & Hlen & _ & Hd)].
    { exfalso. unfold sample in Hs.
      destruct (Z.ltb_spec n 0); [lia|].
      destruct (Z.ltb_spec (Z.of_nat (length df)) n); [lia|].
      destruct (choice_run (Z.to_nat n) df w) as (? & ? & Hc & _); [lia|].
      congruence. }
    exists (sort_values_target xs), w'. rewrite bind_run, Hs. unfold mret, M_ret.
    split; [done|split; [done|split; [|split; [|split]]]].
    + by rewrite sort_values_target_length.
    + apply sort_values_target_descending.
    + eapply drawn_from_perm; [apply sort_values_target_cells|].
      by apply drawn_from_fmap.
    + intros Hnd. rewrite Hpid, sort_values_target_cells, <- Hpid.
      eapply drawn_from_NoDup; [apply drawn_from_fmap, Hd|done].
Qed.

Lemma random_many_draw_witness :
  exists prods w',
    sample_on "random" plan8 3 [3; 1; 4]%N = (Ok (PFrame prods), w')
    /\ only_rng (mkWorld [plan8] [3; 1; 4]%N [] []) w'
    /\ length prods = Z.to_nat 3
    /\ descending (score <$> prods)
    /\ drawn_from (cells <$> prods) (cells <$> plan8)
    /\ (NoDup (prod_id <$> plan8) -> NoDup (prod_id <$> prods)).
Proof.
  apply (random_many_draw (sampler "random") 0 plan8 3
           (mkWorld [plan8] [3; 1; 4]%N [] [])).
  - reflexivity.
  - reflexivity.
  - lia.
  - simpl. lia.
Defined.

(** ** Construction, in general *)

Lemma unique_acc (acc l : list Z) (x : Z) :
  x ∈ foldl (fun acc x => if existsb (Z.eqb x) acc then acc else acc ++ [x]) acc l
  <-> x ∈ acc \/ x ∈ l.
Proof.
  revert acc. induction l as [|y l IH]; intros acc; simpl.
  - split; [by left|]. intros [?|H]; [done|by apply not_elem_of_nil in H].
  - rewrite IH, elem_of_cons. destruct (existsb (Z.eqb y) acc) eqn:E.
    + apply existsb_exists in E as (z & Hz & ->%Z.eqb_eq).
      apply list_elem_of_In in Hz. intuition (subst; auto).
    + rewrite elem_of_app, list_elem_of_singleton. tauto.
Qed.

Lemma elem_of_unique (l : list Z) (x : Z) : x ∈ unique l <-> x ∈ l.
Proof.
  unfold unique. rewrite unique_acc. split; [|by right].
  intros [H|H]; [by apply not_elem_of_nil in H|done].
Qed.

Lemma unique_acc_NoDup (acc l : list Z) :
  NoDup acc ->
  NoDup (foldl (fun acc x => if existsb (Z.eqb x) acc then acc else acc ++ [x]) acc l).
Proof.
  revert acc. induction l as [|y l IH]; intros acc Hacc; simpl; [done|].
  apply IH. destruct (existsb (Z.eqb y) acc) eqn:E; [done|].
  apply NoDup_app. split; [done|split; [|apply NoDup_singleton]].
  intros z Hz ->%list_elem_of_singleton.
  apply not_true_iff_false in E. apply E, existsb_exists.
  exists y. split; [by apply list_elem_of_In|apply Z.eqb_refl].
Qed.

Lemma unique_NoDup (l : list Z) : NoDup (unique l).
Proof. apply unique_acc_NoDup, NoDup_nil_2. Qed.

(** The groups allocated for [keys]: each key maps to a new object that
    holds the rows of its plan; no other key is bound. *)
Lemma alloc_groups_spec (m : DataFrame) (keys : list Z) (w : World) :
  exists (g : gmap Z loc) (extra : list DataFrame),
    alloc_groups m keys w = (Ok g, with_heap (heap w ++ extra) w)
    /\ (forall k, k ∈ keys ->
          exists l, g !! k = Some l
                    /\ length (heap w) <= l
                    /\ (heap w ++ extra) !! l
                       = Some (List.filter (fun r => Z.eqb (plan_id r) k) m))
    /\ (forall k, k ∉ keys -> g !! k = None).
Proof.
  revert w. induction keys as [|k keys IH]; intros w.
  - exists ∅, []. split; [|split].
    + simpl. unfold mret, M_ret. rewrite app_nil_r. by destruct w.
    + intros k Hk. by apply not_elem_of_nil in Hk.
    + intros k _. apply lookup_empty.
  - set (grp := List.filter (fun r => Z.eqb (plan_id r) k) m).
    destruct (IH (with_heap (heap w ++ [grp]) w)) as (g & extra & Hrun & Hin & Hout).
    exists (<[k := length (heap w)]> g), (grp :: extra). split; [|split].
    + cbn [alloc_groups]. rewrite bind_run. unfold alloc at 1. fold grp.
      rewrite bind_run, Hrun. unfold mret, M_ret. simpl.
      by rewrite <- app_assoc.
    + intros k' Hk'. destruct (decide (k' = k)) as [->|Hne].
      * exists (length (heap w)). rewrite lookup_insert_eq.
        split; [done|split; [done|]]. by rewrite list_lookup_middle.
      * apply elem_of_cons in Hk' as [?|Hk']; [done|].
        destruct (Hin k' Hk') as (l & Hl & Hle & Hh).
        exists l. rewrite lookup_insert_ne by done.
        simpl in Hh, Hle. rewrite length_app in Hle. simpl in Hle.
        split; [done|split; [lia|]].
        by rewrite <- app_assoc in Hh.
    + intros k' Hk'. apply not_elem_of_cons in Hk' as [Hne Hk'].
      rewrite lookup_insert_ne by done. by apply Hout.
Qed.

(** The rows kept by the verification pass all have their image. *)
Lemma kept_have_image (fs : list string) (dir : string) (m : DataFrame) (r : Row) :
  In r (List.filter
          (fun r => negb (existsb (Z.eqb (label r))
                            (label <$> List.filter
                                         (fun r => negb (has_image fs dir r)) m)))
          m) ->
  has_image fs dir r = true.
Proof.
  intros [Hr Hk]%filter_In.
  destruct (has_image fs dir r) eqn:E; [done|exfalso].
  apply negb_true_iff, not_true_iff_false in Hk. apply Hk.
  apply existsb_exists. exists (label r). split; [|apply Z.eqb_refl].
  apply list_elem_of_In, list_elem_of_fmap_2, list_elem_of_In, filter_In.
  by rewrite E.
Qed.

(** With unique labels, the rows kept are exactly the rows with an image. *)
Lemma kept_all_with_image (fs : list string) (dir : string) (m : DataFrame) :
  NoDup (label <$> m) ->
  List.filter
    (fun r => negb (existsb (Z.eqb (label r))
                      (label <$> List.filter (fun r => negb (has_image fs dir r)) m)))
    m
  = List.filter (has_image fs dir) m.
Proof.
  intros Hnd. apply List.filter_ext_in. intros r Hr.
  destruct (has_image fs dir r) eqn:E.
  - apply negb_true_iff, not_true_iff_false. intros H.
    apply existsb_exists in H as (l & Hl & Heq%Z.eqb_eq). subst l.
    apply list_elem_of_In, list_elem_of_fmap in Hl as (r' & Hlab & Hr').
    apply list_elem_of_In, filter_In in Hr' as [Hr' E'].
    assert (r = r') as <-.
    { apply list_elem_of_In, list_elem_of_lookup in Hr as [i Hi].
      apply list_elem_of_In, list_elem_of_lookup in Hr' as [j Hj].
      assert (i = j) as <-; [|congruence].
      apply (NoDup_lookup _ i j (label r) Hnd);
        rewrite list_lookup_fmap; [by rewrite Hi|by rewrite Hj, Hlab]. }
    by rewrite E in E'.
  - apply negb_false_iff, existsb_exists. exists (label r).
    split; [|apply Z.eqb_refl].
    apply list_elem_of_In, list_elem_of_fmap_2, list_elem_of_In, filter_In.
    by rewrite E.
Qed.

(** Both outcomes of the verification pass. *)
Lemma verify_meta_data_cases (self : Dataset) (m : DataFrame) (w : World) :
  heap w !! meta self = Some m ->
  let missing := cannot_found (files w) (img_dir self) m in
  let kept := kept_rows (files w) (img_dir self) m in
  (missing = [] /\ verify_meta_data self w = (Ok (true, self), w))
  \/ (missing <> []
      /\ exists origin dropped,
          verify_meta_data self w =
            (Ok (false, with_meta (length (heap w)) self),
             with_warned (warned w ++ [mkWarning origin dropped])
               (with_heap (heap w ++ [reset_index kept]) w))
          /\ origin = (if is_row_count (variant self) then length m
                       else length (unique_plan_ids self))
          /\ dropped = (if is_row_count (variant self) then length kept
                        else length (unique_plan_ids self))).
Proof.
  intros Hmeta missing kept. unfold verify_meta_data.
  run_load Hmeta. rewrite bind_run. cbn [get_files].
  change (List.filter _ m) with missing.
  assert (Hkept : kept = List.filter
            (fun r => negb (existsb (Z.eqb (label r)) (label <$> missing))) m)
    by done.
  clearbody kept.
  destruct missing as [|r0 rest] eqn:Hmiss; [by left|right].
  split; [done|]. cbn [length Nat.ltb Nat.leb].
  assert (Hdrop : drop_labels (label <$> r0 :: rest) m
                  = fun w0 => (Ok kept, w0)).
  { unfold drop_labels.
    assert (forallb (fun l => existsb (fun r => Z.eqb (label r) l) m)
              (label <$> r0 :: rest) = true) as ->; [|by rewrite Hkept].
    apply forallb_forall. intros l Hl.
    apply list_elem_of_In, list_elem_of_fmap in Hl as (r & -> & Hr).
    apply existsb_exists. exists r. split; [|apply Z.eqb_refl].
    rewrite <- Hmiss in Hr. apply list_elem_of_In, filter_In in Hr. tauto. }
  destruct (is_row_count (variant self)) eqn:Hv.
  - eexists _, _. split; [|split; reflexivity].
    rewrite bind_run. unfold len at 1. rewrite Hv. run_load Hmeta.
    unfold mret at 1, M_ret. rewrite bind_run, Hdrop.
    rewrite bind_run. unfold alloc at 1. rewrite bind_run.
    unfold len at 1.
    change (is_row_count (variant (with_meta _ self))) with (is_row_count (variant self)).
    rewrite Hv, bind_run. unfold load at 1. cbn [meta with_meta heap with_heap].
    rewrite list_lookup_middle by done.
    unfold mret at 1, M_ret. rewrite bind_run. unfold warn at 1.
    by rewrite length_reset_index.
  - eexists _, _. split; [|split; reflexivity].
    rewrite bind_run. unfold len at 1. rewrite Hv.
    unfold mret at 1, M_ret. rewrite bind_run, Hdrop.
    rewrite bind_run. unfold alloc at 1. rewrite bind_run.
    unfold len at 1.
    change (is_row_count (variant (with_meta _ self))) with (is_row_count (variant self)).
    rewrite Hv. unfold mret at 1, M_ret. rewrite bind_run. unfold warn at 1.
    reflexivity.
Qed.

(** Construction with a recognised strategy, step by step: what the object
    holds and what the world has become. *)
Lemma init_run (v : Variant) (meta0 : DataFrame) (dir method : string) (w : World) :
  recognised method = true ->
  let m := set_weight None <$> meta0 in
  exists self w' mm,
    init v meta0 dir method w = (Ok self, w')
    /\ variant self = v /\ img_dir self = dir /\ sampling_method self = method
    /\ unique_plan_ids self = unique (plan_id <$> m)
    /\ (forall k, k ∈ plan_id <$> m ->
          indexed_group self k w'
          = Some (List.filter (fun r => Z.eqb (plan_id r) k) m))
    /\ (forall k, k ∉ plan_id <$> m -> meta_access_by_plan_id self !! k = None)
    /\ rng w' = rng w /\ files w' = files w /\ keeps_objects w w'
    /\ heap w' !! meta self = Some mm
    /\ match cannot_found (files w) dir m with
       | [] => mm = m /\ warned w' = warned w
       | _ :: _ =>
           mm = reset_index (kept_rows (files w) dir m)
           /\ warned w' = warned w ++
                [if is_row_count v
                 then mkWarning (length m) (length (kept_rows (files w) dir m))
                 else mkWarning (length (unique (plan_id <$> m)))
                                (length (unique (plan_id <$> m)))]
       end.
Proof.
  intros Hrec m. unfold init. rewrite Hrec. cbn [negb].
  rewrite bind_run. unfold alloc at 1. fold m.
  set (w1 := with_heap _ w).
  assert (H1 : heap w1 !! length (heap w) = Some m).
  { subst w1. simpl. by rewrite list_lookup_middle. }
  run_load H1. rewrite bind_run. unfold groupby_plan_id.
  destruct (alloc_groups_spec m (merge_sort Z.le (unique (plan_id <$> m))) w1)
    as (g & extra & -> & Hin & Hout).
  set (self := mkDataset _ _ _ _ _ _).
  set (w2 := with_heap _ w1).
  assert (Hkeys : forall k, k ∈ merge_sort Z.le (unique (plan_id <$> m))
                           <-> k ∈ plan_id <$> m).
  { intros k. by rewrite merge_sort_Permutation, elem_of_unique. }
  assert (H2 : heap w2 !! meta self = Some m).
  { subst w2 self w1. simpl. rewrite lookup_app_l.
    - by rewrite list_lookup_middle.
    - rewrite length_app. simpl. lia. }
  assert (Hgrp : forall k (h : list DataFrame), k ∈ plan_id <$> m ->
            (l ← g !! k; (heap w2 ++ h) !! l)
            = Some (List.filter (fun r => Z.eqb (plan_id r) k) m)).
  { intros k h Hk. apply Hkeys in Hk. destruct (Hin k Hk) as (l & -> & _ & Hl).
    simpl. rewrite lookup_app_l; [done|]. by eapply lookup_lt_Some. }
  assert (Hold : forall (h : list DataFrame) l, l < length (heap w) ->
            (heap w2 ++ h) !! l = heap w !! l).
  { intros h l Hl. subst w2 w1. simpl.
    rewrite <- !app_assoc. by rewrite lookup_app_l. }
  rewrite bind_run.
  destruct (verify_meta_data_cases self m w2 H2)
    as [[Hmiss Hv]|(Hmiss & origin & dropped & Hv & -> & ->)]; rewrite Hv.
  - exists self, w2, m. unfold mret, M_ret.
    repeat match goal with |- _ /\ _ => split end; try done.
    + intros k Hk. specialize (Hgrp k [] Hk). rewrite app_nil_r in Hgrp.
      exact Hgrp.
    + intros k Hk. apply Hout. intros H'. by apply Hk, Hkeys.
    + intros l Hl. specialize (Hold [] l Hl). by rewrite app_nil_r in Hold.
    + change (cannot_found (files w) dir m = []) in Hmiss. by rewrite Hmiss.
  - eexists (with_meta (length (heap w2)) self), _, _. unfold mret, M_ret.
    repeat match goal with |- _ /\ _ => split end; try done.
    + intros k Hk. exact (Hgrp k _ Hk).
    + intros k Hk. apply Hout. intros H'. by apply Hk, Hkeys.
    + intros l Hl. apply (Hold _ l Hl).
    + simpl. by rewrite list_lookup_middle.
    + change (cannot_found (files w) dir m <> []) in Hmiss.
      change (kept_rows (files w2) (img_dir self) m)
        with (kept_rows (files w) dir m).
      destruct (cannot_found (files w) dir m) as [|??] eqn:E; [done|].
      split; [done|].
      change (variant self) with v. simpl. by destruct (is_row_count v).
Qed.

Lemma filter_nil_Forall {A} (f : A -> bool) (l : list A) :
  List.filter f l = [] -> Forall (fun x => f x = false) l.
Proof.
  induction l as [|x l IH]; simpl; [constructor|].
  destruct (f x) eqn:E; [done|]. intros H. constructor; auto.
Qed.

Lemma Forall_has_image_reset_index (fs : list string) (dir : string) (l : DataFrame) :
  Forall (fun r => has_image fs dir r = true) l ->
  Forall (fun r => has_image fs dir r = true) (reset_index l).
Proof.
  intros H. apply Forall_forall. intros r Hr.
  apply elem_of_lookup_imap in Hr as (i & r1 & -> & Hi).
  rewrite Forall_forall in H. eapply (H r1), list_elem_of_lookup_2, Hi.
Qed.


(** X11. After construction, every row of self.meta has its image file on
    disk and is a row of the table given (up to the index label, and without
    weight column).  When the index labels of the table are unique, self.meta
    holds exactly the rows of the table that have an image, in the order of
    the table. *)
Theorem init_meta_rows_have_images (v : Variant) (meta0 : DataFrame)
    (dir method : string) (w : World) :
  recognised method = true ->
  exists self w' mm,
    init v meta0 dir method w = (Ok self, w')
    /\ heap w' !! meta self = Some mm
    /\ Forall (fun r => has_image (files w') (img_dir self) r = true) mm
    /\ (forall r, r ∈ mm ->
          exists r0, r0 ∈ meta0 /\ cells r = cells (set_weight None r0))
    /\ (NoDup (label <$> meta0) ->
        cells <$> mm
        = cells <$> List.filter (has_image (files w) dir) (set_weight None <$> meta0)).
Proof.
  intros Hrec.
  destruct (init_run v meta0 dir method w Hrec)
    as (self & w' & mm & H & _ & Hdir & _ & _ & _ & _ & _ & Hf & _ & Hmm & Hcase).
  exists self, w', mm. rewrite Hf, Hdir.
  split; [done|split; [done|]].
  set (m := set_weight None <$> meta0) in *.
  assert (Hlab : label <$> m = label <$> meta0).
  { unfold m. by rewrite <- list_fmap_compose. }
  destruct (cannot_found (files w) dir m) as [|x miss] eqn:E.
  - destruct Hcase as [-> _]. split; [|split].
    + apply filter_nil_Forall in E. eapply Forall_impl; [exact E|].
      intros r Hr. simpl in Hr. by apply negb_false_iff.
    + intros r Hr. apply list_elem_of_fmap in Hr as (r0 & -> & Hr0). eauto.
    + intros _. rewrite filter_all; [done|].
      intros r Hr. apply filter_nil_Forall in E. rewrite Forall_forall in E.
      by apply negb_false_iff, E.
  - destruct Hcase as [-> _]. split; [|split].
    + apply Forall_has_image_reset_index, Forall_forall. intros r Hr.
      by apply list_elem_of_In, kept_have_image in Hr.
    + intros r Hr. apply elem_of_reset_index in Hr as (r1 & Hr1 & Hc & _).
      apply list_elem_of_In, filter_In in Hr1 as [Hr1 _].
      apply list_elem_of_In, list_elem_of_fmap in Hr1 as (r0 & -> & Hr0).
      eauto.
    + intros Hnd. rewrite fmap_reset_index by apply cells_set_label.
      unfold kept_rows, cannot_found. rewrite kept_all_with_image; [done|].
      by rewrite Hlab.
Qed.

Lemma init_meta_rows_have_images_witness :
  exists self w' mm,
    matching2 = (Ok self, w')
    /\ heap w' !! meta self = Some mm
    /\ Forall (fun r => has_image (files w') (img_dir self) r = true) mm
    /\ (forall r, r ∈ mm ->
          exists r0, r0 ∈ meta2 /\ cells r = cells (set_weight None r0))
    /\ (NoDup (label <$> meta2) ->
        cells <$> mm
        = cells <$> List.filter (has_image files2 "img") (set_weight None <$> meta2)).
Proof.
  apply (init_meta_rows_have_images (SemanticMatchingDataset (3 # 10)) meta2
           "img" "sequential" (world0 [] files2)).
  reflexivity.
Defined.

(** X12. The per-plan index built by the constructor covers the whole
    table: a plan id is listed in unique_plan_ids exactly when a row of the
    table carries it, each listed id is bound to a non-empty frame holding
    (in order) all the rows of the table with that plan id, whether or not
    their image exists, and no other id is bound.  No id is listed twice. *)
Theorem init_index_covers_table (v : Variant) (meta0 : DataFrame)
    (dir method : string) (w : World) :
  recognised method = true ->
  exists self w',
    init v meta0 dir method w = (Ok self, w')
    /\ NoDup (unique_plan_ids self)
    /\ (forall k, k ∈ unique_plan_ids self <-> k ∈ plan_id <$> meta0)
    /\ (forall k, k ∈ plan_id <$> meta0 ->
          indexed_group self k w'
          = Some (List.filter (fun r => Z.eqb (plan_id r) k)
                              (set_weight None <$> meta0))
          /\ List.filter (fun r => Z.eqb (plan_id r) k)
                         (set_weight None <$> meta0) <> [])
    /\ (forall k, k ∉ plan_id <$> meta0 ->
          meta_access_by_plan_id self !! k = None).
Proof.
  intros Hrec.
  destruct (init_run v meta0 dir method w Hrec)
    as (self & w' & mm & H & _ & _ & _ & Hids & Hin & Hout & _).
  assert (Hpid : plan_id <$> (set_weight None <$> meta0) = plan_id <$> meta0).
  { by rewrite <- list_fmap_compose. }
  rewrite Hpid in *.
  exists self, w'. split; [done|split; [|split; [|split; [|done]]]].
  - rewrite Hids. apply unique_NoDup.
  - intros k. rewrite Hids. apply elem_of_unique.
  - intros k Hk. split; [by apply Hin|].
    rewrite <- Hpid in Hk. apply list_elem_of_fmap in Hk as (r & -> & Hr).
    intros E.
    assert (In r (List.filter (fun r0 => Z.eqb (plan_id r0) (plan_id r))
                              (set_weight None <$> meta0))) as Hin'.
    { apply filter_In. split; [by apply list_elem_of_In|apply Z.eqb_refl]. }
    by rewrite E in Hin'.
Qed.

Lemma init_index_covers_table_witness :
  exists self w',
    matching2 = (Ok self, w')
    /\ NoDup (unique_plan_ids self)
    /\ (forall k, k ∈ unique_plan_ids self <-> k ∈ plan_id <$> meta2)
    /\ (forall k, k ∈ plan_id <$> meta2 ->
          indexed_group self k w'
          = Some (List.filter (fun r => Z.eqb (plan_id r) k)
                              (set_weight None <$> meta2))
          /\ List.filter (fun r => Z.eqb (plan_id r) k)
                         (set_weight None <$> meta2) <> [])
    /\ (forall k, k ∉ plan_id <$> meta2 ->
          meta_access_by_plan_id self !! k = None).
Proof.
  apply (init_index_covers_table (SemanticMatchingDataset (3 # 10)) meta2
           "img" "sequential" (world0 [] files2)).
  reflexivity.
Defined.

(** X13. The length of a dataset after construction from a table with
    unique index labels: a matching dataset counts the rows of the table
    that have an image; a discrimination dataset counts the distinct plan
    ids of the whole table, images or not. *)
Theorem len_after_init (v : Variant) (meta0 : DataFrame) (dir method : string)
    (w : World) :
  recognised method = true ->
  NoDup (label <$> meta0) ->
  exists self w',
    init v meta0 dir method w = (Ok self, w')
    /\ len self w'
       = (Ok (if is_row_count v
              then length (List.filter (has_image (files w) dir) meta0)
              else length (unique (plan_id <$> meta0))), w').
Proof.
  intros Hrec Hnd.
  destruct (init_run v meta0 dir method w Hrec)
    as (self & w' & mm & H & Hv & _ & _ & Hids & _ & _ & _ & _ & _ & Hmm & Hcase).
  exists self, w'. split; [done|]. unfold len. rewrite Hv.
  set (m := set_weight None <$> meta0) in *.
  destruct (is_row_count v).
  - run_load Hmm. unfold mret, M_ret. do 2 f_equal.
    assert (Hlen : length (List.filter (has_image (files w) dir) m)
                   = length (List.filter (has_image (files w) dir) meta0)).
    { unfold m. by rewrite filter_fmap, length_fmap. }
    rewrite <- Hlen.
    destruct (cannot_found (files w) dir m) as [|x miss] eqn:E.
    + destruct Hcase as [-> _]. rewrite filter_all; [done|].
      intros r Hr. apply filter_nil_Forall in E. rewrite Forall_forall in E.
      by apply negb_false_iff, E.
    + destruct Hcase as [-> _]. rewrite length_reset_index.
      unfold kept_rows, cannot_found. rewrite kept_all_with_image; [done|].
      unfold m. by rewrite <- list_fmap_compose.
  - unfold mret, M_ret. rewrite Hids. unfold m.
    by rewrite <- list_fmap_compose.
Qed.

Lemma len_after_init_witness :
  exists self w',
    discrim3 = (Ok self, w')
    /\ len self w'
       = (Ok (if is_row_count (PreferenceDiscrimDataset 2)
              then length (List.filter (has_image files3 "img") plan3)
              else length (unique (plan_id <$> plan3))), w').
Proof.
  apply (len_after_init (PreferenceDiscrimDataset 2) plan3 "img" "sequential"
           (world0 [] files3)).
  - reflexivity.
  - apply (bool_decide_unpack _). vm_compute. exact I.
Defined.

(** ** Item access, in general *)

Lemma load_prod_img_run (self : Dataset) (x : Z) (w : World) :
  load_prod_img self x w =
    if isfile (files w) (img_path (img_dir self) x)
    then (Ok (img_path (img_dir self) x), w)
    else (Raise Cv2Error, w).
Proof.
  unfold load_prod_img. rewrite bind_run. cbn [get_files].
  by destruct (isfile _ _).
Qed.

Lemma isfile_elem_of (fs : list string) (p : string) :
  isfile fs p = true -> p ∈ fs.
Proof. unfold isfile. apply bool_decide_eq_true_1. Qed.

(** X14. Item access of a matching dataset, every outcome.  On a plan the
    index binds to a frame, with a recognised strategy, the call fails only
    by the assertion on an unlisted plan id, by the ValueError of the draw,
    or on a missing image; when it returns, the text and the single image
    come from one and the same row of the plan's frame, and the image file
    exists. *)
Theorem getitem_matching_outcome (self : Dataset) (pid : Z) (l : loc)
    (g : DataFrame) (w : World) :
  is_row_count (variant self) = true ->
  recognised (sampling_method self) = true ->
  meta_access_by_plan_id self !! pid = Some l ->
  heap w !! l = Some g ->
  match fst (getitem self pid w) with
  | Raise e =>
      (e = AssertionError /\ pid ∉ unique_plan_ids self)
      \/ e = ValueError \/ e = Cv2Error
  | Ok item =>
      exists r, row_of_group g r
                /\ txt_raw item = attrs r
                /\ pri item = [img_path (img_dir self) (prod_id r)]
                /\ img_path (img_dir self) (prod_id r) ∈ files w
  end.
Proof.
  intros Hv Hrec Hidx Hg. unfold getitem.
  destruct (existsb (Z.eqb pid) (unique_plan_ids self)) eqn:Hex; cycle 1.
  { simpl. left. split; [done|]. intros Hin.
    apply not_true_iff_false in Hex. apply Hex, existsb_exists.
    exists pid. split; [by apply list_elem_of_In|apply Z.eqb_refl]. }
  cbn [negb]. rewrite Hidx.
  pose proof (sample_prods_outcome self l g 1 w Hg) as Hout.
  pose proof (sample_prods_frame self l 1 w) as (Hf & _).
  destruct (variant self) as [p|k|k| |k]; try done.
  - rewrite bind_run.
    destruct (sample_prods self l 1 w) as [[v|e] w1].
    2:{ simpl. destruct Hout as [->|[_ H]]; [auto|congruence]. }
    destruct Hout as (Hrows & _ & _ & Hshape).
    destruct v as [|r|f]; simpl in Hshape; try lia.
    apply Forall_cons in Hrows as [Hr _].
    rewrite bind_run. cbn [as_series]. unfold mret at 1, M_ret.
    rewrite bind_run. unfold binomial1. rewrite bind_run.
    unfold next_rand at 1. unfold mret at 1, M_ret.
    rewrite bind_run, load_prod_img_run. cbn [files with_rng].
    simpl in Hf. rewrite Hf.
    destruct (isfile (files w) _) eqn:E; simpl; [|auto].
    exists r. repeat split; try done. by apply isfile_elem_of.
  - rewrite bind_run.
    destruct (sample_prods self l 1 w) as [[v|e] w1].
    2:{ simpl. destruct Hout as [->|[_ H]]; [auto|congruence]. }
    destruct Hout as (Hrows & _ & _ & Hshape).
    destruct v as [|r|f]; simpl in Hshape; try lia.
    apply Forall_cons in Hrows as [Hr _].
    rewrite bind_run. cbn [as_series]. unfold mret at 1, M_ret.
    rewrite bind_run, load_prod_img_run.
    simpl in Hf. rewrite Hf.
    destruct (isfile (files w) _) eqn:E; simpl; [|auto].
    exists r. repeat split; try done. by apply isfile_elem_of.
Qed.

Lemma getitem_matching_outcome_witness :
  match fst (getitem (catalogue8 (SemanticMatchingDataset (3 # 10)) "random")
               1 (shelf8 [5; 2]%N)) with
  | Raise e =>
      (e = AssertionError /\ 1%Z ∉ [1%Z]) \/ e = ValueError \/ e = Cv2Error
  | Ok item =>
      exists r, row_of_group plan8 r
                /\ txt_raw item = attrs r
                /\ pri item = [img_path "img" (prod_id r)]
                /\ img_path "img" (prod_id r) ∈ images8
  end.
Proof.
  apply (getitem_matching_outcome
           (catalogue8 (SemanticMatchingDataset (3 # 10)) "random") 1 1 plan8
           (shelf8 [5; 2]%N)); reflexivity.
Defined.

Lemma load_all_run (self : Dataset) (prods : DataFrame) (w : World) :
  load_all self prods w =
    if forallb (has_image (files w) (img_dir self)) prods
    then (Ok (img_of self <$> prods), w)
    else (Raise Cv2Error, w).
Proof.
  induction prods as [|r rs IH]; [done|].
  cbn [load_all forallb fmap list_fmap]. rewrite bind_run, load_prod_img_run.
  unfold has_image at 1. destruct (isfile _ _); [|done].
  rewrite bind_run, IH. cbn [andb].
  by destruct (forallb _ rs).
Qed.




Lemma size_as_asked_nil (m : string) (g : DataFrame) (n : Z) :
  (n = (-1)%Z \/ (1 < n)%Z) -> size_as_asked m g n [] -> g = [].
Proof.
  unfold size_as_asked. intros Hn H.
  destruct (Z.eqb_spec n (-1)).
  { simpl in H. by destruct g. }
  destruct (Z.ltb_spec n 1); [lia|].
  destruct H as [[H _]|(_ & _ & H)]; simpl in H; [lia|by destruct g].
Qed.




(** X16. What a returned item carries beside its images.  The plan id was
    one of the listed ones and there is at least one image.  An item has a
    desc exactly in the two evaluation datasets; the desc names the plan id
    asked for, its plan attributes are the item's text, and its ids, product
    ids, scores and image paths have one entry for each image.  The scores
    of an ablation item have one entry for each image. *)
Theorem getitem_side_lists (self : Dataset) (pid : Z) (w w' : World)
    (item : Item) :
  getitem self pid w = (Ok item, w') ->
  pid ∈ unique_plan_ids self
  /\ pri item <> []
  /\ (is_Some (item_desc item) <-> is_eval (variant self) = true)
  /\ (forall d, item_desc item = Some d ->
        desc_plan_id d = pid
        /\ desc_plan_attrs d = txt_raw item
        /\ length (desc_id d) = length (pri item)
        /\ length (desc_prod_id d) = length (pri item)
        /\ length (desc_prod_score d) = length (pri item)
        /\ length (desc_pri_path d) = length (pri item))
  /\ (forall s, item_scores item = Some s -> length s = length (pri item)).
Proof.
  unfold getitem. intros H.
  destruct (existsb (Z.eqb pid) (unique_plan_ids self)) eqn:Hex; [|done].
  assert (Hpid : pid ∈ unique_plan_ids self).
  { apply existsb_exists in Hex as (x & Hx & ->%Z.eqb_eq).
    by apply list_elem_of_In. }
  split; [done|]. clear Hex Hpid. cbn [negb] in H.
  destruct (meta_access_by_plan_id self !! pid) as [l|]; [|done].
  destruct (variant self) as [p|k|k| |k]; cbn [is_eval].
  - apply bind_Ok_inv in H as (v & w1 & _ & H).
    apply bind_Ok_inv in H as (r & w2 & _ & H).
    apply bind_Ok_inv in H as (aug & w3 & _ & H).
    apply bind_Ok_inv in H as (img & w4 & _ & H).
    injection H as <- _. cbn.
    split; [done|]. split; [split; [by intros []|done]|]. by split.
  - apply bind_Ok_inv in H as (g & w1 & _ & H).
    apply bind_Ok_inv in H as (plan & w2 & _ & H).
    apply bind_Ok_inv in H as (df & w3 & _ & H).
    apply bind_Ok_inv in H as (v & w4 & _ & H).
    apply bind_Ok_inv in H as (prods & w5 & _ & H).
    apply bind_Ok_inv in H as (imgs & w6 & _ & H).
    apply bind_Ok_inv in H as (imgs' & w7 & Hs & H).
    injection H as <- _. cbn.
    destruct imgs as [|i rest]; [done|]. injection Hs as <- _.
    split; [done|]. split; [split; [by intros []|done]|]. by split.
  - apply bind_Ok_inv in H as (g & w1 & _ & H).
    apply bind_Ok_inv in H as (plan & w2 & _ & H).
    apply bind_Ok_inv in H as (df & w3 & _ & H).
    apply bind_Ok_inv in H as (v & w4 & _ & H).
    apply bind_Ok_inv in H as (prods & w5 & _ & H).
    apply bind_Ok_inv in H as (imgs & w6 & Hl & H).
    apply bind_Ok_inv in H as (imgs' & w7 & Hs & H).
    injection H as <- _. cbn.
    destruct imgs as [|i rest]; [done|]. injection Hs as <- _.
    rewrite load_all_run in Hl. destruct (forallb _ prods); [|done].
    injection Hl as Hl _.
    split; [done|]. split; [split; [by intros []|done]|]. split; [done|].
    intros s [= <-]. rewrite length_fmap.
    by rewrite <- (length_fmap (img_of self) prods), Hl.
  - apply bind_Ok_inv in H as (v & w1 & _ & H).
    apply bind_Ok_inv in H as (r & w2 & _ & H).
    apply bind_Ok_inv in H as (img & w3 & _ & H).
    injection H as <- _. cbn.
    split; [done|]. split; [split; [done|by eexists]|]. split; [|done].
    intros d [= <-]. by cbn.
  - apply bind_Ok_inv in H as (g & w1 & _ & H).
    apply bind_Ok_inv in H as (plan & w2 & _ & H).
    apply bind_Ok_inv in H as (df & w3 & _ & H).
    apply bind_Ok_inv in H as (v & w4 & _ & H).
    apply bind_Ok_inv in H as (prods & w5 & _ & H).
    apply bind_Ok_inv in H as (imgs & w6 & Hl & H).
    apply bind_Ok_inv in H as (imgs' & w7 & Hs & H).
    injection H as <- _. cbn.
    destruct imgs as [|i rest]; [done|]. injection Hs as <- _.
    rewrite load_all_run in Hl. destruct (forallb _ prods); [|done].
    injection Hl as Hl _.
    assert (Hn : length prods = S (length rest)).
    { by rewrite <- (length_fmap (img_of self) prods), Hl. }
    split; [done|]. split; [split; [done|by eexists]|]. split; [|done].
    intros d [= <-]. cbn. by rewrite !length_fmap.
Qed.

Lemma getitem_side_lists_witness :
  exists item w',
    getitem (catalogue8 (PreferenceDiscrimEvalDataset 3) "sequential") 1
      (shelf8_named []) = (Ok item, w')
    /\ 1%Z ∈ [1%Z]
    /\ pri item <> []
    /\ (is_Some (item_desc item) <-> true = true)
    /\ (forall d, item_desc item = Some d ->
          desc_plan_id d = 1%Z
          /\ desc_plan_attrs d = txt_raw item
          /\ length (desc_id d) = length (pri item)
          /\ length (desc_prod_id d) = length (pri item)
          /\ length (desc_prod_score d) = length (pri item)
          /\ length (desc_pri_path d) = length (pri item))
    /\ (forall s, item_scores item = Some s -> length s = length (pri item)).
Proof.
  eexists _, _. split; [vm_compute; reflexivity|].
  eapply (getitem_side_lists
            (catalogue8 (PreferenceDiscrimEvalDataset 3) "sequential") 1
            (shelf8_named [])).
  vm_compute. reflexivity.
Defined.

Lemma length_filter_le {A} (f : A -> bool) (l : list A) :
  length (List.filter f l) <= length l.
Proof.
  induction l as [|x l IH]; simpl; [lia|]. destruct (f x); simpl; lia.
Qed.

(** X17. The verification pass, every outcome.  On a table held by the
    dataset it never raises and never touches the per-plan index, the list
    of plan ids, the settings, the generator, the files or any existing
    frame.  It answers True exactly when every row has its image, and then
    changes nothing.  Otherwise it answers False, binds the table to a new
    frame whose rows all have an image and are labelled 0, 1, 2, ..., and
    issues exactly one warning; the warning of a discrimination dataset
    reports the same count before and after, since its length counts plan
    ids. *)
Theorem verify_meta_data_outcome (self : Dataset) (m : DataFrame) (w : World) :
  heap w !! meta self = Some m ->
  exists ok self' w',
    verify_meta_data self w = (Ok (ok, self'), w')
    /\ (ok = true <-> Forall (fun r => has_image (files w) (img_dir self) r = true) m)
    /\ (ok = true -> self' = self /\ w' = w)
    /\ meta_access_by_plan_id self' = meta_access_by_plan_id self
    /\ unique_plan_ids self' = unique_plan_ids self
    /\ variant self' = variant self
    /\ img_dir self' = img_dir self
    /\ sampling_method self' = sampling_method self
    /\ rng w' = rng w /\ files w' = files w /\ keeps_objects w w'
    /\ (ok = false ->
        meta self' = length (heap w)
        /\ (exists mm,
              heap w' !! meta self' = Some mm
              /\ Forall (fun r => has_image (files w) (img_dir self) r = true) mm
              /\ label <$> mm = Z.of_nat <$> seq 0 (length mm)
              /\ length mm <= length m)
        /\ exists origin dropped,
             warned w' = warned w ++ [mkWarning origin dropped]
             /\ dropped <= origin
             /\ (is_row_count (variant self) = false -> dropped = origin)).
Proof.
  intros Hm.
  destruct (verify_meta_data_cases self m w Hm) as [[Hmiss H]|(Hmiss & o & d & H & Ho & Hd)].
  - exists true, self, w. split; [done|]. split.
    { split; [intros _|done]. apply filter_nil_Forall in Hmiss.
      eapply Forall_impl; [exact Hmiss|]. intros r Hr. simpl in Hr.
      by apply negb_false_iff. }
    repeat (split; [done|]). done.
  - eexists false, _, _. split; [exact H|]. split.
    { split; [done|]. intros Hall. exfalso. apply Hmiss.
      unfold cannot_found. rewrite Forall_forall in Hall.
      clear -Hall. induction m as [|r m IH]; [done|]. simpl.
      rewrite (Hall r) by left. simpl. apply IH. intros x Hx. apply Hall.
      by right. }
    split; [done|]. do 7 (split; [done|]).
    split.
    { intros l Hl. simpl. by rewrite lookup_app_l. }
    intros _. split; [done|]. split.
    + exists (reset_index (kept_rows (files w) (img_dir self) m)).
      split; [simpl; by apply list_lookup_middle|]. split; [|split].
      * apply Forall_has_image_reset_index, Forall_forall. intros r Hr.
        by apply list_elem_of_In, kept_have_image in Hr.
      * by rewrite label_reset_index, length_reset_index.
      * rewrite length_reset_index. apply length_filter_le.
    + exists o, d. split; [done|]. subst o d.
      destruct (is_row_count (variant self)).
      * split; [apply length_filter_le|done].
      * split; [lia|done].
Qed.

Lemma verify_meta_data_outcome_witness :
  exists ok self' w',
    verify_meta_data (catalogue8 (PreferenceDiscrimDataset 3) "random")
      (mkWorld [plan8; plan8] [] files3 []) = (Ok (ok, self'), w')
    /\ (ok = true <-> Forall (fun r => has_image files3 "img" r = true) plan8)
    /\ (ok = true ->
        self' = catalogue8 (PreferenceDiscrimDataset 3) "random"
        /\ w' = mkWorld [plan8; plan8] [] files3 [])
    /\ meta_access_by_plan_id self' = {[1%Z := 1]}
    /\ unique_plan_ids self' = [1%Z]
    /\ variant self' = PreferenceDiscrimDataset 3
    /\ img_dir self' = "img"
    /\ sampling_method self' = "random"
    /\ rng w' = [] /\ files w' = files3
    /\ keeps_objects (mkWorld [plan8; plan8] [] files3 []) w'
    /\ (ok = false ->
        meta self' = 2
        /\ (exists mm,
              heap w' !! meta self' = Some mm
              /\ Forall (fun r => has_image files3 "img" r = true) mm
              /\ label <$> mm = Z.of_nat <$> seq 0 (length mm)
              /\ length mm <= length plan8)
        /\ exists origin dropped,
             warned w' = [] ++ [mkWarning origin dropped]
             /\ dropped <= origin
             /\ (false = false -> dropped = origin)).
Proof.
  apply (verify_meta_data_outcome
           (catalogue8 (PreferenceDiscrimDataset 3) "random") plan8
           (mkWorld [plan8; plan8] [] files3 [])).
  reflexivity.
Defined.

(** ** A weighted draw from a group of exactly seven *)

Lemma noisy_covers (df : DataFrame) (noise : list Q) (r : Row) :
  length noise = length df ->
  Forall in_noise_range noise ->
  r ∈ df ->
  exists u, in_noise_range u
            /\ set_weight (Some (b64 (score r + u))) r ∈ noisy df noise.
Proof.
  intros Hlen Hrange Hr.
  apply list_elem_of_lookup in Hr as [i Hi].
  destruct (lookup_lt_is_Some_2 noise i) as [u Hu].
  { rewrite Hlen. by eapply lookup_lt_Some. }
  exists u. split.
  - rewrite Forall_forall in Hrange. eapply Hrange, list_elem_of_lookup_2, Hu.
  - unfold noisy, assign_weight. apply elem_of_lookup_zip_with.
    exists i, r, (b64 (score r + u)). split; [done|split; [done|]].
    apply lookup_zip_with_Some. eauto.
Qed.

Lemma drawn_from_all {A} (xs l : list A) :
  drawn_from xs l -> length xs = length l -> xs ≡ₚ l.
Proof.
  intros [rest H] Hlen. pose proof (Permutation_length H) as Hl.
  rewrite length_app in Hl. destruct rest; [|simpl in Hl; lia].
  by rewrite app_nil_r in H.
Qed.

(** X18. A weighted draw of one product from a group of exactly seven rows
    whose scores are positive (binary64) numbers of moderate size always
    returns, and returns a best product of the group up to the noise: no
    row of the group has a score above the binary64 sum of 1e-8 and the
    score of the row returned.  (The seven rows drawn are the whole group,
    so the draw decides nothing.) *)
Theorem weighted_one_of_seven (self : Dataset) (plan : loc) (df : DataFrame)
    (w : World) :
  sampling_method self = "weighted" ->
  heap w !! plan = Some df ->
  length df = 7 ->
  Forall (fun r => moderate (score r) /\ (0 < score r)%Q) df ->
  exists r w',
    sample_prods self plan 1 w = (Ok (PSeries (set_weight None r)), w')
    /\ r ∈ df
    /\ forall r', r' ∈ df -> (score r' <= b64 (score r + epsilon))%Q.
Proof.
  intros Hm Hplan Hseven Hpos.
  destruct (written_facts df (rng w))
    as (noise & ws & Hwr & Hlen & Hrange & Hws & Hasg & _ & _ & Hsign).
  assert (Hmod : Forall (fun r => moderate (score r)) df).
  { eapply Forall_impl; [exact Hpos|]. by intros r [? _]. }
  specialize (Hsign Hmod).
  pose proof (write_weight_run plan df w Hplan) as Hwrite.
  rewrite Hwr in Hwrite.
  set (w1 := with_heap _ _) in Hwrite.
  assert (Hlnoisy : length (noisy df noise) = 7).
  { unfold noisy. rewrite length_assign_weight; [lia|].
    rewrite length_zip_with. lia. }
  destruct (draw_at_max_run 7 ws (noisy df noise) w1)
    as (drawn & top & w2 & Hdraw & Hw2 & Hld & Hdf & Htop & Hmax).
  - done.
  - by eapply weights_nonneg.
  - lia.
  - pose proof (candidates_assign_count ws df Hsign) as Hc.
    rewrite filter_all in Hc.
    + rewrite Hasg. simpl. lia.
    + intros r Hr. rewrite Forall_forall in Hpos.
      apply Qltb_lt. by destruct (Hpos r Hr) as (_ & ?).
  - assert (Hperm : drawn ≡ₚ noisy df noise).
    { apply drawn_from_all; [done|]. rewrite Hlnoisy, Hld. reflexivity. }
    assert (Hsome : Forall (fun r => is_Some (weight r)) top).
    { apply Forall_forall. intros r Hr. destruct (Hmax r Hr) as [Hin _].
      pose proof (noisy_has_weight df noise Hlen) as Hall.
      rewrite Forall_forall in Hall.
      eapply Hall, drawn_from_elem_of; eauto. }
    destruct (sample_one_run (set_weight None <$> top) w2)
      as (r' & w3 & Hone & Hw3 & Hr').
    { by destruct top. }
    apply list_elem_of_fmap in Hr' as (r1 & -> & Hr1).
    destruct (Hmax r1 Hr1) as [Hin Hub].
    rewrite Hperm in Hin.
    apply (elem_of_noisy _ _ _ Hrange) in Hin as (r0 & u & Hr0 & Hu & ->).
    exists r0, w3. split; [|split; [done|]].
    + rewrite sample_prods_weighted_one by done.
      rewrite bind_run, Hwrite, bind_run, Hdraw.
      rewrite bind_run, (drop_weight_run _ _ Hsome).
      by rewrite bind_run, Hone.
    + intros r' Hr'.
      destruct (noisy_covers df noise r' Hlen Hrange Hr') as (u' & Hu' & Hin').
      rewrite <- Hperm in Hin'.
      destruct (Hub _ Hin') as (x & y & Hx & Hy & Hxy).
      simpl in Hx, Hy. injection Hx as <-. injection Hy as <-.
      rewrite Forall_forall in Hpos.
      destruct (Hpos r' Hr') as ((Hb' & _) & Hp'). unfold binary64 in Hb'.
      destruct (Hpos r0 Hr0) as (_ & Hp0).
      destruct Hu, Hu'.
      rewrite <- Hb'.
      eapply Qle_trans; [apply (b64_mono (score r') (score r' + u')); lra|].
      eapply Qle_trans; [exact Hxy|].
      apply b64_mono; lra.
Qed.

Lemma weighted_one_of_seven_witness :
  exists r w',
    sample_on "weighted" plan7 1 stream8
      = (Ok (PSeries (set_weight None r)), w')
    /\ r ∈ plan7
    /\ forall r', r' ∈ plan7 -> (score r' <= b64 (score r + epsilon))%Q.
Proof.
  apply (weighted_one_of_seven (sampler "weighted") 0 plan7
           (mkWorld [plan7] stream8 [] [])).
  - reflexivity.
  - reflexivity.
  - reflexivity.
  - repeat (apply Forall_cons; split;
              [split; [split; [by vm_compute|right; split; by vm_compute]
                      |by vm_compute]|]).
    by apply Forall_nil.
Defined.

(** ** Image paths *)

Lemma append_inj_l (s a b : string) : s +:+ a = s +:+ b -> a = b.
Proof. induction s as [|c s IH]; simpl; [done|]. intros [= H]. auto. Qed.

Lemma length_append (a b : string) :
  String.length (a +:+ b) = String.length a + String.length b.
Proof. induction a as [|c a IH]; simpl; [done|]. by rewrite IH. Qed.

Lemma append_inj_r (s a b : string) : a +:+ s = b +:+ s -> a = b.
Proof.
  revert b. induction a as [|c a IH]; intros [|d b] H; simpl in H.
  - done.
  - apply (f_equal String.length) in H. simpl in H.
    rewrite !length_append in H. simpl in H. lia.
  - apply (f_equal String.length) in H. simpl in H.
    rewrite !length_append in H. simpl in H. lia.
  - injection H as -> H. f_equal. auto.
Qed.

Lemma to_int_printable (x : Z) :
  Z.to_int x <> Decimal.Pos Decimal.Nil /\ Z.to_int x <> Decimal.Neg Decimal.Nil.
Proof.
  split; intros H; pose proof (f_equal Z.of_int H) as H0;
    rewrite of_to in H0; simpl in H0; subst x; vm_compute in H; discriminate.
Qed.

Lemma string_of_Z_inj (x y : Z) :
  NilZero.string_of_int (Z.to_int x) = NilZero.string_of_int (Z.to_int y) ->
  x = y.
Proof.
  intros H. apply (f_equal NilZero.int_of_string) in H.
  destruct (to_int_printable x), (to_int_printable y).
  rewrite !NilZero.isi in H by done. injection H as H.
  apply (f_equal Z.of_int) in H. by rewrite !of_to in H.
Qed.

(** The printed number starts with a digit or a sign, never with a slash. *)
Lemma jpg_name_head (x : Z) :
  exists c s, jpg_name x = String c s /\ Ascii.eqb c "/"%char = false.
Proof.
  unfold jpg_name.
  destruct (Z.to_int x) as [[| | | | | | | | | |]|u]; simpl; eauto.
Qed.

(** X19. Two different product ids never name the same image file: under
    one directory, the path of the image is the directory, a separator when
    the directory lacks one, the product id in decimal and the suffix .jpg,
    and the id can be read back from it. *)
Theorem img_path_distinct (dir : string) (x y : Z) :
  x <> y -> img_path dir x <> img_path dir y.
Proof.
  intros Hxy H. apply Hxy. unfold img_path, path_join in H.
  destruct (jpg_name_head x) as (c & s & Hx & Hc).
  destruct (jpg_name_head y) as (d & t & Hy & Hd).
  rewrite Hx, Hy, Hc, Hd in H. rewrite <- Hx, <- Hy in H.
  assert (Hn : jpg_name x = jpg_name y).
  { destruct (String.eqb dir ""); [done|].
    destruct (ends_with_slash dir).
    - by apply append_inj_l in H.
    - by apply append_inj_l, append_inj_l in H. }
  unfold jpg_name in Hn. by apply append_inj_r, string_of_Z_inj in Hn.
Qed.

Lemma img_path_distinct_witness : img_path "img" 10 <> img_path "img" 11.
Proof. apply (img_path_distinct "img" 10 11). lia. Defined.

(** ** Construction followed by item access *)

(** X21. A matching dataset built with the random strategy (and a
    text-augmentation probability within [0, 1]) over a table that has at
    least one text column and in which every row has its image serves every
    plan id of the table: item access returns, wherever the generator
    stands, and leaves frames, files and warnings as they were, so that the
    next access is served as well.  (Without a text column a row is all
    numbers, squeeze() turns its product id into a float, and the image asked
    for is another file.) *)
Theorem init_then_getitem_random (v : Variant) (meta0 : DataFrame)
    (dir : string) (w : World) (pid : Z) :
  is_row_count v = true ->
  probability v ->
  Forall (fun r => attrs r <> []) meta0 ->
  Forall (fun r => has_image (files w) dir r = true) meta0 ->
  pid ∈ plan_id <$> meta0 ->
  exists self w',
    init v meta0 dir "random" w = (Ok self, w')
    /\ forall w1, only_rng w' w1 ->
         exists item w2,
           getitem self pid w1 = (Ok item, w2) /\ only_rng w' w2.
Proof.
  intros Hv _ _ Hall Hpid.
  destruct (init_run v meta0 dir "random" w eq_refl)
    as (self & w' & mm & H & Hvar & Hdir & Hmeth & Hids & Hgrp & _ & _ & Hf & _).
  exists self, w'. split; [done|]. intros w1 (Hh1 & Hf1 & Hw1).
  set (m := set_weight None <$> meta0) in *.
  assert (Hpid' : pid ∈ plan_id <$> m).
  { unfold m. by rewrite <- list_fmap_compose. }
  specialize (Hgrp pid Hpid'). unfold indexed_group in Hgrp.
  destruct (meta_access_by_plan_id self !! pid) as [l|] eqn:Hidx; [|done].
  simpl in Hgrp. rewrite <- Hh1 in Hgrp.
  set (grp := List.filter (fun r => Z.eqb (plan_id r) pid) m) in *.
  assert (Hne : grp <> []).
  { apply list_elem_of_fmap in Hpid' as (r & -> & Hr).
    intros E. assert (Hin : r ∈ grp).
    { apply list_elem_of_In, filter_In. split; [by apply list_elem_of_In|].
      apply Z.eqb_refl. }
    rewrite E in Hin. by apply not_elem_of_nil in Hin. }
  assert (Himg : forall r, r ∈ grp ->
                   isfile (files w1) (img_path (img_dir self) (prod_id r)) = true).
  { intros r Hr. apply list_elem_of_In, filter_In in Hr as [Hr _].
    apply list_elem_of_In, list_elem_of_fmap in Hr as (r0 & -> & Hr0).
    rewrite Forall_forall in Hall. rewrite Hf1, Hf, Hdir.
    exact (Hall r0 Hr0). }
  unfold getitem.
  assert (existsb (Z.eqb pid) (unique_plan_ids self) = true) as ->.
  { apply existsb_exists. exists pid. split; [|apply Z.eqb_refl].
    apply list_elem_of_In. rewrite Hids. by apply elem_of_unique. }
  cbn [negb]. rewrite Hidx, Hvar.
  destruct (sample_one_run grp w1 Hne) as (r & w2 & Hone & (Hh2 & Hf2 & Hw2) & Hr).
  destruct v as [p|k|k| |k]; try done.
  - rewrite bind_run, (sample_prods_random_one _ _ Hmeth).
    run_load Hgrp. rewrite bind_run, Hone. cbn [squeeze]. unfold mret at 1, M_ret.
    rewrite bind_run. cbn [as_series]. unfold mret at 1, M_ret.
    rewrite bind_run. unfold binomial1. rewrite bind_run.
    unfold next_rand at 1. unfold mret at 1, M_ret.
    rewrite bind_run, load_prod_img_run. cbn [files with_rng].
    rewrite Hf2, (Himg r Hr). eexists _, _. split; [reflexivity|].
    destruct (rng w2); repeat split; simpl; congruence.
  - rewrite bind_run, (sample_prods_random_one _ _ Hmeth).
    run_load Hgrp. rewrite bind_run, Hone. cbn [squeeze]. unfold mret at 1, M_ret.
    rewrite bind_run. cbn [as_series]. unfold mret at 1, M_ret.
    rewrite bind_run, load_prod_img_run.
    rewrite Hf2, (Himg r Hr). eexists _, _. split; [reflexivity|].
    repeat split; simpl; congruence.
Qed.

Lemma init_then_getitem_random_witness :
  exists self w',
    init (SemanticMatchingDataset (3 # 10)) plan8_named "img" "random"
      (world0 [] images8) = (Ok self, w')
    /\ forall w1, only_rng w' w1 ->
         exists item w2,
           getitem self 1 w1 = (Ok item, w2) /\ only_rng w' w2.
Proof.
  apply (init_then_getitem_random (SemanticMatchingDataset (3 # 10))
           plan8_named "img" (world0 [] images8) 1).
  - reflexivity.
  - split; by vm_compute.
  - repeat (apply Forall_cons; split; [discriminate|]). by apply Forall_nil.
  - repeat (apply Forall_cons; split; [by vm_compute|]). by apply Forall_nil.
  - apply (bool_decide_unpack _). vm_compute. exact I.
Defined.
